(** * Spark Arcanum: rules ingestion, database refresh and ruling history

    A shallow embedding of
      - [server/rules-updater.ts]: [updateRulesDatabase],
        [parseComprehensiveRules], [createRuleEntry], [updateRulesFromFile],
        [updateRulesFromWotc] and the [/api/rulings/ask] route handler;
      - [server/cron/database-update.ts]: [updateCardDatabase] and
        [getCardCount].

    JavaScript strings are sequences of UTF-16 code units, modelled as
    [list N].  The regular expressions of the parser are embedded as the
    deterministic matchers they denote; each matcher carries the argument
    why backtracking cannot produce another result.

    The database, the file system, the network and the clock are a state
    ([World]) and an oracle ([Env]); asynchronous code runs in a state and
    exception monad over them, with [try]/[catch] as [tryCatch].  A promise
    that is returned without [await] is kept apart from a value that is
    returned, because a [catch] block sees the rejection of the former only
    when it is awaited inside the [try] block. *)

From Stdlib Require Import ZArith NArith List Bool Lia.
From Stdlib Require Import Strings.String Strings.Ascii Numbers.DecimalString.
From stdpp Require Import gmap.
Import ListNotations.

Local Open Scope N_scope.
Local Open Scope nat_scope.
Local Open Scope list_scope.

(** ** JavaScript strings *)

Module JS.

Abbreviation jsstring := (list N).

(** A string literal of the source, as code units. *)
Fixpoint lit (s : string) : jsstring :=
  match s with
  | EmptyString => []
  | String a r => N_of_ascii a :: lit r
  end.

(** Character classes of the regular expressions (no [u] or [i] flag). *)
Definition is_digit (c : N) : bool := ((48 <=? c) && (c <=? 57))%N.
Definition is_lower (c : N) : bool := ((97 <=? c) && (c <=? 122))%N.
Definition is_upper (c : N) : bool := ((65 <=? c) && (c <=? 90))%N.
Definition is_word (c : N) : bool :=
  is_digit c || is_lower c || is_upper c || (c =? 95)%N.
Definition is_dot (c : N) : bool := (c =? 46)%N.
Definition non_digit (c : N) : bool := negb (is_digit c).
Definition non_dot (c : N) : bool := negb (is_dot c).

(** [\s], which is also the set [String.prototype.trim] strips:
    WhiteSpace and LineTerminator of ECMAScript. *)
Definition is_space (c : N) : bool :=
  (((9 <=? c) && (c <=? 13)) || (c =? 32) || (c =? 160) || (c =? 5760)
   || ((8192 <=? c) && (c <=? 8202)) || (c =? 8232) || (c =? 8233)
   || (c =? 8239) || (c =? 8287) || (c =? 12288) || (c =? 65279))%N.

(** The longest prefix whose characters satisfy [p], and what follows it. *)
Fixpoint while (p : N -> bool) (s : jsstring) : jsstring :=
  match s with
  | c :: r => if p c then c :: while p r else []
  | [] => []
  end.

Fixpoint after (p : N -> bool) (s : jsstring) : jsstring :=
  match s with
  | c :: r => if p c then after p r else s
  | [] => []
  end.

Definition is_empty (s : jsstring) : bool :=
  match s with [] => true | _ => false end.

Definition trimStart (s : jsstring) : jsstring := after is_space s.
Definition trimEnd (s : jsstring) : jsstring := rev (after is_space (rev s)).
Definition trim (s : jsstring) : jsstring := trimEnd (trimStart s).

Fixpoint startsWith (p s : jsstring) : bool :=
  match p, s with
  | [], _ => true
  | a :: p', b :: s' => (a =? b)%N && startsWith p' s'
  | _ :: _, [] => false
  end.

(** [s.indexOf(p)]: [None] stands for [-1]. *)
Fixpoint indexOf (p s : jsstring) : option nat :=
  if startsWith p s then Some 0
  else match s with
       | [] => None
       | _ :: s' => option_map S (indexOf p s')
       end.

Definition includes (p s : jsstring) : bool :=
  match indexOf p s with Some _ => true | None => false end.

(** [s.substring(i)] for [0 <= i]. *)
Definition substring (i : nat) (s : jsstring) : jsstring := skipn i s.

(** [s.split('.')[0]] and [s.split('.')[1]] (the latter when [s] has a dot). *)
Definition beforeDot (s : jsstring) : jsstring := while non_dot s.
Definition afterFirstDot (s : jsstring) : jsstring :=
  match after non_dot s with
  | _ :: r => while non_dot r
  | [] => []
  end.

(** [parseInt] on a string that starts with decimal digits: the value of the
    leading digit run.  (Every call site passes a regular-expression capture
    of digits.  The values that are later looked up are below 1000, where
    the double of the source is exact.) *)
Definition digitsValue (s : jsstring) : N :=
  fold_left (fun acc c => (10 * acc + (c - 48))%N) (while is_digit s) 0%N.

(** Decimal rendering of an integer inside a template literal. *)
Definition showZ (z : Z) : jsstring :=
  lit (NilEmpty.string_of_int (Z.to_int z)).

(** *** Global regular expressions

    [execAll m skip prev s] is the list of results of repeatedly calling
    [re.exec] (or of [s.match(re)]) for a regular expression with the [g]
    flag: the leftmost match is taken, and the search resumes at its end
    ([lastIndex]).  [m prev s] says whether the expression matches at the
    start of [s], [prev] being the character before it, and gives the length
    of the match; [skip] counts the characters still covered by the last
    match.  The expressions below match at least one character, so no
    attempt is needed at the end of the subject. *)
Fixpoint execAll {A} (m : option N -> jsstring -> option (nat * A))
    (skip : nat) (prev : option N) (s : jsstring) : list A :=
  match s with
  | [] => []
  | c :: r =>
      match skip with
      | S k => execAll m k (Some c) r
      | O =>
          match m prev s with
          | Some (n, a) => a :: execAll m (pred n) (Some c) r
          | None => execAll m 0 (Some c) r
          end
      end
  end.

(** [s.replace(re, '')] for a global expression: the characters outside
    the matches. *)
Fixpoint removeAll (m : jsstring -> option nat) (skip : nat) (s : jsstring)
    : jsstring :=
  match s with
  | [] => []
  | c :: r =>
      match skip with
      | S k => removeAll m k r
      | O =>
          match m s with
          | Some n => removeAll m (pred n) r
          | None => c :: removeAll m 0 r
          end
      end
  end.

End JS.

Import JS.

(** ** The rules text parser ([server/rules-updater.ts]) *)

Module Parser.

(** The record built by [createRuleEntry]. *)
Record RuleEntry := {
  ruleNumber : jsstring;
  text : jsstring;
  examples : list jsstring;
  keywords : list jsstring;
  chapter : jsstring;
  section : jsstring;
  subsection : jsstring;
  relatedRules : list jsstring
}.

Definition anchor : jsstring := lit "1. Game Concepts".

(** [\d{3}\.\d+[a-z]*] at the start of [s]: the text matched and the rest.
    The three digits and the dot are forced.  [\d+] and [[a-z]*] are greedy
    and every use of this pattern is followed by [\.] or by nothing: a
    shorter digit or letter run would leave a digit or a letter where the
    dot (or the end of the pattern) is due, so only the longest runs can
    take part in a match. *)
Definition ruleNumberAt (s : jsstring) : option (jsstring * jsstring) :=
  match s with
  | d1 :: d2 :: d3 :: dot :: r =>
      if is_digit d1 && is_digit d2 && is_digit d3 && is_dot dot then
        let ds := while is_digit r in
        let r1 := after is_digit r in
        if is_empty ds then None
        else Some (d1 :: d2 :: d3 :: dot :: ds ++ while is_lower r1,
                   after is_lower r1)
      else None
  | _ => None
  end.

(** The lookahead [(?=\d{3}\.\d+[a-z]*\.|$)] of [rulePattern].  There is no
    [m] flag, so [$] holds at the end of the subject only. *)
Definition ruleAhead (s : jsstring) : bool :=
  match s with
  | [] => true
  | _ => match ruleNumberAt s with
         | Some (_, c :: _) => is_dot c
         | _ => false
         end
  end.

(** [rulePattern] at the start of [s]: the length of the match and the two
    captures.  The pattern is a rule number [\d{3}\.\d+[a-z]*] (capture 1),
    then [\.\s+], then the body [[^0-9]*?] (capture 2), then the lookahead
    [(?=\d{3}\.\d+[a-z]*\.|$)].
    The lazy [[^0-9]*?] grows until the lookahead holds.  The lookahead can
    hold only at a digit or at the end of the subject, and the body cannot
    take a digit, so the body is the run of non-digits up to the first digit
    (or the end), and the match fails when the lookahead fails there.
    Giving back part of [\s+] only moves white space into the body and
    meets the same digit, so it cannot turn a failure into a match. *)
Definition ruleAt (_ : option N) (s : jsstring)
    : option (nat * (jsstring * jsstring)) :=
  match ruleNumberAt s with
  | Some (num, c :: r) =>
      if is_dot c then
        let ws := while is_space r in
        let r1 := after is_space r in
        if is_empty ws then None
        else
          let body := while non_digit r1 in
          if ruleAhead (after non_digit r1)
          then Some (length num + 1 + length ws + length body, (num, body))
          else None
      else None
  | _ => None
  end.

(** The lookaheads [(?=\d{3}\.)] and [(?=\d{3}\.\d+)]. *)
Definition chapterAhead (s : jsstring) : bool :=
  match s with
  | d1 :: d2 :: d3 :: dot :: _ =>
      is_digit d1 && is_digit d2 && is_digit d3 && is_dot dot
  | _ => false
  end.

Definition sectionAhead (s : jsstring) : bool :=
  match s with
  | d1 :: d2 :: d3 :: dot :: d4 :: _ =>
      is_digit d1 && is_digit d2 && is_digit d3 && is_dot dot && is_digit d4
  | _ => false
  end.

(** The common tail [\.\s+([A-Z][^0-9]*?)(?=...)] of [chapterPattern] and
    [sectionPattern], after the number: the length matched and the title.
    As for [ruleAt], the lazy title ends at the first digit. *)
Definition titleAt (ahead : jsstring -> bool) (s : jsstring)
    : option (nat * jsstring) :=
  match s with
  | dot :: r =>
      if is_dot dot then
        let ws := while is_space r in
        if is_empty ws then None
        else
          match after is_space r with
          | c :: r1 =>
              if is_upper c then
                let t := while non_digit r1 in
                if ahead (after non_digit r1)
                then Some (1 + length ws + 1 + length t, c :: t)
                else None
              else None
          | [] => None
          end
      else None
  | [] => None
  end.

(** [chapterPattern = /(\d+)\.\s+([A-Z][^0-9]*?)(?=\d{3}\.)/g].  [\d+] takes
    the whole digit run: after a shorter one the dot would face a digit. *)
Definition chapterAt (_ : option N) (s : jsstring)
    : option (nat * (jsstring * jsstring)) :=
  let ds := while is_digit s in
  if is_empty ds then None
  else match titleAt chapterAhead (after is_digit s) with
       | Some (n, t) => Some (length ds + n, (ds, t))
       | None => None
       end.

(** [sectionPattern = /(\d{3})\.\s+([A-Z][^0-9]*?)(?=\d{3}\.\d+)/g]. *)
Definition sectionAt (_ : option N) (s : jsstring)
    : option (nat * (jsstring * jsstring)) :=
  match s with
  | d1 :: d2 :: d3 :: r =>
      if is_digit d1 && is_digit d2 && is_digit d3 then
        match titleAt sectionAhead r with
        | Some (n, t) => Some (3 + n, ([d1; d2; d3], t))
        | None => None
        end
      else None
  | _ => None
  end.

(** [exampleRegex = /Example:\s*([^.]*\.)/g] at the start of [s]: the length
    of the match and the capture.  Both stars are greedy; the capture runs
    to the first dot, and there is no match when no dot follows. *)
Definition exampleAt (s : jsstring) : option (nat * jsstring) :=
  if startsWith (lit "Example:") s then
    let r := skipn 8 s in
    let ws := while is_space r in
    let r1 := after is_space r in
    let x := while non_dot r1 in
    match after non_dot r1 with
    | d :: _ => Some (8 + length ws + length x + 1, x ++ [d])
    | [] => None
    end
  else None.

(** [[A-Z][a-z]+] at the start of [s]: the length of the word. *)
Definition capitalAt (s : jsstring) : option nat :=
  match s with
  | c :: r =>
      if is_upper c && negb (is_empty (while is_lower r))
      then Some (1 + length (while is_lower r))
      else None
  | [] => None
  end.

(** A word boundary [\b] after a word character, in front of [s]. *)
Definition boundaryBefore (s : jsstring) : bool :=
  match s with
  | c :: _ => negb (is_word c)
  | [] => true
  end.

(** [(?:\s+[A-Z][a-z]+)*\b] in front of [s], right after a capitalised
    word: the number of characters matched.  The greedy star first tries one
    more [\s+[A-Z][a-z]+] and the rest after it; when that fails it ends here
    with [\b].  Each round consumes at least three characters, so [fuel]
    equal to the length of [s] is never exhausted. *)
Fixpoint keywordTail (fuel : nat) (s : jsstring) : option nat :=
  let stop := if boundaryBefore s then Some 0 else None in
  match fuel with
  | O => stop
  | S fuel' =>
      let ws := while is_space s in
      let r := after is_space s in
      match is_empty ws, capitalAt r with
      | false, Some w =>
          match keywordTail fuel' (skipn w r) with
          | Some n => Some (length ws + w + n)
          | None => stop
          end
      | _, _ => stop
      end
  end.

(** [/\b[A-Z][a-z]+(?:\s+[A-Z][a-z]+)*\b/g] at the start of [s], [prev]
    being the character before it. *)
Definition keywordAt (prev : option N) (s : jsstring)
    : option (nat * jsstring) :=
  let boundary := match prev with Some p => negb (is_word p) | None => true end in
  if boundary then
    match capitalAt s with
    | Some w =>
        match keywordTail (length s) (skipn w s) with
        | Some n => Some (w + n, firstn (w + n) s)
        | None => None
        end
    | None => None
    end
  else None.

(** The captures [match[1]] of the [exampleRegex.exec] loop, and
    [text.replace(/Example:\s*[^.]*\./g, '')]. *)
Definition findExamples (text : jsstring) : list jsstring :=
  execAll (fun _ s => exampleAt s) 0 None text.
Definition exampleLen (s : jsstring) : option nat :=
  option_map fst (exampleAt s).
Definition removeExamples (text : jsstring) : jsstring :=
  removeAll exampleLen 0 text.

(** [createRuleEntry(ruleNumber, text, chapter, section)]. *)
Definition createRuleEntry (ruleNumber text chapter section : jsstring)
    : RuleEntry :=
  let examples := map trim (findExamples text) in
  let keywords := firstn 10 (execAll keywordAt 0 None text) in
  let subsection :=
    if includes (lit ".") ruleNumber then afterFirstDot ruleNumber else [] in
  {| ruleNumber := ruleNumber;
     text := trim (removeExamples text);
     examples := examples;
     keywords := keywords;
     chapter := chapter;
     section := section;
     subsection := subsection;
     relatedRules := [] |}.

(** [chapters[n] = title.trim()] for every match, in order. *)
Definition titleMap (ms : list (jsstring * jsstring)) : gmap N jsstring :=
  fold_left (fun m p => <[digitsValue (fst p) := trim (snd p)]> m) ms ∅.

(** [table[key] || current]: an absent entry and the empty string are
    both falsy. *)
Definition lookupOr (table : gmap N jsstring) (key : N) (current : jsstring)
    : jsstring :=
  match table !! key with
  | Some t => if is_empty t then current else t
  | None => current
  end.

(** The [while ((ruleMatch = rulePattern.exec(cleanText)) !== null)] loop,
    over the matches in order. *)
Fixpoint collectRules (chapters sections : gmap N jsstring)
    (currentChapter currentSection : jsstring)
    (ms : list (jsstring * jsstring)) : list RuleEntry :=
  match ms with
  | [] => []
  | (ruleNumber, body) :: ms' =>
      let ruleText := trim body in
      if 10 <? length ruleText then
        let rulePrefix := digitsValue (beforeDot ruleNumber) in
        let chapterNum := (rulePrefix / 100)%N in
        let currentChapter' := lookupOr chapters chapterNum currentChapter in
        let currentSection' := lookupOr sections rulePrefix currentSection in
        createRuleEntry ruleNumber ruleText currentChapter' currentSection'
          :: collectRules chapters sections currentChapter' currentSection' ms'
      else collectRules chapters sections currentChapter currentSection ms'
  end.

(** [parseComprehensiveRules(rulesText)]. *)
Definition parseComprehensiveRules (rulesText : jsstring) : list RuleEntry :=
  match indexOf anchor rulesText with
  | None => []
  | Some startIndex =>
      let cleanText := substring startIndex rulesText in
      let chapters := titleMap (execAll chapterAt 0 None cleanText) in
      let sections := titleMap (execAll sectionAt 0 None cleanText) in
      collectRules chapters sections (lit "Game Concepts") []
        (execAll ruleAt 0 None cleanText)
  end.

End Parser.

Import Parser.

(** ** The host: database, file system, network, clock *)

Module Host.

(** A JavaScript [Error]; only [error.message] is ever read. *)
Record Error := { errorMessage : jsstring }.

(** [{success: boolean, message: string}]. *)
Record Result := { success : bool; message : jsstring }.

(** How a call ends.  [Returned] and [Thrown] are the fulfilment and the
    rejection of the promise of an [async] function.  [Uncaught] is an
    exception that escapes an event listener: no promise is settled by it and
    no [catch] sees it.  [OutOfFuel] belongs to the model only: a loop of the
    source was cut short (the theorems show that it does not happen). *)
Inductive Outcome (A : Type) : Type :=
  | Returned (a : A)
  | Thrown (e : Error)
  | Uncaught (e : Error)
  | OutOfFuel.
Arguments Returned {A} a.
Arguments Thrown {A} e.
Arguments Uncaught {A} e.
Arguments OutOfFuel {A}.

(** How the promise of a collaborator outside this code settles. *)
Inductive Settled (A : Type) : Type :=
  | Fulfilled (a : A)
  | Rejected (e : Error).
Arguments Fulfilled {A} a.
Arguments Rejected {A} e.

(** A row of the [rules] table and the row of [db_metadata] whose id is
    ["card_database"] (timestamps in milliseconds). *)
Record RuleRow := { entry : RuleEntry; createdAt : option Z }.
Record MetaRow := {
  last_updated : option Z;
  total_cards : Z;
  description : jsstring
}.

(** Operations on the outside world, as they are attempted. *)
Inductive Event :=
  | SelectMetadata
  | SelectRules
  | DeleteRules
  | InsertRules (batch : list RuleEntry)
  | UpsertMetadata (row : MetaRow)
  | CountCards
  | RefreshCards
  | ReadFile (path : string)
  | Unlink (path : string)
  | Mkdir (path : string)
  | CreateWriteStream (path : string)
  | HttpGet (url : string).

Record World := {
  rulesTable : list RuleRow;
  metadata : option MetaRow;
  files : gmap string jsstring;
  directories : gset string;
  performed : list Event  (* most recent first *)
}.

(** What [https.get] leads to: a network error, or a response with a status
    code whose body is piped into the file stream, which finishes or emits
    an error.  A response whose body never ends, after which neither
    [finish] nor [error] is emitted and the promise stays pending, is not
    among these replies. *)
Inductive HttpReply :=
  | NetworkError (err : Error)
  | Response (statusCode : Z) (body : jsstring) (streamError : option Error).

(** What the world answers during one invocation.  [fault k = Some e] makes
    the operation attempted after [k] earlier ones fail with [e]; it applies
    to every database and file-system operation. *)
Record Env := {
  now : Z;
  fault : nat -> option Error;
  cardRefresh : Settled Result;
  countReply : option Z;
  httpReply : HttpReply
}.

Definition M (A : Type) : Type := Env -> World -> Outcome A * World.

Definition ret {A} (a : A) : M A := fun _ w => (Returned a, w).

Definition bind {A B} (c : M A) (k : A -> M B) : M B :=
  fun env w =>
    match c env w with
    | (Returned a, w') => k a env w'
    | (Thrown e, w') => (Thrown e, w')
    | (Uncaught e, w') => (Uncaught e, w')
    | (OutOfFuel, w') => (OutOfFuel, w')
    end.

Definition throw {A} (e : Error) : M A := fun _ w => (Thrown e, w).

(** [try { body } catch (error) { handler }]. *)
Definition tryCatch {A} (body : M A) (handler : Error -> M A) : M A :=
  fun env w =>
    match body env w with
    | (Thrown e, w') => handler e env w'
    | r => r
    end.

(** Code run by an event listener: an exception leaves the listener and is
    nobody's rejection. *)
Definition inListener {A} (c : M A) : M A :=
  fun env w =>
    match c env w with
    | (Thrown e, w') => (Uncaught e, w')
    | r => r
    end.

Definition ask : M Env := fun env w => (Returned env, w).
Definition get : M World := fun _ w => (Returned w, w).

Declare Scope host_scope.
Delimit Scope host_scope with host.
Notation "x <- c ;; k" := (bind c (fun x => k))
  (at level 100, c at next level, right associativity) : host_scope.
Notation "c ;; k" := (bind c (fun _ => k))
  (at level 100, right associativity) : host_scope.
Local Open Scope host_scope.

Definition record (ev : Event) (w : World) : World :=
  {| rulesTable := rulesTable w; metadata := metadata w; files := files w;
     directories := directories w; performed := ev :: performed w |}.

(** Attempt an operation that can fail. *)
Definition attempt (ev : Event) : M unit :=
  fun env w =>
    match fault env (length (performed w)) with
    | Some e => (Thrown e, record ev w)
    | None => (Returned tt, record ev w)
    end.

(** Attempt an operation that reports its failure elsewhere. *)
Definition note (ev : Event) : M unit :=
  fun _ w => (Returned tt, record ev w).

Definition setRules (t : list RuleRow) (w : World) : World :=
  {| rulesTable := t; metadata := metadata w; files := files w;
     directories := directories w; performed := performed w |}.
Definition setMetadata (m : option MetaRow) (w : World) : World :=
  {| rulesTable := rulesTable w; metadata := m; files := files w;
     directories := directories w; performed := performed w |}.
Definition setFiles (f : gmap string jsstring) (w : World) : World :=
  {| rulesTable := rulesTable w; metadata := metadata w; files := f;
     directories := directories w; performed := performed w |}.
Definition setDirectories (d : gset string) (w : World) : World :=
  {| rulesTable := rulesTable w; metadata := metadata w; files := files w;
     directories := d; performed := performed w |}.

Definition modify (f : World -> World) : M unit :=
  fun _ w => (Returned tt, f w).

(** *** The database *)

(** [db.select().from(dbMetadata).where(eq(dbMetadata.id, "card_database"))]. *)
Definition selectMetadata : M (option MetaRow) :=
  attempt SelectMetadata ;; w <- get ;; ret (metadata w).

(** [db.select().from(rules).limit(1)]: no [orderBy], the row that comes
    first in storage order. *)
Definition selectRulesLimit1 : M (list RuleRow) :=
  attempt SelectRules ;; w <- get ;; ret (firstn 1 (rulesTable w)).

(** [db.delete(rules)]. *)
Definition deleteRules : M unit :=
  attempt DeleteRules ;; modify (setRules []).

(** The keys of the objects [createRuleEntry] returns, and the keys under
    which [shared/schema.ts] declares the columns of [rules] that are NOT
    NULL and have no default. *)
Definition ruleEntryKeys : list string :=
  [ "ruleNumber"; "text"; "examples"; "keywords"; "chapter"; "section";
    "subsection"; "relatedRules" ]%string.
Definition requiredRuleKeys : list string := [ "rule_number"; "text" ]%string.

(** Whether a record of [createRuleEntry] gives every required column a
    value: the insert statement reads each column under the key the table
    declares for it, and a key it does not find is sent as DEFAULT. *)
Definition suppliesRequired : bool :=
  forallb (fun key => existsb (String.eqb key) ruleEntryKeys) requiredRuleKeys.

(** The error of the database for a NOT NULL column left without a value
    (its message, without the quotation marks around the names), and the
    error of the query builder for an empty list of values. *)
Definition notNullViolation : Error :=
  {| errorMessage :=
       lit "null value in column rule_number of relation rules violates not-null constraint" |}.
Definition noValues : Error :=
  {| errorMessage := lit "values() must be called with at least one value" |}.

(** [db.insert(rules).values(batch)]; [created_at] defaults to now. *)
Definition insertRules (batch : list RuleEntry) : M unit :=
  match batch with
  | [] => throw noValues
  | _ :: _ =>
      attempt (InsertRules batch) ;;
      if suppliesRequired then
        env <- ask ;;
        modify (fun w =>
          setRules (rulesTable w
                    ++ map (fun e => {| entry := e; createdAt := Some (now env) |})
                           batch) w)
      else throw notNullViolation
  end.

(** [db.insert(dbMetadata).values(ins).onConflictDoUpdate({set: upd})]. *)
Definition upsertMetadata (ins upd : MetaRow) : M unit :=
  w <- get ;;
  let row := match metadata w with Some _ => upd | None => ins end in
  attempt (UpsertMetadata row) ;;
  modify (setMetadata (Some row)).

(** [db.execute(sql`SELECT COUNT( * ) as count FROM cards`)]: [Some n] when the
    reply is a non-empty array whose first row counts [n]. *)
Definition countCards : M (option Z) :=
  attempt CountCards ;; env <- ask ;; ret (countReply env).

(** *** The file system *)

Definition existsSync (path : string) : M bool :=
  w <- get ;;
  ret (bool_decide (is_Some (files w !! path))
       || bool_decide (path ∈ directories w)).

Definition ENOENT : Error :=
  {| errorMessage := lit "ENOENT: no such file or directory" |}.

Definition readFileSync (path : string) : M jsstring :=
  attempt (ReadFile path) ;;
  w <- get ;;
  match files w !! path with
  | Some t => ret t
  | None => throw ENOENT
  end.

Definition unlinkSync (path : string) : M unit :=
  attempt (Unlink path) ;;
  w <- get ;;
  match files w !! path with
  | Some _ => modify (fun w => setFiles (delete path (files w)) w)
  | None => throw ENOENT
  end.

Definition mkdirSync (path : string) : M unit :=
  attempt (Mkdir path) ;;
  modify (fun w => setDirectories ({[ path ]} ∪ directories w) w).

(** [fs.createWriteStream(path)]: the file is created or truncated; a
    failure shows up later as an [error] event of the stream, which
    [HttpReply] carries for a response with status 200 (the only place
    where a listener is attached). *)
Definition createWriteStream (path : string) : M unit :=
  note (CreateWriteStream path) ;;
  modify (fun w => setFiles (<[path := []]> (files w)) w).

(** The stream has written [body] and emitted [finish]. *)
Definition piped (path : string) (body : jsstring) : M unit :=
  modify (fun w => setFiles (<[path := body]> (files w)) w).

End Host.

Import Host.

(** ** Rules ingestion ([server/rules-updater.ts]) *)

Module Updater.

Local Open Scope host_scope.

Definition batchSize : nat := 100.

(** [a.slice(i, j)] for [i <= j]. *)
Definition slice {A} (i j : nat) (a : list A) : list A :=
  firstn (j - i) (skipn i a).

Definition outOfFuel {A} : M A := fun _ w => (OutOfFuel, w).

(** [for (let i = 0; i < parsedRules.length; i += batchSize)], from [i] on. *)
Fixpoint insertBatches (fuel : nat) (parsedRules : list RuleEntry) (i : nat)
    : M unit :=
  if i <? length parsedRules then
    match fuel with
    | O => outOfFuel
    | S fuel' =>
        let batch := slice i (i + batchSize) parsedRules in
        insertRules batch ;;
        insertBatches fuel' parsedRules (i + batchSize)
    end
  else ret tt.

(** [updateRulesDatabase(filePath)]. *)
Definition updateRulesDatabase (filePath : string) : M unit :=
  tryCatch
    (rulesText <- readFileSync filePath ;;
     deleteRules ;;
     let parsedRules := parseComprehensiveRules rulesText in
     insertBatches (length parsedRules) parsedRules 0)
    (fun error => throw error).

Definition localRulesFile : string := "./attached_assets/MagicCompRules.txt".

(** [updateRulesFromFile()]. *)
Definition updateRulesFromFile : M unit :=
  found <- existsSync localRulesFile ;;
  if negb found
  then throw {| errorMessage := lit "Comprehensive rules file not found" |}
  else updateRulesDatabase localRulesFile.

Definition rulesUrl : string :=
  "https://media.wizards.com/2025/downloads/MagicCompRules%2020250404.txt".
Definition tempDir : string := "./temp".
(** [path.join(tempDir, 'MagicCompRules_latest.txt')]. *)
Definition tempFilePath : string := "temp/MagicCompRules_latest.txt".

Definition msPerDay : Z := 1000 * 60 * 60 * 24.

(** [Math.round(ms / msPerDay)], half rounded up.  [ms] is a whole number of
    milliseconds, so the quotient of the source is never within rounding
    error of a half. *)
Definition roundDays (ms : Z) : Z := ((2 * ms + msPerDay) / (2 * msPerDay))%Z.

(** [daysSinceUpdate < 7] with
    [daysSinceUpdate = lastUpdate ? (Date.now() - lastUpdate.getTime()) / msPerDay : 30]. *)
Definition updatedWithinWeek (nowMs : Z) (lastUpdate : option Z) : option Z :=
  match lastUpdate with
  | Some t => if (nowMs - t <? 7 * msPerDay)%Z then Some (nowMs - t)%Z else None
  | None => None
  end.

(** What the [try] block of [updateRulesFromWotc] hands to [return]: a plain
    object, or the promise made by [new Promise(...)].  A returned promise
    is not awaited inside the [try]; the promise of the [async] function
    takes over its settlement after the block has been left. *)
Inductive Returning :=
  | Value (r : Result)
  | Promise (settle : M Result).

(** The executor of [new Promise((resolve, reject) => ...)] and the
    callbacks it registers. *)
Definition download : M Result :=
  createWriteStream tempFilePath ;;
  note (HttpGet rulesUrl) ;;
  env <- ask ;;
  match httpReply env with
  | NetworkError err =>
      throw {| errorMessage :=
                 lit "Network error downloading rules: " ++ errorMessage err |}
  | Response statusCode body streamError =>
      if (statusCode =? 200)%Z then
        match streamError with
        | None =>
            piped tempFilePath body ;;
            tryCatch
              (updateRulesDatabase tempFilePath ;;
               unlinkSync tempFilePath ;;
               ret {| success := true;
                      message := lit "Comprehensive rules updated successfully from official source" |})
              (fun updateError =>
                 throw {| errorMessage :=
                            lit "Failed to process downloaded rules: "
                            ++ errorMessage updateError |})
        | Some err =>
            inListener (unlinkSync tempFilePath) ;;
            throw {| errorMessage :=
                       lit "Failed to save rules file: " ++ errorMessage err |}
        end
      else
        throw {| errorMessage :=
                   lit "Failed to download rules. HTTP status: "
                   ++ showZ statusCode |}
  end.

(** The body of the [try] block of [updateRulesFromWotc]. *)
Definition attemptDownload : M Returning :=
  existingRules <- selectRulesLimit1 ;;
  env <- ask ;;
  let recent :=
    match existingRules with
    | row :: _ => updatedWithinWeek (now env) (createdAt row)
    | [] => None
    end in
  match recent with
  | Some ms =>
      ret (Value {| success := true;
                    message := lit "Rules were updated " ++ showZ (roundDays ms)
                               ++ lit " days ago. Skipping update." |})
  | None =>
      found <- existsSync tempDir ;;
      (if negb found then mkdirSync tempDir else ret tt) ;;
      ret (Promise download)
  end.

(** The [catch] block of [updateRulesFromWotc]. *)
Definition fallback (error : Error) : M Returning :=
  tryCatch
    (updateRulesFromFile ;;
     ret (Value {| success := true;
                   message := lit "Used local comprehensive rules file as fallback" |}))
    (fun fallbackError =>
       ret (Value {| success := false;
                     message := lit "Failed to update rules: " ++ errorMessage error
                                ++ lit ". Fallback also failed: "
                                ++ errorMessage fallbackError |})).

(** [updateRulesFromWotc()]. *)
Definition updateRulesFromWotc : M Result :=
  r <- tryCatch attemptDownload fallback ;;
  match r with
  | Value v => ret v
  | Promise settle => settle
  end.

End Updater.

(** ** The scheduled refresh ([server/cron/database-update.ts]) *)

Module Cron.

Local Open Scope host_scope.

(** The object [updateCardDatabase] returns; the last three fields are
    present on some paths only. *)
Record Summary := {
  success : bool;
  message : jsstring;
  last_updated : option (option Z);
  cardResult : option Result;
  rulesResult : option Result
}.

Definition msPerHour : Z := 1000 * 60 * 60.

(** [mtgJsonService.completeCardDatabaseUpdate()]. *)
Definition completeCardDatabaseUpdate : M Result :=
  note RefreshCards ;;
  env <- ask ;;
  match cardRefresh env with
  | Fulfilled r => ret r
  | Rejected e => throw e
  end.

(** [getCardCount()]. *)
Definition getCardCount : M Z :=
  tryCatch
    (result <- countCards ;;
     ret (match result with Some n => n | None => 0%Z end))
    (fun _ => ret 0%Z).

(** [hoursSinceLastUpdate < 24]; the age is a whole number of milliseconds,
    so the test on the quotient is the test on the age. *)
Definition upToDate (nowMs : Z) (lastUpdate : option MetaRow) : option (option Z) :=
  match lastUpdate with
  | Some row =>
      match Host.last_updated row with
      | Some t =>
          if (nowMs - t <? 24 * msPerHour)%Z then Some (Some t) else None
      | None => None
      end
  | None => None
  end.

(** [updateCardDatabase()]. *)
Definition updateCardDatabase : M Summary :=
  tryCatch
    (lastUpdate <- selectMetadata ;;
     env <- ask ;;
     match upToDate (now env) lastUpdate with
     | Some stamp =>
         ret {| success := true;
                message := lit "Database is up to date";
                last_updated := Some stamp;
                cardResult := None;
                rulesResult := None |}
     | None =>
         cardResult <- completeCardDatabaseUpdate ;;
         rulesResult <-
           tryCatch Updater.updateRulesFromWotc
             (fun rulesError =>
                ret {| Host.success := false;
                       Host.message := lit "Rules update failed: "
                                       ++ errorMessage rulesError |}) ;;
         (if Host.success cardResult then
            let description :=
              Host.message cardResult ++ lit ". " ++ Host.message rulesResult in
            inserted <- getCardCount ;;
            updated <- getCardCount ;;
            upsertMetadata
              {| Host.last_updated := Some (now env);
                 total_cards := inserted;
                 description := description |}
              {| Host.last_updated := Some (now env);
                 total_cards := updated;
                 description := description |}
          else ret tt) ;;
         ret {| success := Host.success cardResult && Host.success rulesResult;
                message := lit "Cards: " ++ Host.message cardResult
                           ++ lit ". Rules: " ++ Host.message rulesResult;
                last_updated := None;
                cardResult := Some cardResult;
                rulesResult := Some rulesResult |}
     end)
    (fun error =>
       ret {| success := false;
              message := lit "Error updating database: " ++ errorMessage error;
              last_updated := None;
              cardResult := None;
              rulesResult := None |}).

End Cron.

(** ** The ruling conversation ([/api/rulings/ask]) *)

Module Routes.

(** A value of the request body as far as the handler looks at it: a string,
    or a value of another type (a number, a boolean, an array, an object),
    of which its truthiness and its JSON text are kept. *)
Inductive Value :=
  | Text (s : jsstring)
  | Other (isTruthy : bool) (json : jsstring).

Definition truthy (v : Value) : bool :=
  match v with
  | Text s => negb (is_empty s)
  | Other isTruthy _ => isTruthy
  end.

(** [{role, content}]; the content is the question as it came, or an
    answer. *)
Record Message := { role : jsstring; content : Value }.

(** The fields read from [req.body].  [question = None] and
    [cardId = None] stand for a key that is missing; [cardIds = None] for
    one that is missing or not an array. *)
Record AskBody := {
  question : option Value;
  cardId : option Value;
  cardIds : option (list Value)
}.

Inductive Reply :=
  | BadRequest (message : jsstring)
  | Answer (m : Message)
  | ServerError (message error : jsstring).

Section Ask.

(** The card type and the two collaborators are not part of this code. *)
Variable Card : Type.
Variable getCard : Value -> Settled (option Card).
Variable getCardRuling :
  Value -> option Card -> list Message -> list Card -> Settled jsstring.

(** [!value] for a value that may be missing. *)
Definition falsy (v : option Value) : bool :=
  match v with
  | Some v => negb (truthy v)
  | None => true
  end.

(** [await Promise.all(cardIds.map(id => storage.getCard(id)))], then
    [cards.filter(card => card !== null)]. *)
Fixpoint getCards (ids : list Value) : Settled (list Card) :=
  match ids with
  | [] => Fulfilled []
  | id :: ids' =>
      match getCard id, getCards ids' with
      | Rejected e, _ => Rejected e
      | _, Rejected e => Rejected e
      | Fulfilled (Some c), Fulfilled cs => Fulfilled (c :: cs)
      | Fulfilled None, Fulfilled cs => Fulfilled cs
      end
  end.

(** The primary card and the mentioned cards of a request, as they are
    handed to [getCardRuling]. *)
Definition lookUpCards (body : AskBody)
    : Settled (option Card * list Card) :=
  let primary :=
    match cardId body with
    | Some id => if truthy id then getCard id else Fulfilled None
    | None => Fulfilled None
    end in
  match primary with
  | Rejected e => Rejected e
  | Fulfilled primaryCard =>
      match cardIds body with
      | Some (id :: ids) =>
          match getCards (id :: ids) with
          | Rejected e => Rejected e
          | Fulfilled mentionedCards =>
              match primaryCard, mentionedCards with
              | None, c :: cs => Fulfilled (Some c, cs)
              | _, _ => Fulfilled (primaryCard, mentionedCards)
              end
          end
      | _ => Fulfilled (primaryCard, [])
      end
  end.

Definition failed (e : Error) : Reply :=
  ServerError (lit "Error getting ruling") (errorMessage e).

(** [currentConversation.slice(currentConversation.length - 10)] when the
    length exceeds 10. *)
Definition limitHistory (conversation : list Message) : list Message :=
  if 10 <? length conversation
  then skipn (length conversation - 10) conversation
  else conversation.

(** The handler of [POST /api/rulings/ask]: the reply and the new value of
    the module-level [currentConversation]. *)
Definition askRuling (body : AskBody) (currentConversation : list Message)
    : Reply * list Message :=
  match question body with
  | None => (BadRequest (lit "Question is required"), currentConversation)
  | Some q =>
    if negb (truthy q)
    then (BadRequest (lit "Question is required"), currentConversation)
    else
      match lookUpCards body with
      | Rejected e => (failed e, currentConversation)
      | Fulfilled (primaryCard, mentionedCards) =>
          let asked :=
            currentConversation ++ [{| role := lit "user"; content := q |}] in
          match getCardRuling q primaryCard asked mentionedCards with
          | Rejected e => (failed e, asked)
          | Fulfilled answer =>
              let m := {| role := lit "assistant"; content := Text answer |} in
              (Answer m, limitHistory (asked ++ [m]))
          end
      end
  end.

(** The history after a sequence of requests, served one after another. *)
Definition serve (bodies : list AskBody) (conversation : list Message)
    : list Message :=
  fold_left (fun c b => snd (askRuling b c)) bodies conversation.

End Ask.

End Routes.

(** ** Card search ([/api/cards/search], [/api/cards/enhanced-search]) *)

Module Search.

(** The fields of a card the search handlers read.  [type], [imageUrl] and
    [set] may be missing ([card.type?.], [!card.imageUrl]). *)
Record Card := {
  id : jsstring;
  name : jsstring;
  type : option jsstring;
  imageUrl : option jsstring;
  set : option jsstring
}.

(** A string that may be missing, used as a condition. *)
Definition truthy (v : option jsstring) : bool :=
  match v with
  | Some s => negb (is_empty s)
  | None => false
  end.

(** [a === b] on strings. *)
Definition strictEq (a b : jsstring) : bool := bool_decide (a = b).

Definition setOrder : list jsstring :=
  map lit
    [ "TDM"; "YTDM"; "LTK"; "YLTK"; "POW"; "YPOW";
      "OTJ"; "MKM"; "WOE"; "LCI"; "MOM"; "ONE"; "BRO"; "DMU";
      "WHO"; "SNC"; "NEO"; "VOW"; "MID"; "AFR"; "STX"; "KHM";
      "YOTJ"; "YMKM"; "YWOE"; "YLCI"; "YMOM"; "YONE"; "YBRO"; "YDMU";
      "YDFT"; "YDSK"; "YBLB"; "YSNC"; "YNEO"; "YVOW"; "YMID"; "YAFR" ]%string.

(** [array.indexOf(x)]: [None] stands for [-1]; a missing [x] is never
    found. *)
Fixpoint arrayIndexOf (x : jsstring) (array : list jsstring) : option nat :=
  match array with
  | [] => None
  | y :: rest =>
      if strictEq y x then Some 0 else option_map S (arrayIndexOf x rest)
  end.

Definition setIndex (card : Card) : option nat :=
  match set card with
  | Some s => arrayIndexOf s setOrder
  | None => None
  end.

(** [isPrioritizedVersion(card, existingCard)]. *)
Definition isPrioritizedVersion (card : Card) (existingCard : option Card)
    : bool :=
  match existingCard with
  | None => true
  | Some existing =>
      if truthy (imageUrl card) && negb (truthy (imageUrl existing)) then true
      else
        match setIndex card, setIndex existing with
        | Some cardSetIndex, Some existingSetIndex =>
            cardSetIndex <? existingSetIndex
        | Some _, None => true
        | None, Some _ => false
        | None, None => false
        end
  end.

(** A [Map] with string keys: its entries in insertion order. *)
Definition JsMap (V : Type) : Type := list (jsstring * V).

Fixpoint mapGet {V} (key : jsstring) (m : JsMap V) : option V :=
  match m with
  | [] => None
  | (k, v) :: rest => if strictEq k key then Some v else mapGet key rest
  end.

Definition mapHas {V} (key : jsstring) (m : JsMap V) : bool :=
  match mapGet key m with Some _ => true | None => false end.

(** [m.set(key, value)]: an existing key keeps its place. *)
Fixpoint mapSet {V} (key : jsstring) (value : V) (m : JsMap V) : JsMap V :=
  match m with
  | [] => [(key, value)]
  | (k, v) :: rest =>
      if strictEq k key then (k, value) :: rest
      else (k, v) :: mapSet key value rest
  end.

Definition mapValues {V} (m : JsMap V) : list V := map snd m.

(** The query string of a search request: [q] when it is a string, whether
    [include_all_sets] is ['true'], and [set] when it is a string. *)
Record SearchQuery := {
  q : option jsstring;
  include_all_sets : bool;
  setFilter : option jsstring
}.

Inductive SearchReply :=
  | Json (cards : list Card)
  | ServerError (message error : jsstring).

Inductive EnhancedReply :=
  | Found (cards : list Card)
  | BadRequest (error : jsstring)
  | Failed (error : jsstring).

Section Handlers.

(** [String.prototype.toLowerCase] and the two card sources are not part
    of this code. *)
Variable toLowerCase : jsstring -> jsstring.
Variable findCards : jsstring -> option jsstring -> Settled (list Card).
Variable searchCardsWithGraphQL : jsstring -> Settled (list Card).

(** [card.name.toLowerCase() === q.toLowerCase()]. *)
Definition sameName (query : jsstring) (card : Card) : bool :=
  strictEq (toLowerCase (name card)) (toLowerCase query).

(** [card.type?.toLowerCase().includes('basic land')]. *)
Definition isBasicLand (card : Card) : bool :=
  match type card with
  | Some t => includes (lit "basic land") (toLowerCase t)
  | None => false
  end.

(** The body of [cards.forEach(card => ...)]. *)
Definition keepBest (bestVersionsByName : JsMap Card) (card : Card)
    : JsMap Card :=
  let cardName := toLowerCase (name card) in
  if isBasicLand card then
    if negb (mapHas cardName bestVersionsByName)
    then mapSet cardName card bestVersionsByName
    else bestVersionsByName
  else
    if negb (mapHas cardName bestVersionsByName)
       || isPrioritizedVersion card (mapGet cardName bestVersionsByName)
    then mapSet cardName card bestVersionsByName
    else bestVersionsByName.

(** [prioritizedCards] before the limit. *)
Definition prioritize (includeAllSets : bool) (query : jsstring)
    (cards : list Card) : list Card :=
  if includeAllSets then
    let exactMatch := List.find (sameName query) cards in
    let basicLandExactMatch :=
      List.find (fun card => sameName query card && isBasicLand card) cards in
    match basicLandExactMatch, exactMatch with
    | Some basic, _ =>
        basic :: List.filter (fun card => negb (strictEq (id card) (id basic))) cards
    | None, Some exact =>
        exact :: List.filter (fun card => negb (strictEq (id card) (id exact))) cards
    | None, None => cards
    end
  else
    let prioritizedCards := mapValues (fold_left keepBest cards []) in
    let exactMatch := List.find (sameName query) prioritizedCards in
    let closeMatches :=
      List.filter
        (fun card => includes (toLowerCase query) (toLowerCase (name card)))
        prioritizedCards in
    let basicLands :=
      List.filter (fun card => isBasicLand card && sameName query card)
        prioritizedCards in
    if 0 <? length basicLands then
      basicLands
      ++ List.filter
           (fun card =>
              negb (existsb (fun bl => strictEq (id bl) (id card)) basicLands))
           prioritizedCards
    else
      match exactMatch with
      | Some exact =>
          exact
          :: List.filter (fun card => negb (strictEq (id card) (id exact)))
               closeMatches
      | None =>
          if 0 <? length closeMatches then closeMatches else prioritizedCards
      end.

(** The handler of [GET /api/cards/search]. *)
Definition searchCards (query : SearchQuery) : SearchReply :=
  let q := match q query with Some s => s | None => [] end in
  if is_empty q || (length q <? 2) then Json []
  else
    let filters :=
      if include_all_sets query then None
      else match setFilter query with
           | Some s => if is_empty s then None else Some s
           | None => None
           end in
    match findCards q filters with
    | Rejected e => ServerError (lit "Error searching cards") (errorMessage e)
    | Fulfilled cards =>
        Json (firstn 10 (prioritize (include_all_sets query) q cards))
    end.

(** The handler of [GET /api/cards/enhanced-search]. *)
Definition enhancedSearch (query : option jsstring) : EnhancedReply :=
  match query with
  | None => BadRequest (lit "Search query must be at least 2 characters")
  | Some query =>
      if is_empty query || (length query <? 2)
      then BadRequest (lit "Search query must be at least 2 characters")
      else
        match findCards query None with
        | Rejected _ => Failed (lit "Failed to search cards")
        | Fulfilled cards =>
            if length cards <? 5 then
              match searchCardsWithGraphQL query with
              | Rejected _ => Failed (lit "Failed to search cards")
              | Fulfilled graphqlCards =>
                  let uniqueGraphqlCards :=
                    List.filter
                      (fun card =>
                         negb (existsb (fun c => strictEq (id c) (id card)) cards)
                         && negb (existsb
                                    (fun c => strictEq (toLowerCase (name c))
                                                (toLowerCase (name card)))
                                    cards))
                      graphqlCards in
                  Found (cards ++ uniqueGraphqlCards)
              end
            else Found cards
        end
  end.

End Handlers.

End Search.

(** ** The deck builder ([DeckBuilder]: [addCardToDeck], [removeCardFromDeck]) *)

Module Deck.

Inductive DeckSection := maindeck | sideboard | commander.

Definition sameSection (a b : DeckSection) : bool :=
  match a, b with
  | maindeck, maindeck | sideboard, sideboard | commander, commander => true
  | _, _ => false
  end.

Record Format := {
  name : string;
  minSize : Z;
  maxSize : Z;
  maxCopies : Z;
  requiresCommander : bool;
  allowsSideboard : bool
}.

Definition FORMATS : list (string * Format) :=
  [ ("Standard", {| name := "Standard"; minSize := 60; maxSize := 999; maxCopies := 4; requiresCommander := false; allowsSideboard := true |});
    ("Pioneer", {| name := "Pioneer"; minSize := 60; maxSize := 999; maxCopies := 4; requiresCommander := false; allowsSideboard := true |});
    ("Modern", {| name := "Modern"; minSize := 60; maxSize := 999; maxCopies := 4; requiresCommander := false; allowsSideboard := true |});
    ("Legacy", {| name := "Legacy"; minSize := 60; maxSize := 999; maxCopies := 4; requiresCommander := false; allowsSideboard := true |});
    ("Vintage", {| name := "Vintage"; minSize := 60; maxSize := 999; maxCopies := 4; requiresCommander := false; allowsSideboard := true |});
    ("Commander", {| name := "Commander"; minSize := 100; maxSize := 100; maxCopies := 1; requiresCommander := true; allowsSideboard := false |});
    ("Pauper", {| name := "Pauper"; minSize := 60; maxSize := 999; maxCopies := 4; requiresCommander := false; allowsSideboard := true |});
    ("Limited", {| name := "Limited"; minSize := 40; maxSize := 999; maxCopies := 999; requiresCommander := false; allowsSideboard := true |}) ]%string.

(** [array.findIndex(p)]: [None] stands for [-1]. *)
Fixpoint findIndex {A} (p : A -> bool) (array : list A) : option nat :=
  match array with
  | [] => None
  | a :: rest => if p a then Some 0 else option_map S (findIndex p rest)
  end.

Section Builder.

(** The card type of the client and its [id] field. *)
Variable MTGCard : Type.
Variable id : MTGCard -> jsstring.

(** [{...card, quantity, section}]. *)
Record DeckCard := {
  card : MTGCard;
  quantity : Z;
  section : DeckSection
}.

(** [dc => dc.id === cardId && dc.section === section]. *)
Definition isEntry (cardId : jsstring) (sec : DeckSection) (dc : DeckCard)
    : bool :=
  Search.strictEq (id (card dc)) cardId && sameSection (section dc) sec.

(** [addCardToDeck(card, section)]: the new value of [deckCards]. *)
Definition addCardToDeck (currentFormat : Format) (c : MTGCard)
    (sec : DeckSection) (deckCards : list DeckCard) : list DeckCard :=
  match findIndex (isEntry (id c) sec) deckCards with
  | Some existingCardIndex =>
      let maxCopies :=
        match sec with commander => 1%Z | _ => maxCopies currentFormat end in
      match deckCards !! existingCardIndex with
      | Some dc =>
          if (maxCopies <=? quantity dc)%Z then deckCards
          else <[existingCardIndex :=
                   {| card := card dc; quantity := quantity dc + 1;
                      section := section dc |}]> deckCards
      | None => deckCards
      end
  | None => deckCards ++ [{| card := c; quantity := 1; section := sec |}]
  end.

(** [removeCardFromDeck(cardId, section)]: the new value of [deckCards]. *)
Definition removeCardFromDeck (cardId : jsstring) (sec : DeckSection)
    (deckCards : list DeckCard) : list DeckCard :=
  match findIndex (isEntry cardId sec) deckCards with
  | Some existingCardIndex =>
      match deckCards !! existingCardIndex with
      | Some dc =>
          if (1 <? quantity dc)%Z
          then <[existingCardIndex :=
                   {| card := card dc; quantity := quantity dc - 1;
                      section := section dc |}]> deckCards
          else delete existingCardIndex deckCards
      | None => deckCards
      end
  | None => deckCards
  end.

End Builder.

Arguments card {MTGCard} d.
Arguments quantity {MTGCard} d.
Arguments section {MTGCard} d.

End Deck.

(** ** Vocabulary of the properties *)

Module Props.

(** [p] occurs in [s]. *)
Definition occursIn (p s : jsstring) : Prop := exists a b, s = a ++ p ++ b.

(** The whole of [s] matches [\d{3}\.\d+[a-z]*], the rule-number pattern of
    the source. *)
Definition isRuleNumber (s : jsstring) : bool :=
  match s with
  | d1 :: d2 :: d3 :: dot :: r =>
      is_digit d1 && is_digit d2 && is_digit d3 && is_dot dot
      && negb (is_empty (while is_digit r))
      && forallb is_lower (after is_digit r)
  | _ => false
  end.




(** The batches of the insert operations attempted so far, oldest first. *)
Fixpoint insertsOf (evs : list Event) : list (list RuleEntry) :=
  match evs with
  | [] => []
  | InsertRules batch :: evs' => insertsOf evs' ++ [batch]
  | _ :: evs' => insertsOf evs'
  end.

Definition isNetworkCall (ev : Event) : bool :=
  match ev with HttpGet _ => true | _ => false end.

Definition isUpsert (ev : Event) : bool :=
  match ev with UpsertMetadata _ => true | _ => false end.

Definition isRulesQuery (ev : Event) : bool :=
  match ev with SelectRules => true | _ => false end.

Definition isCardRefresh (ev : Event) : bool :=
  match ev with RefreshCards => true | _ => false end.


(** [w'] comes after [w]: the metadata row is the same, and the operations
    attempted in between all satisfy [ok]. *)
Definition quietly (ok : Event -> bool) (w w' : World) : Prop :=
  metadata w' = metadata w
  /\ exists evs, performed w' = evs ++ performed w /\ forallb ok evs = true.

(** A computation that only attempts operations satisfying [ok] and leaves
    the metadata row alone. *)
Definition frames (ok : Event -> bool) {A} (c : M A) : Prop :=
  forall env w, quietly ok w (snd (c env w)).

(** A computation whose loops are never cut short. *)
Definition fuelled {A} (c : M A) : Prop :=
  forall env w, fst (c env w) <> OutOfFuel.

(** A computation whose returned values all satisfy [P]. *)
Definition yields {A} (P : A -> Prop) (c : M A) : Prop :=
  forall env w a, fst (c env w) = Returned a -> P a.

(** The only promise [updateRulesFromWotc] ever returns is the download. *)
Definition promisesDownload (r : Updater.Returning) : Prop :=
  match r with
  | Updater.Promise settle => settle = Updater.download
  | Updater.Value _ => True
  end.

(** No error event of the write stream during this invocation. *)
Definition noStreamError (env : Env) : Prop :=
  match httpReply env with
  | Response _ _ (Some _) => False
  | _ => True
  end.

(** A computation from which, in [env], no exception escapes uncaught. *)
Definition caughtAt (env : Env) {A} (c : M A) : Prop :=
  forall w e, fst (c env w) <> Uncaught e.

Definition notUpsert (ev : Event) : bool := negb (isUpsert ev).

Definition isFileRead (ev : Event) : bool :=
  match ev with ReadFile _ => true | _ => false end.

(** The creation time of the most recently created rule record. *)
Fixpoint newestCreatedAt (rows : list RuleRow) : option Z :=
  match rows with
  | [] => None
  | row :: rows' =>
      match createdAt row, newestCreatedAt rows' with
      | Some t, Some u => Some (Z.max t u)
      | Some t, None => Some t
      | None, newest => newest
      end
  end.

(** A letter or white space: what a keyword is made of. *)
Definition isKeywordChar (c : N) : bool :=
  is_upper c || is_lower c || is_space c.

(** The age check of [updateRulesFromWotc] on the rows of the rules table:
    the age in milliseconds of the first row when it is under 7 days. *)
Definition checkedAge (nowMs : Z) (rows : list RuleRow) : option Z :=
  match rows with
  | row :: _ => Updater.updatedWithinWeek nowMs (createdAt row)
  | [] => None
  end.

(** The table of best versions: distinct keys, every card under its own
    lower-cased name, every card one of those seen. *)
Definition tidy (toLowerCase : jsstring -> jsstring) (seen : list Search.Card)
    (m : Search.JsMap Search.Card) : Prop :=
  NoDup (map fst m)
  /\ forall k v, In (k, v) m -> k = toLowerCase (Search.name v) /\ In v seen.

(** The copy limit of a section, the key of a deck entry, and a deck in
    good order: one entry per card and section, each with at least one copy
    and no more copies than the limit. *)
Definition copyLimit (currentFormat : Deck.Format) (sec : Deck.DeckSection) : Z :=
  match sec with
  | Deck.commander => 1%Z
  | _ => Deck.maxCopies currentFormat
  end.

Definition entryKey {MTGCard} (id : MTGCard -> jsstring)
    (dc : Deck.DeckCard MTGCard) : jsstring * Deck.DeckSection :=
  (id (Deck.card dc), Deck.section dc).

Definition inOrder {MTGCard} (id : MTGCard -> jsstring)
    (currentFormat : Deck.Format) (deck : list (Deck.DeckCard MTGCard)) : Prop :=
  NoDup (map (entryKey id) deck)
  /\ Forall (fun dc => (1 <= Deck.quantity dc
                             <= copyLimit currentFormat (Deck.section dc))%Z)
       deck.

(** What [getCardCount] returns when its query is the operation attempted
    after [k] earlier ones: the count, or 0 when the query fails or its reply
    holds no row. *)
Definition cardCount (env : Env) (k : nat) : Z :=
  match fault env k with
  | Some _ => 0%Z
  | None => match countReply env with Some c => c | None => 0%Z end
  end.

(** The world in which the rules refresh of [updateCardDatabase] ends, when
    the metadata query and the card refresh have gone through. *)
Definition rulesDone (env : Env) (w : World) : World :=
  snd (Updater.updateRulesFromWotc env
         (record RefreshCards (record SelectMetadata w))).

(** A computation that leaves the files alone, however it ends. *)
Definition keepsFiles {A} (c : M A) : Prop :=
  forall env w, files (snd (c env w)) = files w.

(** Every occurrence of ["Example:"] in [pre] is followed, inside [pre], by a
    full stop. *)
Definition examplesClosed (pre : jsstring) : Prop :=
  forall p1 p2, pre = p1 ++ lit "Example:" ++ p2 -> In 46%N p2.

End Props.

Import Props.

(** ** Sample inputs *)

Module Samples.

(** The end-to-end example of the specification. *)
Definition rulebook : jsstring :=
  lit "... 1. Game Concepts
100. General
100.1. These are the rules. Example: A player draws a card.
100.2. Something else happens here too today.".

Definition twoLetterRulebook : jsstring :=
  lit "1. Game Concepts 100. General 100.1ab. These are the rules.".

(** Rule bodies: an example with an abbreviation, an example inside the
    reach of an earlier ["Example:"], and an example whose removal joins
    two halves of another one. *)
Definition abbreviationBody : jsstring :=
  lit "These are the rules. Example: Mr. Smith draws a card.".
Definition nestedBody : jsstring := lit "Example: Example: X.".
Definition splicedBody : jsstring := lit "ExamExample: X.ple: X.".

Definition entryOf (body : jsstring) : RuleEntry :=
  createRuleEntry (lit "100.1") body (lit "Game Concepts") (lit "General").

Definition noFault (_ : nat) : option Error := None.

Definition emptyWorld : World :=
  {| rulesTable := []; metadata := None; files := ∅; directories := ∅;
     performed := [] |}.

Definition ruleRow (number : string) (created : Z) : RuleRow :=
  {| entry := createRuleEntry (lit number) (lit "These are the rules.")
                (lit "Game Concepts") (lit "General");
     createdAt := Some created |}.

(** Seven days and one second after the first rule record was created, and
    seven days less one second after the last one was: the download goes
    ahead, although the newest record is younger than seven days. *)
Definition staleHeadWorld : World :=
  {| rulesTable := [ruleRow "100.1" 0; ruleRow "100.2" 2000];
     metadata := None; files := ∅; directories := ∅; performed := [] |}.
Definition staleHeadEnv : Env :=
  {| now := 7 * Updater.msPerDay + 1000;
     fault := noFault;
     cardRefresh := Fulfilled {| success := true; message := lit "Cards updated" |};
     countReply := Some 0%Z;
     httpReply := Response 200 rulebook None |}.

(** The rules table is empty, the bundled rulebook is in place, and the
    download is answered with status 404. *)
Definition bundledWorld : World :=
  {| rulesTable := []; metadata := None;
     files := {[ Updater.localRulesFile := rulebook ]};
     directories := ∅; performed := [] |}.
Definition notFoundEnv : Env :=
  {| now := 0;
     fault := noFault;
     cardRefresh := Fulfilled {| success := true; message := lit "Cards updated" |};
     countReply := Some 0%Z;
     httpReply := Response 404 [] None |}.

(** The card refresh reports a failure; the rules were loaded 3 days ago. *)
Definition freshRulesWorld : World :=
  {| rulesTable := [ruleRow "100.1" 0];
     metadata := None; files := ∅; directories := ∅; performed := [] |}.
Definition cardsFailEnv : Env :=
  {| now := 3 * Updater.msPerDay;
     fault := noFault;
     cardRefresh :=
       Fulfilled {| success := false; message := lit "MTGJSON download failed" |};
     countReply := Some 0%Z;
     httpReply := Response 404 [] None |}.

(** The metadata row was written an hour ago. *)
Definition refreshedWorld : World :=
  {| rulesTable := [];
     metadata := Some {| Host.last_updated := Some 0%Z; total_cards := 100;
                         description := lit "Cards updated" |};
     files := ∅; directories := ∅; performed := [] |}.
Definition hourLaterEnv : Env :=
  {| now := Cron.msPerHour;
     fault := noFault;
     cardRefresh := Fulfilled {| success := true; message := lit "Cards updated" |};
     countReply := Some 100%Z;
     httpReply := Response 404 [] None |}.

(** A rulebook of [n] rule entries after the anchor, in a file. *)
Definition longRulebook (n : nat) : jsstring :=
  anchor ++ lit " 100. General "
  ++ concat (repeat (lit "100.1. These are the rules. ") n).
Definition rulebookWorld (n : nat) : World :=
  {| rulesTable := [ruleRow "100.1" 0]; metadata := None;
     files := {[ Updater.localRulesFile := longRulebook n ]};
     directories := ∅; performed := [] |}.

(** A file without the anchor. *)
Definition unanchoredWorld : World :=
  {| rulesTable := [ruleRow "100.1" 0; ruleRow "100.2" 0]; metadata := None;
     files := {[ Updater.localRulesFile := lit "100.1. These are the rules." ]};
     directories := ∅; performed := [] |}.

(** One request with a question and no cards, and one without a question. *)
Definition plainQuestion : Routes.AskBody :=
  {| Routes.question := Some (Routes.Text (lit "Does it resolve?"));
     Routes.cardId := None; Routes.cardIds := None |}.
Definition noQuestion : Routes.AskBody :=
  {| Routes.question := None; Routes.cardId := None; Routes.cardIds := None |}.

(** A history of ten messages. *)
Definition longHistory : list Routes.Message :=
  repeat {| Routes.role := lit "user";
            Routes.content := Routes.Other true (lit "42") |} 10.

Definition noCard (_ : Routes.Value) : Settled (option unit) := Fulfilled None.
Definition rulingFails (_ : Routes.Value) (_ : option unit)
    (_ : list Routes.Message) (_ : list unit) : Settled jsstring :=
  Rejected {| errorMessage := lit "service unavailable" |}.
Definition rulingAnswers (_ : Routes.Value) (_ : option unit)
    (_ : list Routes.Message) (_ : list unit) : Settled jsstring :=
  Fulfilled (lit "Yes, it resolves.").

(** The download is answered with the rulebook at time 0. *)
Definition downloadEnv : Env :=
  {| now := 0;
     fault := noFault;
     cardRefresh := Fulfilled {| success := true; message := lit "Cards updated" |};
     countReply := Some 0%Z;
     httpReply := Response 200 rulebook None |}.

(** Lower-casing of the ASCII letters, and a card shelf: two printings of
    Lightning Bolt, a card whose name contains "bolt", a basic land and a
    card of another name. *)
Definition asciiLower (s : jsstring) : jsstring :=
  map (fun c => if is_upper c then (c + 32)%N else c) s.

Definition card (cardId cardName cardType image code : string) : Search.Card :=
  {| Search.id := lit cardId;
     Search.name := lit cardName;
     Search.type := Some (lit cardType);
     Search.imageUrl := Some (lit image);
     Search.set := Some (lit code) |}.

Definition shelf : list Search.Card :=
  [ card "c1" "Boltwing Marauder" "Creature" "https://img/c1" "DTK";
    card "c2" "Lightning Bolt" "Instant" "" "LEA";
    card "c3" "Lightning Bolt" "Instant" "https://img/c3" "STX";
    card "c4" "Forest" "Basic Land - Forest" "https://img/c4" "MKM";
    card "c5" "Shock" "Instant" "https://img/c5" "MOM" ].

Definition storage (_ : jsstring) (_ : option jsstring)
    : Settled (list Search.Card) := Fulfilled shelf.

Definition scarceStorage (_ : jsstring) (_ : option jsstring)
    : Settled (list Search.Card) :=
  Fulfilled
    [ card "c2" "Lightning Bolt" "Instant" "" "LEA";
      card "c5" "Shock" "Instant" "https://img/c5" "MOM" ].

Definition graphql (_ : jsstring) : Settled (list Search.Card) :=
  Fulfilled
    [ card "c3" "Lightning Bolt" "Instant" "https://img/c3" "STX";
      card "g1" "SHOCK" "Instant" "https://img/g1" "TDM";
      card "g2" "Bolt Bend" "Instant" "https://img/g2" "WAR" ].

Definition boltQuery : Search.SearchQuery :=
  {| Search.q := Some (lit "lightning bolt");
     Search.include_all_sets := false;
     Search.setFilter := None |}.

(** A deck of client cards, which are their ids here: three copies of
    one card and a commander. *)
Definition standard : Deck.Format :=
  {| Deck.name := "Standard"; Deck.minSize := 60; Deck.maxSize := 999;
     Deck.maxCopies := 4; Deck.requiresCommander := false;
     Deck.allowsSideboard := true |}.

Definition deckOfTwo : list (Deck.DeckCard jsstring) :=
  [ {| Deck.card := lit "c2"; Deck.quantity := 3; Deck.section := Deck.maindeck |};
    {| Deck.card := lit "c9"; Deck.quantity := 1; Deck.section := Deck.commander |} ].

(** The card refresh rejects. *)
Definition cardsRejectEnv : Env :=
  {| now := 0;
     fault := noFault;
     cardRefresh := Rejected {| errorMessage := lit "MTGJSON unreachable" |};
     countReply := Some 0%Z;
     httpReply := Response 200 rulebook None |}.

(** The operation attempted after [k] earlier ones loses its connection. *)
Definition connectionLost : Error := {| errorMessage := lit "connection lost" |}.
Definition failingAt (k : nat) (reply : HttpReply) : Env :=
  {| now := 5000;
     fault := fun n => if n =? k then Some connectionLost else None;
     cardRefresh := Fulfilled {| success := true; message := lit "Cards updated" |};
     countReply := Some 7%Z;
     httpReply := reply |}.

End Samples.

(** * Properties *)

(** ** Strings *)

Section StringFacts.

Implicit Types (s p a b : jsstring) (f : N -> bool).

Lemma while_after f s : while f s ++ after f s = s.
Proof.
  induction s as [|c r IH]; simpl; [reflexivity|].
  destruct (f c); simpl; [now rewrite IH | reflexivity].
Qed.

Lemma while_all f s : forallb f (while f s) = true.
Proof.
  induction s as [|c r IH]; simpl; [reflexivity|].
  destruct (f c) eqn:E; simpl; [now rewrite E | reflexivity].
Qed.

Lemma after_head f s c r : after f s = c :: r -> f c = false.
Proof.
  induction s as [|d t IH]; simpl; [discriminate|].
  destruct (f d) eqn:E; [exact IH|].
  intros [= -> _]. exact E.
Qed.

Lemma while_app f a b :
  forallb f a = true ->
  while f (a ++ b) = a ++ while f b.
Proof.
  induction a as [|c r IH]; simpl; [reflexivity|].
  intros H. apply andb_prop in H as [Hc Hr]. now rewrite Hc, IH.
Qed.

Lemma after_app f a b :
  forallb f a = true ->
  after f (a ++ b) = after f b.
Proof.
  induction a as [|c r IH]; simpl; [reflexivity|].
  intros H. apply andb_prop in H as [Hc Hr]. now rewrite Hc, IH.
Qed.

Lemma while_stop f c r : f c = false -> while f (c :: r) = [].
Proof. intros H. simpl. now rewrite H. Qed.

Lemma after_stop f c r : f c = false -> after f (c :: r) = c :: r.
Proof. intros H. simpl. now rewrite H. Qed.

Lemma startsWith_app p s : startsWith p (p ++ s) = true.
Proof.
  induction p as [|c r IH]; simpl; [reflexivity|].
  now rewrite N.eqb_refl, IH.
Qed.

Lemma startsWith_inv p s : startsWith p s = true -> exists r, s = p ++ r.
Proof.
  revert s. induction p as [|c p' IH]; intros s H; simpl in *.
  - now exists s.
  - destruct s as [|d s']; [discriminate|].
    apply andb_prop in H as [Hc Hr].
    apply N.eqb_eq in Hc as ->.
    destruct (IH _ Hr) as [r ->]. now exists r.
Qed.

Lemma indexOf_found p s i :
  indexOf p s = Some i -> exists a b, s = a ++ p ++ b /\ length a = i.
Proof.
  revert i. induction s as [|c r IH]; intros i; simpl.
  - destruct (startsWith p []) eqn:E; [|discriminate].
    intros [= <-]. apply startsWith_inv in E as [t E]. now exists [], t.
  - destruct (startsWith p (c :: r)) eqn:E.
    + intros [= <-]. apply startsWith_inv in E as [t E]. now exists [], t.
    + destruct (indexOf p r) as [j|]; simpl; [|discriminate].
      intros [= <-]. destruct (IH j eq_refl) as (a & b & -> & Hl).
      exists (c :: a), b. simpl. now rewrite Hl.
Qed.

Lemma indexOf_absent p s : indexOf p s = None -> ~ occursIn p s.
Proof.
  induction s as [|c r IH]; simpl.
  - destruct (startsWith p []) eqn:E; [discriminate|].
    intros _ (a & b & H). destruct a; [|discriminate].
    simpl in H. rewrite H, startsWith_app in E. discriminate.
  - destruct (startsWith p (c :: r)) eqn:E; [discriminate|].
    destruct (indexOf p r) eqn:Er; simpl; [discriminate|].
    intros _ (a & b & H). destruct a as [|d a].
    + simpl in H. rewrite H, startsWith_app in E. discriminate.
    + injection H as -> ->. apply IH; [reflexivity|]. now exists a, b.
Qed.

Lemma indexOf_start p s : startsWith p s = true -> indexOf p s = Some 0.
Proof. intros H. destruct s; simpl; now rewrite H. Qed.

Lemma indexOf_present p s : occursIn p s -> indexOf p s <> None.
Proof.
  intros (a & b & ->). induction a as [|c a IH]; simpl.
  - rewrite indexOf_start; [discriminate | apply startsWith_app].
  - destruct (startsWith p (c :: a ++ p ++ b)); [discriminate|].
    destruct (indexOf p (a ++ p ++ b)); [discriminate | contradiction].
Qed.

End StringFacts.

(** ** The parser *)

Section ParserFacts.

Implicit Types (s p a b : jsstring) (f : N -> bool).

Lemma while_app_split f a b :
  while f (a ++ b) = if is_empty (after f a) then a ++ while f b else while f a.
Proof.
  induction a as [|c r IH]; simpl; [reflexivity|].
  destruct (f c); simpl; [|reflexivity].
  rewrite IH. now destruct (is_empty (after f r)).
Qed.

Lemma after_app_split f a b :
  after f (a ++ b) = if is_empty (after f a) then after f b else after f a ++ b.
Proof.
  induction a as [|c r IH]; simpl; [reflexivity|].
  destruct (f c); simpl; [exact IH | reflexivity].
Qed.

Lemma after_keeps f g s : forallb f s = true -> forallb f (after g s) = true.
Proof.
  induction s as [|c r IH]; simpl; [reflexivity|].
  intros H. destruct (g c); simpl; [|exact H].
  apply andb_prop in H as [_ H]. now apply IH.
Qed.



Lemma execAll_Forall {A} (m : option N -> jsstring -> option (nat * A))
    (P : A -> Prop) :
  (forall q s n x, m q s = Some (n, x) -> P x) ->
  forall s k q, Forall P (execAll m k q s).
Proof.
  intros Hm. induction s as [|c r IH]; intros k q; simpl; [constructor|].
  destruct k; [|apply IH].
  destruct (m q (c :: r)) as [[n x]|] eqn:E; [|apply IH].
  constructor; [eapply Hm; eassumption | apply IH].
Qed.

(** A captured rule number has the shape of the pattern. *)
Lemma ruleNumberAt_shape s num rest :
  ruleNumberAt s = Some (num, rest) -> isRuleNumber num = true.
Proof.
  unfold ruleNumberAt, isRuleNumber.
  destruct s as [|d1 [|d2 [|d3 [|dot r]]]]; try discriminate.
  destruct (is_digit d1 && is_digit d2 && is_digit d3 && is_dot dot) eqn:E;
    [|discriminate].
  destruct (is_empty (while is_digit r)) eqn:Ed; [discriminate|].
  intros [= <- <-]. rewrite E. simpl.
  assert (Hl : forall t, after is_digit (while is_lower t) = while is_lower t).
  { intros [|c t]; simpl; [reflexivity|].
    destruct (is_lower c) eqn:El; [|reflexivity].
    apply after_stop. unfold is_lower, is_digit in *.
    apply andb_prop in El as [El _]. apply N.leb_le in El.
    apply andb_false_iff. right. apply N.leb_gt. lia. }
  rewrite while_app, after_app by apply while_all.
  rewrite Hl, while_all, andb_true_r.
  destruct (while is_lower (after is_digit r)) as [|c t] eqn:Ew.
  - rewrite app_nil_r, Ed. reflexivity.
  - assert (Hc : is_digit c = false).
    { specialize (Hl (after is_digit r)). rewrite Ew in Hl.
      destruct (is_digit c) eqn:Ec; [|reflexivity].
      simpl in Hl. rewrite Ec in Hl.
      assert (Hlen : length (after is_digit t) = length (c :: t)) by now rewrite Hl.
      exfalso. clear - Hlen.
      assert (length (after is_digit t) <= length t).
      { rewrite <- (while_after is_digit t) at 2. rewrite length_app. lia. }
      simpl in Hlen. lia. }
    rewrite while_stop by exact Hc. rewrite app_nil_r, Ed. reflexivity.
Qed.

Lemma ruleAt_shape q s n num body :
  ruleAt q s = Some (n, (num, body)) -> isRuleNumber num = true.
Proof.
  unfold ruleAt. destruct (ruleNumberAt s) as [[num' [|c r]]|] eqn:E;
    try discriminate.
  destruct (is_dot c); [|discriminate].
  destruct (is_empty (while is_space r)); [discriminate|].
  destruct (ruleAhead _); [|discriminate].
  intros [= _ <- _]. eapply ruleNumberAt_shape; eassumption.
Qed.

Lemma createRuleEntry_number n t c x : ruleNumber (createRuleEntry n t c x) = n.
Proof. reflexivity. Qed.

Lemma collectRules_numbers chapters sections ms :
  Forall (fun m => isRuleNumber (fst m) = true) ms ->
  forall c x,
    Forall (fun r => isRuleNumber (ruleNumber r) = true)
      (collectRules chapters sections c x ms).
Proof.
  induction 1 as [|[num body] ms Hm _ IH]; intros c x; simpl; [constructor|].
  destruct (10 <? length (trim body)); [|apply IH].
  constructor; [exact Hm | apply IH].
Qed.

Lemma parse_numbers rulesText :
  Forall (fun r => isRuleNumber (ruleNumber r) = true)
    (parseComprehensiveRules rulesText).
Proof.
  unfold parseComprehensiveRules.
  destruct (indexOf anchor rulesText) as [startIndex|]; [|constructor].
  apply collectRules_numbers, execAll_Forall.
  intros q s n [num body] H. eapply ruleAt_shape; eassumption.
Qed.

End ParserFacts.

Section ParserEntries.

Implicit Types (s num sp body tail mid pre : jsstring).






End ParserEntries.

(** *** A rule entry is found wherever it stands *)

Section ParserReach.

Implicit Types (s a E num sp body tail : jsstring).

Ltac charclass :=
  unfold non_digit, non_dot, is_dot, is_digit, is_lower, is_upper, is_space in *;
  rewrite ?negb_true_iff, ?negb_false_iff in *;
  rewrite ?orb_false_iff, ?andb_false_iff, ?andb_true_iff, ?N.leb_le,
    ?N.leb_gt, ?N.eqb_eq, ?N.eqb_neq in *;
  lia.

Lemma digit_not_dot c : is_digit c = true -> is_dot c = false.
Proof. intros H. charclass. Qed.

Lemma while_after_length f s :
  length s = length (while f s) + length (after f s).
Proof. rewrite <- (while_after f s) at 1. apply length_app. Qed.

Lemma while_app_nil f a b : after f a = [] -> while f (a ++ b) = a ++ while f b.
Proof. intros H. now rewrite while_app_split, H. Qed.
Lemma after_app_nil f a b : after f a = [] -> after f (a ++ b) = after f b.
Proof. intros H. now rewrite after_app_split, H. Qed.
Lemma while_app_cons f a b c r :
  after f a = c :: r -> while f (a ++ b) = while f a.
Proof. intros H. now rewrite while_app_split, H. Qed.
Lemma after_app_cons f a b c r :
  after f a = c :: r -> after f (a ++ b) = (c :: r) ++ b.
Proof. intros H. now rewrite after_app_split, H. Qed.







End ParserReach.

(** C8.  A rulebook text in which the anchor string ["1. Game Concepts"]
    does not occur parses to the empty sequence of rule records.  The parser
    is a total function: there is no error outcome. *)
Theorem parse_without_anchor (rulesText : jsstring) :
  ~ occursIn anchor rulesText ->
  parseComprehensiveRules rulesText = [].
Proof.
  intros H. unfold parseComprehensiveRules.
  destruct (indexOf anchor rulesText) as [i|] eqn:E; [|reflexivity].
  exfalso. apply H. apply indexOf_found in E as (a & b & -> & _).
  now exists a, b.
Qed.

Lemma parse_without_anchor_witness :
  parseComprehensiveRules (lit "100.1. These are the rules of the game.") = [].
Proof.
  apply parse_without_anchor. apply indexOf_absent. reflexivity.
Defined.

(** *** The matchers consume input, and the fuel of [keywordTail] is enough *)

Section MatcherFacts.

Implicit Types (s : jsstring) (q : option N).

Lemma ruleAt_consumes q s n x : ruleAt q s = Some (n, x) -> 1 <= n.
Proof.
  unfold ruleAt. destruct (ruleNumberAt s) as [[num [|c r]]|]; try discriminate.
  destruct (is_dot c); [|discriminate].
  destruct (is_empty (while is_space r)); [discriminate|].
  destruct (ruleAhead _); [|discriminate].
  intros [= <- _]. lia.
Qed.

Lemma titleAt_consumes ahead s n t : titleAt ahead s = Some (n, t) -> 1 <= n.
Proof.
  unfold titleAt. destruct s as [|dot r]; [discriminate|].
  destruct (is_dot dot); [|discriminate].
  destruct (is_empty (while is_space r)); [discriminate|].
  destruct (after is_space r) as [|c r1]; [discriminate|].
  destruct (is_upper c); [|discriminate].
  destruct (ahead _); [|discriminate].
  intros [= <- _]. lia.
Qed.

Lemma chapterAt_consumes q s n x : chapterAt q s = Some (n, x) -> 1 <= n.
Proof.
  unfold chapterAt. destruct (is_empty (while is_digit s)); [discriminate|].
  destruct (titleAt chapterAhead (after is_digit s)) as [[m t]|] eqn:E;
    [|discriminate].
  apply titleAt_consumes in E. intros [= <- _]. lia.
Qed.

Lemma sectionAt_consumes q s n x : sectionAt q s = Some (n, x) -> 1 <= n.
Proof.
  unfold sectionAt. destruct s as [|d1 [|d2 [|d3 r]]]; try discriminate.
  destruct (is_digit d1 && is_digit d2 && is_digit d3); [|discriminate].
  destruct (titleAt sectionAhead r) as [[m t]|]; [|discriminate].
  intros [= <- _]. lia.
Qed.

Lemma exampleAt_consumes s n x : exampleAt s = Some (n, x) -> 1 <= n.
Proof.
  unfold exampleAt. destruct (startsWith (lit "Example:") s); [|discriminate].
  destruct (after non_dot _); [discriminate|].
  intros [= <- _]. lia.
Qed.

Lemma keywordAt_consumes q s n x : keywordAt q s = Some (n, x) -> 1 <= n.
Proof.
  unfold keywordAt.
  destruct (match q with Some p => negb (is_word p) | None => true end);
    [|discriminate].
  destruct (capitalAt s) as [w|] eqn:E; [|discriminate].
  destruct (keywordTail (length s) (skipn w s)) as [m|]; [|discriminate].
  intros [= <- _]. unfold capitalAt in E. destruct s as [|c r]; [discriminate|].
  destruct (is_upper c && negb (is_empty (while is_lower r))); [|discriminate].
  injection E as <-. lia.
Qed.

Lemma after_shorter f s : length (after f s) <= length s.
Proof. rewrite (while_after_length f s). lia. Qed.

Lemma after_strictly_shorter f s :
  is_empty (while f s) = false -> length (after f s) < length s.
Proof.
  intros H. rewrite (while_after_length f s).
  destruct (while f s); [discriminate | simpl; lia].
Qed.

(** Any fuel that covers the length of the text gives the same result. *)
Lemma keywordTail_fuel :
  forall fuel1 fuel2 s,
    length s <= fuel1 -> length s <= fuel2 ->
    keywordTail fuel1 s = keywordTail fuel2 s.
Proof.
  induction fuel1 as [|f1 IH]; intros fuel2 s H1 H2.
  - destruct s; [|simpl in H1; lia]. destruct fuel2; reflexivity.
  - destruct fuel2 as [|f2].
    + destruct s; [reflexivity | simpl in H2; lia].
    + simpl. destruct (is_empty (while is_space s)) eqn:Ew; [reflexivity|].
      destruct (capitalAt (after is_space s)) as [w|]; [|reflexivity].
      pose proof (after_strictly_shorter is_space s Ew) as Hs.
      pose proof (length_skipn w (after is_space s)) as Hk.
      rewrite (IH f2); [reflexivity | lia | lia].
Qed.

End MatcherFacts.

(** The end-to-end example of the specification: two records, [100.1] with
    one example and [100.2] with none. *)
Example rulebook_parses :
  map (fun r => (ruleNumber r, text r, examples r))
    (parseComprehensiveRules Samples.rulebook)
  = [ (lit "100.1", lit "These are the rules.", [lit "A player draws a card."]);
      (lit "100.2", lit "Something else happens here too today.", []) ].
Proof. vm_compute. reflexivity. Qed.

(** ** Examples of a rule *)

Section ExampleFacts.

Implicit Types (s pre post y p : jsstring).

Lemma exampleAt_occurrence y post :
  forallb non_dot y = true ->
  exampleAt (lit "Example:" ++ y ++ 46%N :: post)
  = Some (8 + length y + 1, trimStart y ++ [46%N]).
Proof.
  intros Hy. unfold exampleAt, trimStart.
  rewrite startsWith_app.
  change (skipn 8 (lit "Example:" ++ y ++ 46%N :: post)) with (y ++ 46%N :: post).
  pose proof (while_after_length is_space y) as Ll.
  destruct (after is_space y) as [|c t] eqn:Ey.
  - rewrite (while_app_nil _ _ _ Ey), (after_app_nil _ _ _ Ey).
    change (after is_space (46%N :: post)) with (46%N :: post).
    change (while is_space (46%N :: post)) with (@nil N).
    change (while non_dot (46%N :: post)) with (@nil N).
    change (after non_dot (46%N :: post)) with (46%N :: post).
    f_equal. f_equal. rewrite length_app. simpl in *. lia.
  - rewrite (while_app_cons _ _ _ _ _ Ey), (after_app_cons _ _ _ _ _ Ey).
    assert (Hct : forallb non_dot (c :: t) = true).
    { rewrite <- Ey. now apply after_keeps. }
    rewrite (while_app non_dot (c :: t)), (after_app non_dot (c :: t)) by exact Hct.
    change (while non_dot (46%N :: post)) with (@nil N).
    change (after non_dot (46%N :: post)) with (46%N :: post).
    rewrite app_nil_r. f_equal. f_equal. simpl in *. lia.
Qed.

Lemma trim_capture y : trim (trimStart y ++ [46%N]) = trimStart y ++ [46%N].
Proof.
  unfold trim, trimEnd, trimStart.
  assert (H : after is_space (after is_space y ++ [46%N])
              = after is_space y ++ [46%N]).
  { destruct (after is_space y) as [|c t] eqn:E; [reflexivity|].
    apply after_head in E. simpl. now rewrite E. }
  rewrite H, rev_app_distr. simpl. now rewrite rev_involutive.
Qed.

(** No occurrence of ["Example:"] straddles the start of another one. *)
Lemma startsWith_no_straddle p s :
  p <> [] ->
  startsWith (lit "Example:") (p ++ 69%N :: s) = true ->
  startsWith (lit "Example:") p = true.
Proof.
  intros Hp. change (lit "Example:") with [69; 120; 97; 109; 112; 108; 101; 58]%N.
  destruct p as [|c1 [|c2 [|c3 [|c4 [|c5 [|c6 [|c7 [|c8 p]]]]]]]];
    [contradiction|..]; simpl; intros H;
    repeat (apply andb_prop in H as [? H]); try discriminate.
  repeat (apply andb_true_intro; split); assumption.
Qed.

Lemma examplesClosed_tail c p : examplesClosed (c :: p) -> examplesClosed p.
Proof. intros H p1 p2 ->. apply (H (c :: p1) p2). reflexivity. Qed.

Lemma has_dot_split p :
  In 46%N p -> exists y r, p = y ++ 46%N :: r /\ forallb non_dot y = true.
Proof.
  intros Hin. exists (while non_dot p).
  pose proof (while_after non_dot p) as Hp.
  destruct (after non_dot p) as [|d r] eqn:E.
  - exfalso. rewrite app_nil_r in Hp. rewrite <- Hp in Hin.
    pose proof (while_all non_dot p) as Hall.
    rewrite forallb_forall in Hall. specialize (Hall _ Hin). discriminate.
  - exists r. apply after_head in E.
    unfold non_dot, is_dot in E. apply negb_false_iff, N.eqb_eq in E. subst d.
    split; [now rewrite Hp | apply while_all].
Qed.

(** Inside a closed prefix, the pattern matches with or without what
    follows, and a match ends inside the prefix and leaves a closed rest. *)
Lemma exampleAt_closed p s :
  p <> [] ->
  examplesClosed p ->
  exampleAt (p ++ 69%N :: s) = exampleAt p
  /\ forall n x, exampleAt p = Some (n, x) ->
       1 <= n <= length p /\ examplesClosed (skipn n p).
Proof.
  intros Hp Hc.
  destruct (startsWith (lit "Example:") p) eqn:Es.
  - apply startsWith_inv in Es as [p2 ->].
    destruct (has_dot_split p2 (Hc [] p2 eq_refl)) as (y & r & -> & Hy).
    rewrite <- !app_assoc. simpl app at 3. simpl app at 5.
    rewrite !exampleAt_occurrence by exact Hy. split; [reflexivity|].
    intros n x [= <- _].
    split; [rewrite !length_app; simpl length; lia|].
    replace (lit "Example:" ++ y ++ 46%N :: r)
      with ((lit "Example:" ++ y ++ [46%N]) ++ r)
      by (rewrite <- !app_assoc; reflexivity).
    rewrite drop_app_length' by (rewrite !length_app; simpl; lia).
    intros p1 p2 ->.
    apply (Hc (lit "Example:" ++ y ++ [46%N] ++ p1) p2).
    rewrite <- !app_assoc. reflexivity.
  - assert (Hn : exampleAt p = None) by (unfold exampleAt; now rewrite Es).
    rewrite Hn. split; [|discriminate].
    unfold exampleAt.
    destruct (startsWith (lit "Example:") (p ++ 69%N :: s)) eqn:Es'; [|reflexivity].
    apply startsWith_no_straddle in Es'; [congruence | exact Hp].
Qed.

Lemma findExamples_reaches s :
  forall pre k q, k <= length pre -> examplesClosed (skipn k pre) ->
    exists found,
      execAll (fun _ t => exampleAt t) k q (pre ++ 69%N :: s)
      = found ++ execAll (fun _ t => exampleAt t) 0 None (69%N :: s).
Proof.
  induction pre as [|c r IH]; intros k q Hk Hc.
  - simpl in Hk. assert (k = 0) as -> by lia. exists []. reflexivity.
  - destruct k as [|k].
    + simpl skipn in Hc.
      destruct (exampleAt_closed (c :: r) s ltac:(discriminate) Hc) as [He Hn].
      simpl app. simpl execAll. simpl app in He. rewrite He.
      destruct (exampleAt (c :: r)) as [[n x]|] eqn:E.
      * destruct (Hn n x eq_refl) as [Hlen Hc'].
        destruct n as [|n]; [lia|]. simpl pred. simpl in Hlen, Hc'.
        destruct (IH n (Some c)) as [found Hf]; [lia | exact Hc' |].
        exists (x :: found). now rewrite Hf.
      * apply IH; [lia | now apply examplesClosed_tail in Hc].
    + simpl. apply IH; [simpl in Hk; lia | exact Hc].
Qed.

Lemma execAll_cons {A} (m : option N -> jsstring -> option (nat * A)) q c r :
  execAll m 0 q (c :: r)
  = match m q (c :: r) with
    | Some (n, a) => a :: execAll m (pred n) (Some c) r
    | None => execAll m 0 (Some c) r
    end.
Proof. reflexivity. Qed.

Lemma removeAll_cons m c r :
  removeAll m 0 (c :: r)
  = match m (c :: r) with
    | Some n => removeAll m (pred n) r
    | None => c :: removeAll m 0 r
    end.
Proof. reflexivity. Qed.

Lemma removeAll_reaches s :
  forall pre k, k <= length pre -> examplesClosed (skipn k pre) ->
    removeAll exampleLen k (pre ++ 69%N :: s)
    = removeAll exampleLen k pre ++ removeAll exampleLen 0 (69%N :: s).
Proof.
  induction pre as [|c r IH]; intros k Hk Hc.
  - simpl in Hk. assert (k = 0) as -> by lia. reflexivity.
  - destruct k as [|k].
    + simpl skipn in Hc.
      destruct (exampleAt_closed (c :: r) s ltac:(discriminate) Hc) as [He Hn].
      change ((c :: r) ++ 69%N :: s) with (c :: r ++ 69%N :: s) in *.
      rewrite (removeAll_cons _ c (r ++ 69%N :: s)), (removeAll_cons _ c r).
      assert (Hl : exampleLen (c :: r ++ 69%N :: s) = exampleLen (c :: r))
        by (unfold exampleLen; now rewrite He).
      assert (Hv : exampleLen (c :: r) = option_map fst (exampleAt (c :: r)))
        by reflexivity.
      rewrite Hl, Hv.
      destruct (exampleAt (c :: r)) as [[n x]|] eqn:E; simpl option_map; cbv iota.
      * destruct (Hn n x eq_refl) as [Hlen Hc'].
        destruct n as [|n]; [lia|]. simpl pred. simpl in Hlen, Hc'.
        apply IH; [lia | exact Hc'].
      * rewrite <- app_comm_cons. f_equal.
        apply IH; [lia | now apply examplesClosed_tail in Hc].
    + simpl. apply IH; [simpl in Hk; lia | exact Hc].
Qed.

Lemma removeAll_skip m a b k :
  k = length a -> removeAll m k (a ++ b) = removeAll m 0 b.
Proof.
  intros ->. induction a as [|c a IH]; simpl; [|exact IH].
  destruct b; reflexivity.
Qed.

Lemma example_found pre y post :
  examplesClosed pre ->
  forallb non_dot y = true ->
  In (trimStart y ++ [46%N])
     (map trim (findExamples (pre ++ lit "Example:" ++ y ++ 46%N :: post))).
Proof.
  intros Hc Hy. unfold findExamples.
  destruct (findExamples_reaches (lit "xample:" ++ y ++ 46%N :: post) pre 0 None)
    as [found Hf]; [lia | exact Hc |].
  change (lit "Example:" ++ y ++ 46%N :: post)
    with (69%N :: lit "xample:" ++ y ++ 46%N :: post).
  rewrite Hf, execAll_cons.
  change (69%N :: lit "xample:" ++ y ++ 46%N :: post)
    with (lit "Example:" ++ y ++ 46%N :: post).
  rewrite exampleAt_occurrence by exact Hy.
  rewrite map_app. apply in_or_app. right. simpl map. left. apply trim_capture.
Qed.

Lemma example_removed pre y post :
  examplesClosed pre ->
  forallb non_dot y = true ->
  removeExamples (pre ++ lit "Example:" ++ y ++ 46%N :: post)
  = removeExamples pre ++ removeExamples post.
Proof.
  intros Hc Hy. unfold removeExamples.
  change (lit "Example:" ++ y ++ 46%N :: post)
    with (69%N :: lit "xample:" ++ y ++ 46%N :: post).
  rewrite removeAll_reaches by (simpl; first [lia | exact Hc]).
  f_equal. rewrite removeAll_cons. unfold exampleLen at 1.
  change (69%N :: lit "xample:" ++ y ++ 46%N :: post)
    with (lit "Example:" ++ y ++ 46%N :: post).
  rewrite exampleAt_occurrence by exact Hy. simpl option_map. cbv iota.
  replace (lit "xample:" ++ y ++ 46%N :: post)
    with ((lit "xample:" ++ y ++ [46%N]) ++ post)
    by (rewrite <- !app_assoc; reflexivity).
  apply removeAll_skip. rewrite !length_app. simpl. lia.
Qed.

End ExampleFacts.

Lemma forallb_weaken (f g : N -> bool) (l : jsstring) :
  (forall c, f c = true -> g c = true) ->
  forallb f l = true -> forallb g l = true.
Proof.
  intros Hfg. induction l as [|c l IH]; simpl; [reflexivity|].
  intros H. apply andb_prop in H as [Hc Hl]. now rewrite (Hfg _ Hc), IH.
Qed.

Lemma examplesClosed_absent pre :
  indexOf (lit "Example:") pre = None -> examplesClosed pre.
Proof.
  intros H p1 p2 E. exfalso. apply (indexOf_absent _ _ H). now exists p1, p2.
Qed.

(** C6, as stated, fails.  (1) [Example: Mr. Smith draws a card.] occurs in
    the body, but the example recorded is [Mr.] only: the capture ends at the
    first full stop.  (2) [Example: X.] occurs in the body, but inside the
    reach of an earlier [Example:], and [X.] is not an element of the
    examples.  (3) [Example: X.] occurs in the body and is removed, yet the
    text of the record is again [Example: X.]. *)
Lemma example_claim_fails :
  (occursIn (lit "Example: Mr. Smith draws a card.") Samples.abbreviationBody
   /\ examples (Samples.entryOf Samples.abbreviationBody) = [lit "Mr."])
  /\ (occursIn (lit "Example: X.") Samples.nestedBody
      /\ examples (Samples.entryOf Samples.nestedBody) = [lit "Example: X."])
  /\ (occursIn (lit "Example: X.") Samples.splicedBody
      /\ text (Samples.entryOf Samples.splicedBody) = lit "Example: X.").
Proof.
  split; [split | split; split].
  - exists (lit "These are the rules. "), []. reflexivity.
  - vm_compute. reflexivity.
  - exists (lit "Example: "), []. reflexivity.
  - vm_compute. reflexivity.
  - exists (lit "Exam"), (lit "ple: X."). reflexivity.
  - vm_compute. reflexivity.
Qed.

(** C6, amended.  Let a rule body be [pre ++ "Example:" ++ sp ++ X ++ "." ++
    post], where [sp] is white space, [X] contains no full stop and does not
    begin with white space, and every earlier ["Example:"] in [pre] is closed
    by a full stop inside [pre].  Then [X.] is an element of the examples of
    the record, and the text of the record is the body with this occurrence
    cut out: the trimmed concatenation of [pre] and [post], each with its own
    examples removed. *)
Theorem example_extracted (number chapter section pre sp X post : jsstring) :
  examplesClosed pre ->
  forallb is_space sp = true ->
  forallb non_dot X = true ->
  trimStart X = X ->
  In (X ++ lit ".")
     (examples (createRuleEntry number
                  (pre ++ lit "Example:" ++ sp ++ X ++ lit "." ++ post)
                  chapter section))
  /\ text (createRuleEntry number
             (pre ++ lit "Example:" ++ sp ++ X ++ lit "." ++ post)
             chapter section)
     = trim (removeExamples pre ++ removeExamples post).
Proof.
  intros Hc Hsp HX Ht.
  assert (Hy : forallb non_dot (sp ++ X) = true).
  { rewrite forallb_app, HX, andb_true_r.
    revert Hsp. apply forallb_weaken. intros c Hc'.
    unfold non_dot, is_dot. apply negb_true_iff, N.eqb_neq. intros ->.
    discriminate. }
  assert (Hs : trimStart (sp ++ X) = X).
  { unfold trimStart in *. now rewrite after_app. }
  replace (pre ++ lit "Example:" ++ sp ++ X ++ lit "." ++ post)
    with (pre ++ lit "Example:" ++ (sp ++ X) ++ 46%N :: post)
    by (rewrite <- !app_assoc; reflexivity).
  split.
  - unfold createRuleEntry, examples. rewrite <- Hs at 1.
    now apply example_found.
  - unfold createRuleEntry, text. now rewrite example_removed.
Qed.

Lemma example_extracted_witness :
  In (lit "A player draws a card.")
     (examples (Samples.entryOf
        (lit "These are the rules. Example: A player draws a card.")))
  /\ text (Samples.entryOf
        (lit "These are the rules. Example: A player draws a card."))
     = lit "These are the rules.".
Proof.
  apply (example_extracted (lit "100.1") (lit "Game Concepts") (lit "General")
           (lit "These are the rules. ") (lit " ")
           (lit "A player draws a card") []).
  - apply examplesClosed_absent. reflexivity.
  - reflexivity.
  - reflexivity.
  - reflexivity.
Defined.

(** ** The ruling conversation *)

Section AskFacts.

Variable Card : Type.
Variable getCard : Routes.Value -> Settled (option Card).
Variable getCardRuling :
  Routes.Value -> option Card -> list Routes.Message -> list Card
  -> Settled jsstring.

Lemma limitHistory_length conversation :
  length (Routes.limitHistory conversation) <= 10.
Proof.
  unfold Routes.limitHistory.
  destruct (Nat.ltb_spec 10 (length conversation)); [|lia].
  rewrite length_skipn. lia.
Qed.

Lemma askRuling_refused body conversation :
  Routes.falsy (Routes.question body) = true ->
  Routes.askRuling Card getCard getCardRuling body conversation
  = (Routes.BadRequest (lit "Question is required"), conversation).
Proof.
  unfold Routes.askRuling, Routes.falsy.
  destruct (Routes.question body) as [q|]; [|reflexivity].
  now intros ->.
Qed.

Lemma askRuling_answered body conversation q primary mentioned answer :
  Routes.question body = Some q ->
  Routes.truthy q = true ->
  Routes.lookUpCards Card getCard body = Fulfilled (primary, mentioned) ->
  getCardRuling q primary
    (conversation ++ [{| Routes.role := lit "user"; Routes.content := q |}])
    mentioned = Fulfilled answer ->
  Routes.askRuling Card getCard getCardRuling body conversation
  = (Routes.Answer {| Routes.role := lit "assistant";
                      Routes.content := Routes.Text answer |},
     Routes.limitHistory
       (conversation
        ++ [ {| Routes.role := lit "user"; Routes.content := q |};
             {| Routes.role := lit "assistant";
                Routes.content := Routes.Text answer |} ])).
Proof.
  intros Hq Ht Hcards Hruling. unfold Routes.askRuling.
  rewrite Hq, Ht, Hcards. simpl negb. cbv iota. rewrite Hruling.
  now rewrite <- app_assoc.
Qed.

End AskFacts.

(** C10, as stated, fails.  A request without a question appends nothing
    (it is answered with status 400).  And eleven requests whose ruling call
    is rejected leave eleven messages in the history: each question is
    appended before the call, and the truncation after it is not reached. *)
Lemma ask_history_unbounded :
  Routes.askRuling unit Samples.noCard Samples.rulingAnswers Samples.noQuestion []
    = (Routes.BadRequest (lit "Question is required"), [])
  /\ length (Routes.serve unit Samples.noCard Samples.rulingFails
               (repeat Samples.plainQuestion 11) []) = 11.
Proof. split; vm_compute; reflexivity. Qed.

(** C10, amended.  A request to [/api/rulings/ask] whose question is missing
    or falsy is answered with status 400 and leaves the conversation history
    as it was.  A request with a truthy question whose card lookups and
    ruling call succeed is answered with the assistant message; it appends
    the user question and the assistant answer to the history and then keeps
    the 10 most recent messages, so after such a request the history holds
    at most 10 messages. *)
Theorem ask_answered_history (Card : Type)
    (getCard : Routes.Value -> Settled (option Card))
    (getCardRuling : Routes.Value -> option Card -> list Routes.Message
                     -> list Card -> Settled jsstring)
    (body : Routes.AskBody) (conversation : list Routes.Message) :
  (Routes.falsy (Routes.question body) = true ->
   Routes.askRuling Card getCard getCardRuling body conversation
   = (Routes.BadRequest (lit "Question is required"), conversation))
  /\ (forall q primary mentioned answer,
        Routes.question body = Some q ->
        Routes.truthy q = true ->
        Routes.lookUpCards Card getCard body = Fulfilled (primary, mentioned) ->
        getCardRuling q primary
          (conversation
           ++ [{| Routes.role := lit "user"; Routes.content := q |}])
          mentioned = Fulfilled answer ->
        Routes.askRuling Card getCard getCardRuling body conversation
        = (Routes.Answer {| Routes.role := lit "assistant";
                            Routes.content := Routes.Text answer |},
           Routes.limitHistory
             (conversation
              ++ [ {| Routes.role := lit "user"; Routes.content := q |};
                   {| Routes.role := lit "assistant";
                      Routes.content := Routes.Text answer |} ]))
        /\ length
             (snd (Routes.askRuling Card getCard getCardRuling body
                     conversation)) <= 10).
Proof.
  split.
  - apply askRuling_refused.
  - intros q primary mentioned answer Hq Ht Hcards Hruling.
    rewrite (askRuling_answered Card getCard getCardRuling body conversation
               q primary mentioned answer Hq Ht Hcards Hruling).
    split; [reflexivity | apply limitHistory_length].
Qed.

Lemma ask_answered_history_witness :
  Routes.askRuling unit Samples.noCard Samples.rulingAnswers
    Samples.plainQuestion Samples.longHistory
  = (Routes.Answer {| Routes.role := lit "assistant";
                      Routes.content := Routes.Text (lit "Yes, it resolves.") |},
     Routes.limitHistory
       (Samples.longHistory
        ++ [ {| Routes.role := lit "user";
                Routes.content := Routes.Text (lit "Does it resolve?") |};
             {| Routes.role := lit "assistant";
                Routes.content := Routes.Text (lit "Yes, it resolves.") |} ]))
  /\ length
       (snd (Routes.askRuling unit Samples.noCard Samples.rulingAnswers
               Samples.plainQuestion Samples.longHistory)) <= 10.
Proof.
  apply (proj2 (ask_answered_history unit Samples.noCard
                  Samples.rulingAnswers Samples.plainQuestion
                  Samples.longHistory)
           (Routes.Text (lit "Does it resolve?")) None []
           (lit "Yes, it resolves.")).
  - reflexivity.
  - reflexivity.
  - reflexivity.
  - reflexivity.
Defined.

(** ** The scheduled refresh *)

Section CronFacts.

Local Open Scope host_scope.

Lemma attempt_ok ev env w :
  fault env (length (performed w)) = None ->
  attempt ev env w = (Returned tt, record ev w).
Proof. intros H. unfold attempt. now rewrite H. Qed.

Lemma upToDate_recent nowMs row t :
  Host.last_updated row = Some t ->
  (nowMs - t < 24 * Cron.msPerHour)%Z ->
  Cron.upToDate nowMs (Some row) = Some (Some t).
Proof.
  intros Ht Hlt. unfold Cron.upToDate. rewrite Ht.
  destruct (Z.ltb_spec (nowMs - t) (24 * Cron.msPerHour)); [reflexivity | lia].
Qed.

End CronFacts.

(** C5.  When the metadata record is read and its [last_updated] is less
    than 24 hours before now, [updateCardDatabase] returns
    [{success: true, message: "Database is up to date"}].  The only operation
    performed is the query for the metadata record: neither the card refresh
    nor the rules refresh is invoked, and the rule table, the metadata row
    and the files are as before. *)
Theorem up_to_date_skips (env : Env) (w : World) (row : MetaRow) (t : Z) :
  fault env (length (performed w)) = None ->
  metadata w = Some row ->
  Host.last_updated row = Some t ->
  (now env - t < 24 * Cron.msPerHour)%Z ->
  Cron.updateCardDatabase env w
  = (Returned {| Cron.success := true;
                 Cron.message := lit "Database is up to date";
                 Cron.last_updated := Some (Some t);
                 Cron.cardResult := None;
                 Cron.rulesResult := None |},
     record SelectMetadata w).
Proof.
  intros Hok Hm Ht Hlt.
  unfold Cron.updateCardDatabase, tryCatch, bind at 1, selectMetadata, bind at 1.
  rewrite attempt_ok by exact Hok.
  unfold bind at 1, get. unfold ret at 1.
  unfold bind at 1, ask.
  change (metadata (record SelectMetadata w)) with (metadata w).
  rewrite Hm, (upToDate_recent _ _ _ Ht Hlt). reflexivity.
Qed.

Lemma up_to_date_skips_witness :
  Cron.updateCardDatabase Samples.hourLaterEnv Samples.refreshedWorld
  = (Returned {| Cron.success := true;
                 Cron.message := lit "Database is up to date";
                 Cron.last_updated := Some (Some 0%Z);
                 Cron.cardResult := None;
                 Cron.rulesResult := None |},
     record SelectMetadata Samples.refreshedWorld).
Proof.
  apply (up_to_date_skips Samples.hourLaterEnv Samples.refreshedWorld
           {| Host.last_updated := Some 0%Z; total_cards := 100;
              description := lit "Cards updated" |} 0%Z).
  - reflexivity.
  - reflexivity.
  - reflexivity.
  - vm_compute. reflexivity.
Defined.


(** ** Reasoning about host computations *)

Section Frames.

Local Open Scope host_scope.

Variable ok : Event -> bool.

Lemma quietly_refl w : quietly ok w w.
Proof. split; [reflexivity|]. now exists []. Qed.

Lemma quietly_trans w1 w2 w3 :
  quietly ok w1 w2 -> quietly ok w2 w3 -> quietly ok w1 w3.
Proof.
  intros [Hm1 (e1 & Hp1 & Ho1)] [Hm2 (e2 & Hp2 & Ho2)].
  split; [congruence|]. exists (e2 ++ e1).
  split; [now rewrite Hp2, Hp1, app_assoc | now rewrite forallb_app, Ho2, Ho1].
Qed.

Lemma quietly_record ev w : ok ev = true -> quietly ok w (record ev w).
Proof.
  intros H. split; [reflexivity|]. exists [ev]. simpl. now rewrite H.
Qed.

Lemma frames_ret {A} (a : A) : frames ok (ret a).
Proof. intros env w. apply quietly_refl. Qed.

Lemma frames_throw {A} e : frames ok (@throw A e).
Proof. intros env w. apply quietly_refl. Qed.

Lemma frames_outOfFuel {A} : frames ok (@Updater.outOfFuel A).
Proof. intros env w. apply quietly_refl. Qed.

Lemma frames_ask : frames ok ask.
Proof. intros env w. apply quietly_refl. Qed.

Lemma frames_get : frames ok get.
Proof. intros env w. apply quietly_refl. Qed.

Lemma frames_bind {A B} (c : M A) (k : A -> M B) :
  frames ok c -> (forall a, frames ok (k a)) -> frames ok (bind c k).
Proof.
  intros Hc Hk env w. unfold bind. specialize (Hc env w).
  destruct (c env w) as [[a|e|e|] w1]; simpl in *; try exact Hc.
  eapply quietly_trans; [exact Hc | apply Hk].
Qed.

Lemma frames_tryCatch {A} (body : M A) handler :
  frames ok body -> (forall e, frames ok (handler e)) ->
  frames ok (tryCatch body handler).
Proof.
  intros Hb Hh env w. unfold tryCatch. specialize (Hb env w).
  destruct (body env w) as [[a|e|e|] w1]; simpl in *; try exact Hb.
  eapply quietly_trans; [exact Hb | apply Hh].
Qed.

Lemma frames_inListener {A} (c : M A) : frames ok c -> frames ok (inListener c).
Proof.
  intros Hc env w. unfold inListener. specialize (Hc env w).
  destruct (c env w) as [[a|e|e|] w1]; exact Hc.
Qed.

Lemma frames_attempt ev : ok ev = true -> frames ok (attempt ev).
Proof.
  intros H env w. unfold attempt.
  destruct (fault env (length (performed w))); now apply quietly_record.
Qed.

Lemma frames_note ev : ok ev = true -> frames ok (note ev).
Proof. intros H env w. now apply quietly_record. Qed.

Lemma frames_modify (f : World -> World) :
  (forall w, metadata (f w) = metadata w /\ performed (f w) = performed w) ->
  frames ok (modify f).
Proof.
  intros H env w. destruct (H w) as [Hm Hp]. split; [exact Hm|].
  exists []. now split.
Qed.

End Frames.

Section Fuel.

Local Open Scope host_scope.

Lemma fuelled_ret {A} (a : A) : fuelled (ret a).
Proof. intros env w. discriminate. Qed.

Lemma fuelled_throw {A} e : fuelled (@throw A e).
Proof. intros env w. discriminate. Qed.

Lemma fuelled_bind {A B} (c : M A) (k : A -> M B) :
  fuelled c -> (forall a, fuelled (k a)) -> fuelled (bind c k).
Proof.
  intros Hc Hk env w. unfold bind. specialize (Hc env w).
  destruct (c env w) as [[a|e|e|] w1]; simpl in *;
    [apply Hk | discriminate | discriminate | now contradiction Hc].
Qed.

Lemma fuelled_tryCatch {A} (body : M A) handler :
  fuelled body -> (forall e, fuelled (handler e)) ->
  fuelled (tryCatch body handler).
Proof.
  intros Hb Hh env w. unfold tryCatch. specialize (Hb env w).
  destruct (body env w) as [[a|e|e|] w1]; simpl in *;
    [discriminate | apply Hh | discriminate | exact Hb].
Qed.

Lemma fuelled_inListener {A} (c : M A) : fuelled c -> fuelled (inListener c).
Proof.
  intros Hc env w. unfold inListener. specialize (Hc env w).
  destruct (c env w) as [[a|e|e|] w1]; simpl in *;
    [discriminate | discriminate | discriminate | exact Hc].
Qed.

Lemma fuelled_attempt ev : fuelled (attempt ev).
Proof.
  intros env w. unfold attempt.
  destruct (fault env (length (performed w))); discriminate.
Qed.

Lemma fuelled_note ev : fuelled (note ev).
Proof. intros env w. discriminate. Qed.

Lemma fuelled_modify f : fuelled (modify f).
Proof. intros env w. discriminate. Qed.

Lemma fuelled_ask : fuelled ask.
Proof. intros env w. discriminate. Qed.

Lemma fuelled_get : fuelled get.
Proof. intros env w. discriminate. Qed.

End Fuel.

Section Yields.

Local Open Scope host_scope.

Context {A : Type} (P : A -> Prop).

Lemma yields_ret a : P a -> yields P (ret a).
Proof. intros H env w b [= <-]. exact H. Qed.

Lemma yields_throw e : yields P (throw e).
Proof. intros env w b. discriminate. Qed.

Lemma yields_bind {B} (c : M B) (k : B -> M A) :
  (forall b, yields P (k b)) -> yields P (bind c k).
Proof.
  intros Hk env w a. unfold bind.
  destruct (c env w) as [[b|e|e|] w1]; try discriminate. apply Hk.
Qed.

Lemma yields_tryCatch (body : M A) handler :
  yields P body -> (forall e, yields P (handler e)) ->
  yields P (tryCatch body handler).
Proof.
  intros Hb Hh env w a. unfold tryCatch. specialize (Hb env w).
  destruct (body env w) as [[b|e|e|] w1]; try discriminate;
    [apply Hb | apply Hh].
Qed.

End Yields.

Create HintDb host discriminated.

#[local] Hint Resolve frames_ret frames_throw frames_outOfFuel frames_ask
  frames_get frames_bind frames_tryCatch frames_inListener frames_attempt
  frames_note frames_modify : host.
#[local] Hint Resolve fuelled_ret fuelled_throw fuelled_bind fuelled_tryCatch
  fuelled_inListener fuelled_attempt fuelled_note fuelled_modify fuelled_ask
  fuelled_get : host.

(** Take a host computation apart along its binds and its case analyses. *)
Ltac host_step :=
  lazymatch goal with
  | |- frames _ (match ?x with _ => _ end) => destruct x
  | |- fuelled (match ?x with _ => _ end) => destruct x
  | |- yields _ (match ?x with _ => _ end) => destruct x
  | |- frames _ (bind _ _) => apply frames_bind
  | |- fuelled (bind _ _) => apply fuelled_bind
  | |- yields _ (bind _ _) => apply yields_bind
  | |- frames _ (tryCatch _ _) => apply frames_tryCatch
  | |- fuelled (tryCatch _ _) => apply fuelled_tryCatch
  | |- yields _ (tryCatch _ _) => apply yields_tryCatch
  | |- frames _ (inListener _) => apply frames_inListener
  | |- fuelled (inListener _) => apply fuelled_inListener
  | |- frames _ (modify _) => apply frames_modify
  | |- yields _ (ret _) => apply yields_ret
  | |- yields _ (throw _) => apply yields_throw
  | |- promisesDownload _ => first [exact I | reflexivity]
  | |- frames _ _ => solve [auto with host]
  | |- fuelled _ => solve [auto with host]
  | |- forall _, _ => intro
  | |- _ /\ _ => split
  | |- _ = _ => reflexivity
  end.

Ltac host := repeat host_step.

Section UpdaterFacts.

Local Open Scope host_scope.

Variable ok : Event -> bool.
Hypothesis ok_rules :
  forall ev, isUpsert ev = false -> isCardRefresh ev = false -> ok ev = true.

Lemma frames_selectRules : frames ok selectRulesLimit1.
Proof. unfold selectRulesLimit1. host. Qed.

Lemma frames_deleteRules : frames ok deleteRules.
Proof. unfold deleteRules. host. Qed.

Lemma frames_insertRules batch : frames ok (insertRules batch).
Proof. unfold insertRules. host. Qed.

Lemma frames_existsSync path : frames ok (existsSync path).
Proof. unfold existsSync. host. Qed.

Lemma frames_readFileSync path : frames ok (readFileSync path).
Proof. unfold readFileSync. host. Qed.

Lemma frames_unlinkSync path : frames ok (unlinkSync path).
Proof. unfold unlinkSync. host. Qed.

Lemma frames_mkdirSync path : frames ok (mkdirSync path).
Proof. unfold mkdirSync. host. Qed.

Lemma frames_createWriteStream path : frames ok (createWriteStream path).
Proof. unfold createWriteStream. host. Qed.

Lemma frames_piped path body : frames ok (piped path body).
Proof. unfold piped. host. Qed.

End UpdaterFacts.

#[local] Hint Resolve frames_selectRules frames_deleteRules frames_insertRules
  frames_existsSync frames_readFileSync frames_unlinkSync frames_mkdirSync
  frames_createWriteStream frames_piped : host.

Section RulesRefreshFacts.

Local Open Scope host_scope.

Variable ok : Event -> bool.
Hypothesis ok_rules :
  forall ev, isUpsert ev = false -> isCardRefresh ev = false -> ok ev = true.

Lemma frames_insertBatches parsedRules :
  forall fuel i, frames ok (Updater.insertBatches fuel parsedRules i).
Proof.
  induction fuel as [|fuel IH]; intros i; simpl; host.
Qed.

Lemma frames_updateRulesDatabase path :
  frames ok (Updater.updateRulesDatabase path).
Proof.
  unfold Updater.updateRulesDatabase. host. apply frames_insertBatches.
Qed.

Lemma frames_updateRulesFromFile : frames ok Updater.updateRulesFromFile.
Proof.
  unfold Updater.updateRulesFromFile. host. apply frames_updateRulesDatabase.
Qed.

Lemma frames_download : frames ok Updater.download.
Proof.
  unfold Updater.download. host; apply frames_updateRulesDatabase.
Qed.

Lemma frames_fallback e : frames ok (Updater.fallback e).
Proof.
  unfold Updater.fallback. host. apply frames_updateRulesFromFile.
Qed.

Lemma frames_attemptDownload_rest existingRules :
  frames ok
    (env <- ask ;;
     match
       match existingRules with
       | row :: _ => Updater.updatedWithinWeek (now env) (createdAt row)
       | [] => None
       end
     with
     | Some ms =>
         ret (Updater.Value
                {| success := true;
                   message := lit "Rules were updated "
                              ++ showZ (Updater.roundDays ms)
                              ++ lit " days ago. Skipping update." |})
     | None =>
         found <- existsSync Updater.tempDir ;;
         (if negb found then mkdirSync Updater.tempDir else ret tt) ;;
         ret (Updater.Promise Updater.download)
     end).
Proof. host. Qed.

Lemma yields_fallback e : yields promisesDownload (Updater.fallback e).
Proof. unfold Updater.fallback. host. Qed.

Lemma yields_attemptDownload : yields promisesDownload Updater.attemptDownload.
Proof. unfold Updater.attemptDownload. host. Qed.

Lemma frames_settle r :
  promisesDownload r ->
  frames ok match r with
            | Updater.Value v => ret v
            | Updater.Promise settle => settle
            end.
Proof.
  destruct r as [v|p]; simpl; [intros _; host | intros ->; apply frames_download].
Qed.

(** Whatever [updateRulesFromWotc] does, it first queries the rules table,
    and what follows writes no metadata and starts no card refresh. *)
Lemma updateRulesFromWotc_frame env w :
  quietly ok (record SelectRules w) (snd (Updater.updateRulesFromWotc env w)).
Proof.
  unfold Updater.updateRulesFromWotc, bind at 1.
  assert (Hfirst :
    quietly ok (record SelectRules w)
      (snd (tryCatch Updater.attemptDownload Updater.fallback env w))).
  { unfold tryCatch, Updater.attemptDownload, selectRulesLimit1.
    unfold bind at 1, bind at 1, attempt.
    destruct (fault env (length (performed w))) as [e|].
    - apply frames_fallback.
    - unfold bind at 1, get, ret at 1.
      pose proof (frames_attemptDownload_rest
                    (firstn 1 (rulesTable (record SelectRules w)))
                    env (record SelectRules w)) as H.
      destruct (bind ask _ env (record SelectRules w)) as [[r|e|?|] w1];
        simpl in *; try exact H.
      eapply quietly_trans; [exact H | apply frames_fallback]. }
  pose proof (yields_tryCatch promisesDownload _ _ yields_attemptDownload
                yields_fallback env w) as Hy.
  destruct (tryCatch Updater.attemptDownload Updater.fallback env w)
    as [[r|e|?|] w1]; simpl in *; try exact Hfirst.
  eapply quietly_trans; [exact Hfirst | apply frames_settle, Hy; reflexivity].
Qed.

End RulesRefreshFacts.

Section RunFacts.

Local Open Scope host_scope.

Lemma run_bind {A B} (c : M A) (k : A -> M B) env w :
  bind c k env w
  = match c env w with
    | (Returned a, w') => k a env w'
    | (Thrown e, w') => (Thrown e, w')
    | (Uncaught e, w') => (Uncaught e, w')
    | (OutOfFuel, w') => (OutOfFuel, w')
    end.
Proof. reflexivity. Qed.

Lemma run_tryCatch {A} (body : M A) handler env w :
  tryCatch body handler env w
  = match body env w with
    | (Thrown e, w') => handler e env w'
    | r => r
    end.
Proof. reflexivity. Qed.

Lemma selectMetadata_ok env w :
  fault env (length (performed w)) = None ->
  selectMetadata env w = (Returned (metadata w), record SelectMetadata w).
Proof.
  intros H. unfold selectMetadata. now rewrite run_bind, attempt_ok.
Qed.

Lemma selectRules_ok env w :
  fault env (length (performed w)) = None ->
  selectRulesLimit1 env w
  = (Returned (firstn 1 (rulesTable w)), record SelectRules w).
Proof.
  intros H. unfold selectRulesLimit1. now rewrite run_bind, attempt_ok.
Qed.

Lemma fuelled_insertBatches parsedRules :
  forall fuel i, length parsedRules <= i + fuel ->
    fuelled (Updater.insertBatches fuel parsedRules i).
Proof.
  induction fuel as [|fuel IH]; intros i Hle; simpl.
  - destruct (Nat.ltb_spec i (length parsedRules)); [lia | host].
  - destruct (i <? length parsedRules); [|host].
    apply fuelled_bind; [unfold insertRules; host|].
    intros _. apply IH. unfold Updater.batchSize. lia.
Qed.

Lemma fuelled_updateRulesDatabase path :
  fuelled (Updater.updateRulesDatabase path).
Proof.
  unfold Updater.updateRulesDatabase, readFileSync, deleteRules. host.
  apply fuelled_insertBatches. lia.
Qed.

Lemma fuelled_updateRulesFromFile : fuelled Updater.updateRulesFromFile.
Proof.
  unfold Updater.updateRulesFromFile, existsSync. host.
  apply fuelled_updateRulesDatabase.
Qed.

Lemma fuelled_download : fuelled Updater.download.
Proof.
  unfold Updater.download, createWriteStream, piped, unlinkSync.
  host; apply fuelled_updateRulesDatabase.
Qed.

Lemma fuelled_updateRulesFromWotc : fuelled Updater.updateRulesFromWotc.
Proof.
  intros env w. unfold Updater.updateRulesFromWotc. rewrite run_bind.
  assert (Hf : fuelled (tryCatch Updater.attemptDownload Updater.fallback)).
  { unfold Updater.attemptDownload, Updater.fallback, selectRulesLimit1,
      existsSync, mkdirSync.
    host. apply fuelled_updateRulesFromFile. }
  specialize (Hf env w).
  pose proof (yields_tryCatch promisesDownload _ _ yields_attemptDownload
                yields_fallback env w) as Hy.
  destruct (tryCatch Updater.attemptDownload Updater.fallback env w)
    as [[[v|p]|e|?|] w1]; simpl in *; try discriminate; try contradiction.
  rewrite (Hy _ eq_refl). apply fuelled_download.
Qed.

End RunFacts.

(** C2, as stated, fails.  The card refresh reports a failure, the rules
    step runs (the rules table is queried), and the call returns, but no
    upsert of the metadata row is attempted and there is no metadata row
    afterwards: the write is guarded by [cardResult.success]. *)
Lemma failed_card_refresh_leaves_no_metadata :
  cardRefresh Samples.cardsFailEnv
    = Fulfilled {| success := false; message := lit "MTGJSON download failed" |}
  /\ existsb isRulesQuery
       (performed (snd (Cron.updateCardDatabase Samples.cardsFailEnv
                          Samples.freshRulesWorld))) = true
  /\ existsb isUpsert
       (performed (snd (Cron.updateCardDatabase Samples.cardsFailEnv
                          Samples.freshRulesWorld))) = false
  /\ metadata (snd (Cron.updateCardDatabase Samples.cardsFailEnv
                      Samples.freshRulesWorld)) = None.
Proof. repeat split; vm_compute; reflexivity. Qed.

(** C2, amended.  When the metadata record is read and is not up to date,
    and the card refresh reports a failure, the rules step still runs (the
    rules table is queried after the card refresh); no upsert of the metadata
    row is attempted and the metadata row is as before; and the call returns
    the card result, the rules result, and a success flag that is the
    conjunction of their flags, hence false.  (The one other outcome is an
    exception inside the listener for a write-stream error, which nothing
    catches.) *)
Theorem failed_card_refresh_skips_metadata (env : Env) (w : World) (r : Result) :
  fault env (length (performed w)) = None ->
  Cron.upToDate (now env) (metadata w) = None ->
  cardRefresh env = Fulfilled r ->
  success r = false ->
  exists out w' evs,
    Cron.updateCardDatabase env w = (out, w')
    /\ performed w'
       = evs ++ SelectRules :: RefreshCards :: SelectMetadata :: performed w
    /\ forallb notUpsert evs = true
    /\ metadata w' = metadata w
    /\ match out with
       | Returned s =>
           Cron.cardResult s = Some r
           /\ exists rulesResult,
                Cron.rulesResult s = Some rulesResult
                /\ Cron.success s = success r && success rulesResult
                /\ Cron.success s = false
       | Uncaught _ => True
       | _ => False
       end.
Proof.
  intros Hok Hstale Hcard Hfail.
  unfold Cron.updateCardDatabase.
  rewrite run_tryCatch, run_bind, selectMetadata_ok by exact Hok.
  rewrite run_bind. unfold ask at 1.
  change (metadata (record SelectMetadata w)) with (metadata w).
  rewrite Hstale.
  rewrite run_bind. unfold Cron.completeCardDatabaseUpdate at 1.
  rewrite run_bind. unfold note at 1. rewrite run_bind. unfold ask at 1.
  rewrite Hcard. unfold ret at 1.
  set (w2 := record RefreshCards (record SelectMetadata w)).
  rewrite run_bind, run_tryCatch.
  assert (Hok' : forall ev, isUpsert ev = false -> isCardRefresh ev = false ->
                            notUpsert ev = true).
  { intros ev H _. unfold notUpsert. now rewrite H. }
  destruct (updateRulesFromWotc_frame notUpsert Hok' env w2)
    as [Hm (evs & Hp & Hq)].
  pose proof (fuelled_updateRulesFromWotc env w2) as Hfuel.
  destruct (Updater.updateRulesFromWotc env w2) as [[rr|e|e|] w3];
    simpl in Hm, Hp, Hfuel; [| | |contradiction].
  - unfold ret at 1. rewrite run_bind, Hfail. unfold ret at 1. unfold ret.
    eexists _, w3, evs. split; [reflexivity|].
    simpl. eauto 10.
  - unfold ret at 1. rewrite run_bind, Hfail. unfold ret at 1. unfold ret.
    eexists _, w3, evs. split; [reflexivity|].
    simpl. eauto 10.
  - eexists _, w3, evs. split; [reflexivity|]. auto.
Qed.

Lemma failed_card_refresh_skips_metadata_witness :
  exists out w' evs,
    Cron.updateCardDatabase Samples.cardsFailEnv Samples.freshRulesWorld
      = (out, w')
    /\ performed w'
       = evs ++ SelectRules :: RefreshCards :: SelectMetadata
           :: performed Samples.freshRulesWorld
    /\ forallb notUpsert evs = true
    /\ metadata w' = metadata Samples.freshRulesWorld
    /\ match out with
       | Returned s =>
           Cron.cardResult s
             = Some {| success := false; message := lit "MTGJSON download failed" |}
           /\ exists rulesResult,
                Cron.rulesResult s = Some rulesResult
                /\ Cron.success s = false && success rulesResult
                /\ Cron.success s = false
       | Uncaught _ => True
       | _ => False
       end.
Proof.
  apply (failed_card_refresh_skips_metadata Samples.cardsFailEnv
           Samples.freshRulesWorld
           {| success := false; message := lit "MTGJSON download failed" |});
    reflexivity.
Defined.

(** ** Rules ingestion *)

(** C3, as stated, fails.  The newest rule record is seven days less one
    second old, hence younger than seven days; the record the unordered
    [limit(1)] query returns, the first one stored, is seven days and one
    second old.  The update is not skipped: the rulebook is downloaded and
    the rules table is modified (its records are deleted; the insert that
    follows is refused by the database, so the call rejects). *)
Lemma newest_recent_still_downloads :
  newestCreatedAt (rulesTable Samples.staleHeadWorld) = Some 2000%Z
  /\ (now Samples.staleHeadEnv - 2000 < 7 * Updater.msPerDay)%Z
  /\ fst (Updater.updateRulesFromWotc Samples.staleHeadEnv Samples.staleHeadWorld)
     = Thrown {| errorMessage := lit "Failed to process downloaded rules: "
                                 ++ errorMessage notNullViolation |}
  /\ existsb isNetworkCall
       (performed (snd (Updater.updateRulesFromWotc Samples.staleHeadEnv
                          Samples.staleHeadWorld))) = true
  /\ rulesTable Samples.staleHeadWorld <> []
  /\ rulesTable (snd (Updater.updateRulesFromWotc Samples.staleHeadEnv
                         Samples.staleHeadWorld)) = [].
Proof.
  split; [|split; [|split; [|split; [|split]]]];
    try (vm_compute; reflexivity).
  discriminate.
Qed.

(** C3, amended.  [updateRulesFromWotc] checks the age of the one record
    that the unordered [limit(1)] query on the rules table returns, the
    first in storage order.  Whenever that query succeeds and the record it
    returns was created less than 7 days before now, the call returns
    success with the message "Rules were updated N days ago. Skipping
    update."; the query is the only operation performed, so there is no
    network call, and the rules table, the metadata and the files are as
    before. *)
Theorem recent_rules_skip (env : Env) (w : World) (row : RuleRow)
    (rest : list RuleRow) (t : Z) :
  fault env (length (performed w)) = None ->
  rulesTable w = row :: rest ->
  createdAt row = Some t ->
  (now env - t < 7 * Updater.msPerDay)%Z ->
  Updater.updateRulesFromWotc env w
  = (Returned {| success := true;
                 message := lit "Rules were updated "
                            ++ showZ (Updater.roundDays (now env - t))
                            ++ lit " days ago. Skipping update." |},
     record SelectRules w).
Proof.
  intros Hok Hrows Hcreated Hlt.
  unfold Updater.updateRulesFromWotc.
  rewrite run_bind, run_tryCatch. unfold Updater.attemptDownload.
  rewrite run_bind, selectRules_ok by exact Hok.
  rewrite run_bind. unfold ask at 1.
  rewrite Hrows. change (firstn 1 (row :: rest)) with [row]. cbv iota.
  unfold Updater.updatedWithinWeek. rewrite Hcreated.
  destruct (Z.ltb_spec (now env - t) (7 * Updater.msPerDay)); [|lia].
  reflexivity.
Qed.

Lemma recent_rules_skip_witness :
  Updater.updateRulesFromWotc Samples.cardsFailEnv Samples.freshRulesWorld
  = (Returned {| success := true;
                 message := lit "Rules were updated 3 days ago. Skipping update." |},
     record SelectRules Samples.freshRulesWorld).
Proof.
  apply (recent_rules_skip Samples.cardsFailEnv Samples.freshRulesWorld
           (Samples.ruleRow "100.1" 0) [] 0%Z).
  - reflexivity.
  - reflexivity.
  - reflexivity.
  - vm_compute. reflexivity.
Defined.

Section BatchFacts.

Local Open Scope host_scope.

(** The database refuses every batch: the records leave [rule_number]
    without a value. *)
Lemma insertRules_run env w batch :
  batch <> [] ->
  insertRules batch env w
  = (Thrown match fault env (length (performed w)) with
            | Some e => e
            | None => notNullViolation
            end,
     record (InsertRules batch) w).
Proof.
  intros Hb. unfold insertRules. destruct batch as [|r batch]; [contradiction|].
  rewrite run_bind. unfold attempt.
  now destruct (fault env (length (performed w))).
Qed.

Lemma slice_nonempty {A} i (l : list A) :
  i < length l -> Updater.slice i (i + Updater.batchSize) l <> [].
Proof.
  intros Hlt H. apply (f_equal (@length A)) in H. revert H.
  unfold Updater.slice, Updater.batchSize.
  rewrite length_firstn, length_skipn. simpl. lia.
Qed.

(** The loop of [updateRulesDatabase] stops at its first insert. *)
Lemma insertBatches_run env parsedRules fuel i w :
  i < length parsedRules ->
  length parsedRules <= i + fuel ->
  Updater.insertBatches fuel parsedRules i env w
  = (Thrown match fault env (length (performed w)) with
            | Some e => e
            | None => notNullViolation
            end,
     record (InsertRules (Updater.slice i (i + Updater.batchSize) parsedRules)) w).
Proof.
  intros Hlt Hle. destruct fuel as [|fuel]; [lia|]. simpl.
  destruct (Nat.ltb_spec i (length parsedRules)); [|lia].
  rewrite run_bind, insertRules_run by now apply slice_nonempty.
  reflexivity.
Qed.

(** No insert changes the rules table. *)
Lemma insertBatches_table env parsedRules :
  forall fuel i w,
    rulesTable (snd (Updater.insertBatches fuel parsedRules i env w))
    = rulesTable w.
Proof.
  intros fuel i w. destruct fuel as [|fuel]; simpl;
    destruct (i <? length parsedRules) eqn:E; try reflexivity.
  apply Nat.ltb_lt in E.
  rewrite run_bind, insertRules_run by now apply slice_nonempty.
  reflexivity.
Qed.

Lemma readFileSync_ok env w path rulesText :
  fault env (length (performed w)) = None ->
  files w !! path = Some rulesText ->
  readFileSync path env w = (Returned rulesText, record (ReadFile path) w).
Proof.
  intros Hok Hfile. unfold readFileSync.
  rewrite run_bind, attempt_ok by exact Hok.
  rewrite run_bind. unfold get at 1.
  change (files (record (ReadFile path) w)) with (files w). now rewrite Hfile.
Qed.

Lemma deleteRules_ok env w :
  fault env (length (performed w)) = None ->
  deleteRules env w = (Returned tt, setRules [] (record DeleteRules w)).
Proof.
  intros Hok. unfold deleteRules. now rewrite run_bind, attempt_ok.
Qed.

End BatchFacts.

(** C7: the code departs from the claim.  The file holds 250 rules.
    [updateRulesDatabase] reads it, deletes the rule records and issues one
    insert, of the first 100 records; the database refuses it, because the
    records of [createRuleEntry] carry [ruleNumber] where the table declares
    [rule_number] NOT NULL; the call rejects, the batches of 100 and 50 are
    never issued, and the rules table is left empty. *)
Theorem first_batch_rejected :
  length (parseComprehensiveRules (Samples.longRulebook 250)) = 250
  /\ suppliesRequired = false
  /\ fst (Updater.updateRulesDatabase Updater.localRulesFile Samples.notFoundEnv
            (Samples.rulebookWorld 250))
     = Thrown notNullViolation
  /\ map (@length RuleEntry)
       (insertsOf (performed (snd (Updater.updateRulesDatabase
                                     Updater.localRulesFile Samples.notFoundEnv
                                     (Samples.rulebookWorld 250)))))
     = [100]
  /\ rulesTable (snd (Updater.updateRulesDatabase Updater.localRulesFile
                         Samples.notFoundEnv (Samples.rulebookWorld 250)))
     = [].
Proof. repeat split; vm_compute; reflexivity. Qed.

(** C9.  [updateRulesDatabase] deletes all rule records before it parses
    the source.  When the file is read, the delete succeeds and the parser
    yields no record (as when the anchor is absent), the call returns
    without error, no insert is attempted, and the rule table is left
    empty whatever it held before. *)
Theorem empty_parse_clears_rules (env : Env) (w : World) (filePath : string)
    (rulesText : jsstring) :
  fault env (length (performed w)) = None ->
  fault env (S (length (performed w))) = None ->
  files w !! filePath = Some rulesText ->
  parseComprehensiveRules rulesText = [] ->
  Updater.updateRulesDatabase filePath env w
  = (Returned tt, setRules [] (record DeleteRules (record (ReadFile filePath) w)))
  /\ rulesTable (snd (Updater.updateRulesDatabase filePath env w)) = []
  /\ performed (snd (Updater.updateRulesDatabase filePath env w))
     = DeleteRules :: ReadFile filePath :: performed w.
Proof.
  intros Hread Hdelete Hfile Hparse.
  assert (Hrun : Updater.updateRulesDatabase filePath env w
          = (Returned tt,
             setRules [] (record DeleteRules (record (ReadFile filePath) w)))).
  { unfold Updater.updateRulesDatabase.
    rewrite run_tryCatch, run_bind.
    rewrite (readFileSync_ok _ _ _ _ Hread Hfile).
    rewrite run_bind, deleteRules_ok by exact Hdelete.
    rewrite Hparse. reflexivity. }
  rewrite Hrun. repeat split.
Qed.

Lemma empty_parse_clears_rules_witness :
  length (rulesTable Samples.unanchoredWorld) = 2
  /\ rulesTable (snd (Updater.updateRulesDatabase Updater.localRulesFile
                        Samples.notFoundEnv Samples.unanchoredWorld)) = [].
Proof.
  split; [reflexivity|].
  apply (empty_parse_clears_rules Samples.notFoundEnv Samples.unanchoredWorld
           Updater.localRulesFile (lit "100.1. These are the rules.")).
  - reflexivity.
  - reflexivity.
  - vm_compute. reflexivity.
  - vm_compute. reflexivity.
Defined.

(** ** The outer boundary *)

Section BoundaryFacts.

Local Open Scope host_scope.

Lemma fuelled_getCardCount : fuelled Cron.getCardCount.
Proof. unfold Cron.getCardCount, countCards. host. Qed.

Lemma fuelled_upsertMetadata ins upd : fuelled (upsertMetadata ins upd).
Proof. unfold upsertMetadata. host. Qed.

Lemma fuelled_completeCardDatabaseUpdate :
  fuelled Cron.completeCardDatabaseUpdate.
Proof. unfold Cron.completeCardDatabaseUpdate. host. Qed.

(** [updateCardDatabase] never rejects: it returns a summary, unless an
    exception escapes the listener for a write-stream error. *)
Lemma updateCardDatabase_never_throws env w :
  match fst (Cron.updateCardDatabase env w) with
  | Returned _ | Uncaught _ => True
  | Thrown _ | OutOfFuel => False
  end.
Proof.
  unfold Cron.updateCardDatabase. rewrite run_tryCatch.
  match goal with
  | |- context [match ?body env w with _ => _ end] =>
      assert (Hf : fuelled body); [|specialize (Hf env w);
        destruct (body env w) as [[s|e|e|] w1]; simpl in *; auto]
  end.
  unfold selectMetadata. host.
  - apply fuelled_completeCardDatabaseUpdate.
  - apply fuelled_updateRulesFromWotc.
  - apply fuelled_getCardCount.
  - apply fuelled_getCardCount.
  - apply fuelled_upsertMetadata.
Qed.

(** A download that fails makes [updateRulesFromWotc] reject, whatever the
    state of the bundled file: the promise is returned from the [try] block
    without [await], so its rejection passes the [catch] block by. *)
Lemma failed_download_rejects env w :
  fault env (length (performed w)) = None ->
  fault env (S (length (performed w))) = None ->
  rulesTable w = [] ->
  match httpReply env with
  | NetworkError _ => True
  | Response statusCode _ _ => statusCode <> 200%Z
  end ->
  exists e w', Updater.updateRulesFromWotc env w = (Thrown e, w').
Proof.
  intros Hok Hok' Hrows Hreply.
  unfold Updater.updateRulesFromWotc.
  rewrite run_bind, run_tryCatch. unfold Updater.attemptDownload.
  rewrite run_bind, selectRules_ok by exact Hok.
  rewrite run_bind. unfold ask at 1. rewrite Hrows.
  change (firstn 1 []) with (@nil RuleRow). cbv iota.
  rewrite run_bind. unfold existsSync at 1. rewrite run_bind. unfold get at 1.
  unfold ret at 1.
  assert (Hprep : forall b,
    exists w1, (if negb b then mkdirSync Updater.tempDir else ret tt) env
                 (record SelectRules w) = (Returned tt, w1)).
  { intros [|]; simpl; [eexists; reflexivity|].
    unfold mkdirSync. rewrite run_bind, attempt_ok by exact Hok'.
    eexists. reflexivity. }
  rewrite run_bind.
  destruct (Hprep (bool_decide (is_Some (files (record SelectRules w)
                                           !! Updater.tempDir))
                   || bool_decide (Updater.tempDir
                                   ∈ directories (record SelectRules w))))
    as [w1 ->].
  unfold ret at 1. unfold Updater.download.
  rewrite run_bind. unfold createWriteStream at 1. rewrite run_bind.
  unfold note at 1. unfold modify at 1.
  rewrite run_bind. unfold note at 1. rewrite run_bind. unfold ask at 1.
  destruct (httpReply env) as [err|statusCode body streamError].
  - eexists _, _. reflexivity.
  - destruct (Z.eqb_spec statusCode 200); [contradiction|].
    eexists _, _. reflexivity.
Qed.

End BoundaryFacts.

Section CaughtFacts.

Local Open Scope host_scope.

Variable env : Env.

Lemma caughtAt_ret {A} (a : A) : caughtAt env (ret a).
Proof. intros w e. discriminate. Qed.

Lemma caughtAt_throw {A} e : caughtAt env (@throw A e).
Proof. intros w e'. discriminate. Qed.

Lemma caughtAt_outOfFuel {A} : caughtAt env (@Updater.outOfFuel A).
Proof. intros w e. discriminate. Qed.

Lemma caughtAt_bind {A B} (c : M A) (k : A -> M B) :
  caughtAt env c -> (forall a, caughtAt env (k a)) -> caughtAt env (bind c k).
Proof.
  intros Hc Hk w e. unfold bind. specialize (Hc w).
  destruct (c env w) as [[a|e'|e'|] w1]; simpl in *;
    [apply Hk | discriminate | now contradiction (Hc e') | discriminate].
Qed.

Lemma caughtAt_ask {A} (k : Env -> M A) :
  caughtAt env (k env) -> caughtAt env (bind ask k).
Proof. intros Hk w e. exact (Hk w e). Qed.

Lemma caughtAt_tryCatch {A} (body : M A) handler :
  caughtAt env body -> (forall e, caughtAt env (handler e)) ->
  caughtAt env (tryCatch body handler).
Proof.
  intros Hb Hh w e. unfold tryCatch. specialize (Hb w).
  destruct (body env w) as [[a|e'|e'|] w1]; simpl in *;
    [discriminate | apply Hh | apply Hb | discriminate].
Qed.

Lemma caughtAt_attempt ev : caughtAt env (attempt ev).
Proof.
  intros w e. unfold attempt.
  destruct (fault env (length (performed w))); discriminate.
Qed.

Lemma caughtAt_note ev : caughtAt env (note ev).
Proof. intros w e. discriminate. Qed.

Lemma caughtAt_modify f : caughtAt env (modify f).
Proof. intros w e. discriminate. Qed.

Lemma caughtAt_get : caughtAt env get.
Proof. intros w e. discriminate. Qed.

Ltac caught_step :=
  lazymatch goal with
  | |- caughtAt _ (bind ask _) => apply caughtAt_ask
  | |- caughtAt _ (bind _ _) => apply caughtAt_bind
  | |- caughtAt _ (tryCatch _ _) => apply caughtAt_tryCatch
  | |- caughtAt _ (match ?x with _ => _ end) => destruct x
  | |- caughtAt _ (ret _) => apply caughtAt_ret
  | |- caughtAt _ (throw _) => apply caughtAt_throw
  | |- caughtAt _ Updater.outOfFuel => apply caughtAt_outOfFuel
  | |- caughtAt _ (attempt _) => apply caughtAt_attempt
  | |- caughtAt _ (note _) => apply caughtAt_note
  | |- caughtAt _ (modify _) => apply caughtAt_modify
  | |- caughtAt _ get => apply caughtAt_get
  | |- forall _, _ => intro
  end.

Ltac caught := repeat caught_step.

Lemma caughtAt_insertBatches parsedRules :
  forall fuel i, caughtAt env (Updater.insertBatches fuel parsedRules i).
Proof.
  induction fuel as [|fuel IH]; intros i; simpl; unfold insertRules; caught.
  apply IH.
Qed.

Lemma caughtAt_updateRulesDatabase path :
  caughtAt env (Updater.updateRulesDatabase path).
Proof.
  unfold Updater.updateRulesDatabase, readFileSync, deleteRules. caught.
  apply caughtAt_insertBatches.
Qed.

Lemma caughtAt_fallback e : caughtAt env (Updater.fallback e).
Proof.
  unfold Updater.fallback, Updater.updateRulesFromFile, existsSync. caught.
  apply caughtAt_updateRulesDatabase.
Qed.

Hypothesis calm : noStreamError env.

Lemma caughtAt_download : caughtAt env Updater.download.
Proof.
  unfold Updater.download, createWriteStream. unfold noStreamError in calm.
  caught_step; [caught|]. caught_step. caught_step; [caught|].
  caught_step. caught_step.
  destruct (httpReply env) as [err|statusCode body [err|]];
    [caught | contradiction |].
  unfold piped, unlinkSync. caught. apply caughtAt_updateRulesDatabase.
Qed.

Lemma caughtAt_updateRulesFromWotc : caughtAt env Updater.updateRulesFromWotc.
Proof.
  intros w e. unfold Updater.updateRulesFromWotc. rewrite run_bind.
  assert (Hc : caughtAt env (tryCatch Updater.attemptDownload Updater.fallback)).
  { apply caughtAt_tryCatch; [|apply caughtAt_fallback].
    unfold Updater.attemptDownload, selectRulesLimit1, existsSync, mkdirSync.
    caught. }
  specialize (Hc w).
  pose proof (yields_tryCatch promisesDownload _ _ yields_attemptDownload
                yields_fallback env w) as Hy.
  destruct (tryCatch Updater.attemptDownload Updater.fallback env w)
    as [[[v|p]|e'|e'|] w1]; simpl in *; try discriminate.
  - rewrite (Hy _ eq_refl). apply caughtAt_download.
  - now contradiction (Hc e').
Qed.

(** Without a write-stream error, [updateCardDatabase] returns a summary in
    every execution: whatever fails, it does not reject. *)
Lemma updateCardDatabase_returns w :
  exists s w', Cron.updateCardDatabase env w = (Returned s, w').
Proof.
  pose proof (updateCardDatabase_never_throws env w) as Hn.
  assert (Hc : caughtAt env Cron.updateCardDatabase).
  { unfold Cron.updateCardDatabase, selectMetadata,
      Cron.completeCardDatabaseUpdate, Cron.getCardCount, countCards,
      upsertMetadata.
    caught. apply caughtAt_updateRulesFromWotc. }
  specialize (Hc w).
  destruct (Cron.updateCardDatabase env w) as [[s|e|e|] w']; simpl in *;
    [eauto | contradiction | now contradiction (Hc e) | contradiction].
Qed.

End CaughtFacts.

(** C1: the code departs from the claim.  The rules table is empty, the
    bundled rulebook file is in place, and the download is answered with
    HTTP status 404.  [updateRulesFromWotc] does not return a result: it
    rejects with "Failed to download rules. HTTP status: 404".  The bundled
    file is never read and the rules table stays empty, so there is no
    fall-back either. *)
Theorem wotc_download_failure_escapes :
  fst (Updater.updateRulesFromWotc Samples.notFoundEnv Samples.bundledWorld)
  = Thrown {| errorMessage := lit "Failed to download rules. HTTP status: 404" |}
  /\ files Samples.bundledWorld !! Updater.localRulesFile = Some Samples.rulebook
  /\ existsb isFileRead
       (performed (snd (Updater.updateRulesFromWotc Samples.notFoundEnv
                          Samples.bundledWorld))) = false
  /\ rulesTable (snd (Updater.updateRulesFromWotc Samples.notFoundEnv
                        Samples.bundledWorld)) = [].
Proof. repeat split; vm_compute; reflexivity. Qed.

(** * Further properties *)

(** ** What the parser records *)

Section RecordFacts.

Implicit Types (s x body num : jsstring) (q : option N).

(** A global scan applies the matcher to suffixes of the subject only. *)
Lemma execAll_suffixes {A} (m : option N -> jsstring -> option (nat * A))
    (P : A -> Prop) (inv : jsstring -> Prop) :
  (forall c r, inv (c :: r) -> inv r) ->
  (forall q s n v, inv s -> m q s = Some (n, v) -> P v) ->
  forall s k q, inv s -> Forall P (execAll m k q s).
Proof.
  intros Htail Hm. induction s as [|c r IH]; intros k q Hs; simpl; [constructor|].
  pose proof (Htail _ _ Hs) as Hr.
  destruct k; [|now apply IH].
  destruct (m q (c :: r)) as [[n v]|] eqn:E; [|now apply IH].
  constructor; [eapply Hm; [exact Hs | exact E] | now apply IH].
Qed.

Lemma forallb_tail (f : N -> bool) c r :
  forallb f (c :: r) = true -> forallb f r = true.
Proof. simpl. intros H. now apply andb_prop in H. Qed.

Lemma forallb_while (f g : N -> bool) s :
  forallb f s = true -> forallb f (while g s) = true.
Proof.
  induction s as [|c r IH]; simpl; [reflexivity|].
  intros H. apply andb_prop in H as [Hc Hr].
  destruct (g c); simpl; [now rewrite Hc, IH | reflexivity].
Qed.

Lemma forallb_rev (f : N -> bool) s : forallb f (rev s) = forallb f s.
Proof.
  induction s as [|c r IH]; simpl; [reflexivity|].
  rewrite forallb_app, IH. simpl. rewrite andb_true_r. apply andb_comm.
Qed.

Lemma forallb_trim (f : N -> bool) s :
  forallb f s = true -> forallb f (trim s) = true.
Proof.
  intros H. unfold trim, trimEnd, trimStart.
  rewrite forallb_rev. apply after_keeps. rewrite forallb_rev.
  now apply after_keeps.
Qed.

Lemma forallb_skipn (f : N -> bool) n s :
  forallb f s = true -> forallb f (skipn n s) = true.
Proof.
  revert s. induction n as [|n IH]; intros [|c r]; simpl; try reflexivity;
    [auto|]. intros H. apply andb_prop in H as [Hc Hr]. now apply IH.
Qed.

Lemma forallb_removeAll (f : N -> bool) m :
  forall s k, forallb f s = true -> forallb f (removeAll m k s) = true.
Proof.
  induction s as [|c r IH]; intros k H; simpl; [reflexivity|].
  apply andb_prop in H as [Hc Hr].
  destruct k; [|now apply IH].
  destruct (m (c :: r)); [now apply IH|]. simpl. now rewrite Hc, IH.
Qed.

(** *** Examples *)

Lemma exampleAt_capture s n x :
  exampleAt s = Some (n, x) ->
  exists y, x = y ++ [46%N] /\ forallb non_dot y = true /\ trimStart y = y
            /\ exists r, skipn 8 s = r /\ y = while non_dot (after is_space r).
Proof.
  unfold exampleAt. destruct (startsWith (lit "Example:") s); [|discriminate].
  destruct (after non_dot (after is_space (skipn 8 s))) as [|d t] eqn:E;
    [discriminate|].
  intros [= _ <-]. exists (while non_dot (after is_space (skipn 8 s))).
  apply after_head in E. unfold non_dot, is_dot in E.
  apply negb_false_iff, N.eqb_eq in E. subst d.
  split; [reflexivity|]. split; [apply while_all|]. split; [|eauto].
  unfold trimStart.
  destruct (after is_space (skipn 8 s)) as [|c r] eqn:Ea; [reflexivity|].
  apply after_head in Ea. simpl. destruct (non_dot c); [|reflexivity].
  simpl. now rewrite Ea.
Qed.

Lemma findExamples_shape (P : jsstring -> Prop) (f : N -> bool) text :
  forallb f text = true ->
  (forall y, forallb non_dot y = true -> trimStart y = y ->
             forallb f y = true -> P (y ++ [46%N])) ->
  Forall P (map trim (findExamples text)).
Proof.
  intros Hf HP. apply Forall_map. unfold findExamples.
  apply (execAll_suffixes _ _ (fun s => forallb f s = true));
    [apply forallb_tail | | exact Hf].
  intros q s n x Hs Hx. apply exampleAt_capture in Hx
    as (y & -> & Hy & Ht & r & Hr & Hyr).
  rewrite <- Ht at 1. rewrite trim_capture, Ht. apply HP; try assumption.
  rewrite Hyr. apply forallb_while, after_keeps. rewrite <- Hr.
  now apply forallb_skipn.
Qed.

(** *** Keywords *)

Lemma skipn_while (f : N -> bool) s : skipn (length (while f s)) s = after f s.
Proof.
  induction s as [|c r IH]; simpl; [reflexivity|].
  destruct (f c); simpl; [exact IH | reflexivity].
Qed.

Lemma firstn_while (f : N -> bool) s : firstn (length (while f s)) s = while f s.
Proof.
  induction s as [|c r IH]; simpl; [reflexivity|].
  destruct (f c); simpl; [now rewrite IH | reflexivity].
Qed.

Lemma firstn_add n k s : firstn (n + k) s = firstn n s ++ firstn k (skipn n s).
Proof.
  revert s. induction n as [|n IH]; intros [|c r]; simpl; try reflexivity.
  - now rewrite firstn_nil.
  - now rewrite IH.
Qed.

Lemma capitalAt_word s w :
  capitalAt s = Some w ->
  exists c r, s = c :: r /\ is_upper c = true
              /\ w = 1 + length (while is_lower r)
              /\ skipn w s = after is_lower r
              /\ firstn w s = c :: while is_lower r.
Proof.
  unfold capitalAt. destruct s as [|c r]; [discriminate|].
  destruct (is_upper c) eqn:Ec; [|discriminate].
  destruct (negb (is_empty (while is_lower r))); [|discriminate].
  intros [= <-]. exists c, r. repeat split; try assumption.
  - simpl. apply skipn_while.
  - simpl. f_equal. apply firstn_while.
Qed.

Lemma lower_keyword c : is_lower c = true -> isKeywordChar c = true.
Proof. intros H. unfold isKeywordChar. rewrite H. now rewrite orb_true_r. Qed.

Lemma space_keyword c : is_space c = true -> isKeywordChar c = true.
Proof. intros H. unfold isKeywordChar. rewrite H. now rewrite !orb_true_r. Qed.

Lemma upper_keyword c : is_upper c = true -> isKeywordChar c = true.
Proof. intros H. unfold isKeywordChar. now rewrite H. Qed.

Lemma keywordTail_chars :
  forall fuel s n, keywordTail fuel s = Some n ->
    forallb isKeywordChar (firstn n s) = true.
Proof.
  induction fuel as [|fuel IH]; intros s n; simpl.
  - destruct (boundaryBefore s); [|discriminate]. now intros [= <-].
  - assert (Hstop : (if boundaryBefore s then Some 0 else None) = Some n ->
                    forallb isKeywordChar (firstn n s) = true).
    { destruct (boundaryBefore s); [|discriminate]. now intros [= <-]. }
    destruct (is_empty (while is_space s)); [exact Hstop|].
    destruct (capitalAt (after is_space s)) as [w|] eqn:Ew; [|exact Hstop].
    destruct (keywordTail fuel (skipn w (after is_space s))) as [n'|] eqn:Et;
      [|exact Hstop].
    intros [= <-]. apply IH in Et.
    apply capitalAt_word in Ew as (c & r & Er & Hc & Hw & Hskip & Hfirst).
    rewrite <- Nat.add_assoc, firstn_add, firstn_while, skipn_while.
    rewrite firstn_add, !forallb_app, Et, Hfirst, andb_true_r.
    rewrite (forallb_weaken _ _ _ space_keyword (while_all is_space s)).
    simpl. rewrite (upper_keyword _ Hc).
    apply (forallb_weaken _ _ _ lower_keyword (while_all is_lower r)).
Qed.

Lemma keywordAt_shape q s n x :
  keywordAt q s = Some (n, x) ->
  forallb isKeywordChar x = true
  /\ exists c r, x = c :: r /\ is_upper c = true.
Proof.
  unfold keywordAt.
  destruct (match q with Some p => negb (is_word p) | None => true end);
    [|discriminate].
  destruct (capitalAt s) as [w|] eqn:Ew; [|discriminate].
  destruct (keywordTail (length s) (skipn w s)) as [t|] eqn:Et; [|discriminate].
  intros [= _ <-]. apply keywordTail_chars in Et.
  apply capitalAt_word in Ew as (c & r & Er & Hc & Hw & Hskip & Hfirst).
  rewrite firstn_add, Hfirst. split.
  - rewrite forallb_app, Et, andb_true_r. simpl. rewrite (upper_keyword _ Hc).
    apply (forallb_weaken _ _ _ lower_keyword (while_all is_lower r)).
  - simpl. eauto.
Qed.

End RecordFacts.

Section ParsedRecordFacts.

Implicit Types (s body num : jsstring) (q : option N).

Lemma ruleNumberAt_split s num rest :
  ruleNumberAt s = Some (num, rest) -> s = num ++ rest.
Proof.
  unfold ruleNumberAt.
  destruct s as [|d1 [|d2 [|d3 [|dot r]]]]; try discriminate.
  destruct (is_digit d1 && is_digit d2 && is_digit d3 && is_dot dot);
    [|discriminate].
  destruct (is_empty (while is_digit r)); [discriminate|].
  intros [= <- <-]. simpl. do 4 f_equal.
  now rewrite <- app_assoc, (while_after is_lower), (while_after is_digit).
Qed.

(** What a match of the rule pattern looks like. *)
Lemma ruleAt_entry_inv q s n num body :
  ruleAt q s = Some (n, (num, body)) ->
  exists sp tail,
    s = num ++ lit "." ++ sp ++ body ++ tail
    /\ isRuleNumber num = true
    /\ sp <> [] /\ forallb is_space sp = true
    /\ forallb non_digit body = true
    /\ ruleAhead tail = true.
Proof.
  intros H. pose proof (ruleAt_shape _ _ _ _ _ H) as Hnum. revert H.
  unfold ruleAt.
  destruct (ruleNumberAt s) as [[num' [|c r]]|] eqn:E; try discriminate.
  destruct (is_dot c) eqn:Ec; [|discriminate].
  destruct (is_empty (while is_space r)) eqn:Ew; [discriminate|].
  destruct (ruleAhead (after non_digit (after is_space r))) eqn:Ea;
    [|discriminate].
  intros [= _ <- <-].
  exists (while is_space r), (after non_digit (after is_space r)).
  apply ruleNumberAt_split in E. unfold is_dot in Ec. apply N.eqb_eq in Ec.
  subst c s. repeat split; try assumption.
  - change (lit ".") with [46%N]. simpl app. do 2 f_equal.
    now rewrite (while_after non_digit), (while_after is_space).
  - intros Hn. now rewrite Hn in Ew.
  - apply while_all.
  - apply while_all.
Qed.

Lemma execAll_In {A} (m : option N -> jsstring -> option (nat * A)) v :
  forall s k q, In v (execAll m k q s) ->
    exists pre suf q' n, s = pre ++ suf /\ m q' suf = Some (n, v).
Proof.
  induction s as [|c r IH]; intros k q; simpl; [contradiction|].
  assert (Hrest : forall k' q', In v (execAll m k' q' r) ->
            exists pre suf q'' n, c :: r = pre ++ suf /\ m q'' suf = Some (n, v)).
  { intros k' q' H. destruct (IH _ _ H) as (pre & suf & q'' & n & -> & Hm).
    exists (c :: pre), suf, q'', n. now split. }
  destruct k; [|apply Hrest].
  destruct (m q (c :: r)) as [[n w]|] eqn:E; [|apply Hrest].
  intros [<-|H]; [|eapply Hrest; exact H].
  exists [], (c :: r), q, n. now split.
Qed.

Lemma collectRules_In_inv chapters sections r ms :
  forall c x, In r (collectRules chapters sections c x ms) ->
    exists num body c' x',
      In (num, body) ms /\ 10 < length (trim body)
      /\ r = createRuleEntry num (trim body) c' x'.
Proof.
  induction ms as [|[num body] ms IH]; intros c x; simpl; [contradiction|].
  assert (Hrest : forall c' x', In r (collectRules chapters sections c' x' ms) ->
            exists num' body' c'' x'',
              ((num, body) = (num', body') \/ In (num', body') ms)
              /\ 10 < length (trim body')
              /\ r = createRuleEntry num' (trim body') c'' x'').
  { intros c' x' H. destruct (IH _ _ H) as (n' & b' & c'' & x'' & Hin & Hl & Hr).
    exists n', b', c'', x''. auto. }
  destruct (Nat.ltb_spec 10 (length (trim body))) as [Hlt|]; [|apply Hrest].
  intros [<-|H]; [|eapply Hrest; exact H].
  eexists num, body, _, _. split; [now left|]. split; [exact Hlt | reflexivity].
Qed.

(** A title is a text without digits that is not empty. *)
Lemma titleAt_title ahead s n t :
  titleAt ahead s = Some (n, t) ->
  forallb non_digit (trim t) = true /\ trim t <> [].
Proof.
  unfold titleAt. destruct s as [|dot r]; [discriminate|].
  destruct (is_dot dot); [|discriminate].
  destruct (is_empty (while is_space r)); [discriminate|].
  destruct (after is_space r) as [|c r1]; [discriminate|].
  destruct (is_upper c) eqn:Ec; [|discriminate].
  destruct (ahead _); [|discriminate].
  intros [= _ <-].
  assert (Hd : non_digit c = true).
  { unfold non_digit, is_digit, is_upper in *. apply negb_true_iff.
    apply andb_prop in Ec as [Ec _]. apply N.leb_le in Ec.
    apply andb_false_iff. right. apply N.leb_gt. lia. }
  assert (Hs : is_space c = false).
  { unfold is_upper in Ec. apply andb_prop in Ec as [E1 E2].
    apply N.leb_le in E1. apply N.leb_le in E2. unfold is_space.
    rewrite !orb_false_iff, !andb_false_iff, !N.leb_gt, !N.eqb_neq. lia. }
  split.
  - apply forallb_trim. simpl. rewrite Hd. apply while_all.
  - unfold trim, trimStart, trimEnd. rewrite after_stop by exact Hs.
    intros H. apply (f_equal (@rev N)) in H. rewrite rev_involutive in H.
    simpl in H.
    assert (Hin : In c (after is_space (rev (while non_digit r1) ++ [c]))).
    { generalize (rev (while non_digit r1)). intros l.
      induction l as [|d l IH]; simpl; [rewrite Hs; now left|].
      destruct (is_space d); [exact IH|]. right. apply in_or_app. right.
      now left. }
    rewrite H in Hin. contradiction.
Qed.

Lemma titleMap_values (P : jsstring -> Prop) ms :
  Forall (fun p => P (trim (snd p))) ms ->
  forall k v, titleMap ms !! k = Some v -> P v.
Proof.
  unfold titleMap. intros Hms.
  assert (Hgen : forall (acc : gmap N jsstring),
            (forall k v, acc !! k = Some v -> P v) ->
            forall k v,
              fold_left (fun m p => <[digitsValue (fst p) := trim (snd p)]> m)
                ms acc !! k = Some v -> P v).
  { induction Hms as [|p ms Hp _ IH]; intros acc Hacc; simpl; [exact Hacc|].
    apply IH. intros k v. rewrite lookup_insert. case_decide.
    - intros [= <-]. exact Hp.
    - apply Hacc. }
  apply Hgen. intros k v. rewrite lookup_empty. discriminate.
Qed.

Lemma chapter_titles s :
  forall k v, titleMap (execAll chapterAt 0 None s) !! k = Some v ->
    forallb non_digit v = true /\ v <> [].
Proof.
  apply (titleMap_values (fun v => forallb non_digit v = true /\ v <> [])).
  apply execAll_Forall. intros q t n [ds title]. unfold chapterAt.
  destruct (is_empty (while is_digit t)); [discriminate|].
  destruct (titleAt chapterAhead (after is_digit t)) as [[m u]|] eqn:E;
    [|discriminate].
  intros [= _ _ <-]. eapply titleAt_title; exact E.
Qed.

Lemma section_titles s :
  forall k v, titleMap (execAll sectionAt 0 None s) !! k = Some v ->
    forallb non_digit v = true /\ v <> [].
Proof.
  apply (titleMap_values (fun v => forallb non_digit v = true /\ v <> [])).
  apply execAll_Forall. intros q t n [ds title]. unfold sectionAt.
  destruct t as [|d1 [|d2 [|d3 r]]]; try discriminate.
  destruct (is_digit d1 && is_digit d2 && is_digit d3); [|discriminate].
  destruct (titleAt sectionAhead r) as [[m u]|] eqn:E; [|discriminate].
  intros [= _ _ <-]. eapply titleAt_title; exact E.
Qed.

Lemma lookupOr_keeps (P : jsstring -> Prop) table key current :
  (forall k v, table !! k = Some v -> P v) -> P current ->
  P (lookupOr table key current).
Proof.
  intros Ht Hc. unfold lookupOr. destruct (table !! key) as [t|] eqn:E;
    [|exact Hc].
  destruct (is_empty t); [exact Hc | eapply Ht; exact E].
Qed.

Lemma collectRules_records (P : RuleEntry -> Prop) chapters sections ms :
  (forall k v, chapters !! k = Some v -> forallb non_digit v = true /\ v <> []) ->
  (forall k v, sections !! k = Some v -> forallb non_digit v = true /\ v <> []) ->
  (forall num body c x,
     isRuleNumber num = true ->
     forallb non_digit body = true ->
     10 < length body ->
     forallb non_digit c = true -> c <> [] ->
     forallb non_digit x = true ->
     P (createRuleEntry num body c x)) ->
  Forall (fun m => isRuleNumber (fst m) = true
                   /\ forallb non_digit (snd m) = true) ms ->
  forall c x,
    forallb non_digit c = true -> c <> [] -> forallb non_digit x = true ->
    Forall P (collectRules chapters sections c x ms).
Proof.
  intros Hch Hse HP Hms.
  induction Hms as [|[num body] ms [Hn Hb] _ IH]; intros c x Hc Hne Hx; simpl;
    [constructor|].
  destruct (Nat.ltb_spec 10 (length (trim body))) as [Hlt|]; [|now apply IH].
  destruct (lookupOr_keeps
              (fun v => forallb non_digit v = true /\ v <> [])
              chapters (digitsValue (beforeDot num) / 100)%N c Hch
              (conj Hc Hne)) as [Hc1 Hc2].
  assert (Hx' := lookupOr_keeps (fun v => forallb non_digit v = true)
                   sections (digitsValue (beforeDot num)) x
                   (fun k v H => proj1 (Hse k v H)) Hx).
  constructor; [|now apply IH].
  apply HP; try assumption. now apply forallb_trim.
Qed.

(** Every record is [createRuleEntry] of a matched rule number, of a matched
    body without digits, trimmed and longer than 10 characters, of a chapter
    title and of a section title (or of no section). *)
Lemma parse_records (P : RuleEntry -> Prop) rulesText :
  (forall num body c x,
     isRuleNumber num = true ->
     forallb non_digit body = true ->
     10 < length body ->
     forallb non_digit c = true -> c <> [] ->
     forallb non_digit x = true ->
     P (createRuleEntry num body c x)) ->
  Forall P (parseComprehensiveRules rulesText).
Proof.
  intros HP. unfold parseComprehensiveRules.
  destruct (indexOf anchor rulesText) as [i|]; [|constructor].
  unfold substring.
  apply collectRules_records; try assumption.
  - apply chapter_titles.
  - apply section_titles.
  - apply execAll_Forall. intros q s n [num body] H.
    apply ruleAt_entry_inv in H as (sp & tail & _ & Hn & _ & _ & Hb & _).
    now split.
  - reflexivity.
  - discriminate.
  - reflexivity.
Qed.

End ParsedRecordFacts.

Section NumberingFacts.

Implicit Types (s t num : jsstring).



End NumberingFacts.



Section FieldFacts.

Implicit Types (s body num : jsstring).

Lemma keyword_no_digit c : isKeywordChar c = true -> non_digit c = true.
Proof.
  unfold isKeywordChar, non_digit, is_upper, is_lower, is_space, is_digit.
  rewrite negb_true_iff, !orb_true_iff, !andb_true_iff, andb_false_iff,
    !N.leb_le, !N.leb_gt, !N.eqb_eq. lia.
Qed.

Lemma keywords_shape text :
  Forall (fun k => forallb isKeywordChar k = true
                   /\ exists c r, k = c :: r /\ is_upper c = true)
    (firstn 10 (execAll keywordAt 0 None text)).
Proof.
  apply Forall_take, execAll_Forall.
  intros q s n x H. eapply keywordAt_shape; exact H.
Qed.

Lemma subsection_of_number num body c x :
  isRuleNumber num = true ->
  subsection (createRuleEntry num body c x) = skipn 4 num
  /\ num = firstn 3 num ++ lit "." ++ skipn 4 num
  /\ forallb is_digit (firstn 3 num) = true
  /\ skipn 4 num <> [].
Proof.
  destruct num as [|d1 [|d2 [|d3 [|dot r]]]]; try discriminate.
  unfold isRuleNumber. intros H.
  apply andb_prop in H as [H Hl]. apply andb_prop in H as [H Hd].
  apply andb_prop in H as [H H4]. apply andb_prop in H as [H H3].
  apply andb_prop in H as [H1 H2].
  unfold is_dot in H4. apply N.eqb_eq in H4. subst dot.
  assert (Hr : forallb non_dot r = true).
  { rewrite <- (while_after is_digit r), forallb_app.
    apply andb_true_intro. split.
    - apply (forallb_weaken is_digit); [|apply while_all].
      intros c0 Hc0. unfold non_dot. now rewrite digit_not_dot.
    - revert Hl. apply forallb_weaken. intros c0 Hc0.
      unfold non_dot, is_dot, is_lower in *. apply negb_true_iff, N.eqb_neq.
      apply andb_prop in Hc0 as [Hc0 _]. apply N.leb_le in Hc0. lia. }
  assert (N1 : non_dot d1 = true) by (unfold non_dot; now rewrite digit_not_dot).
  assert (N2 : non_dot d2 = true) by (unfold non_dot; now rewrite digit_not_dot).
  assert (N3 : non_dot d3 = true) by (unfold non_dot; now rewrite digit_not_dot).
  repeat split.
  - unfold createRuleEntry, subsection, includes, afterFirstDot.
    destruct (indexOf (lit ".") (d1 :: d2 :: d3 :: 46%N :: r)) eqn:Hi.
    2:{ exfalso. revert Hi. apply indexOf_present.
        now exists [d1; d2; d3], r. }
    simpl after. rewrite N1, N2, N3. simpl.
    rewrite <- (app_nil_r r) at 1. rewrite while_app by exact Hr.
    now rewrite app_nil_r.
  - simpl. now rewrite H1, H2, H3.
  - simpl. destruct r; [discriminate|]. discriminate.
Qed.

End FieldFacts.

(** X1.  [createRuleEntry] records at most 10 keywords, and every keyword
    it records begins with an upper-case letter and consists of letters and
    white space only. *)
Theorem keywords_capitalised (number body chapter section : jsstring) :
  length (keywords (createRuleEntry number body chapter section)) <= 10
  /\ Forall (fun k => forallb isKeywordChar k = true
                      /\ exists c r, k = c :: r /\ is_upper c = true)
       (keywords (createRuleEntry number body chapter section)).
Proof.
  unfold createRuleEntry, keywords. split.
  - rewrite length_firstn. lia.
  - apply keywords_shape.
Qed.

(** X2.  Every example [createRuleEntry] records is one sentence: it ends
    with a full stop, which is its only one, and it does not begin with
    white space. *)
Theorem examples_are_sentences (number body chapter section : jsstring) :
  Forall (fun e => exists y, e = y ++ lit "."
                             /\ forallb non_dot y = true
                             /\ trimStart y = y)
    (examples (createRuleEntry number body chapter section)).
Proof.
  unfold createRuleEntry, examples.
  apply (findExamples_shape _ (fun _ => true)).
  - now apply forallb_forall.
  - intros y Hy Ht _. now exists y.
Qed.

(** X3.  The rule number of every record the parser produces is its
    three-digit section prefix, a dot, and its subsection, and the
    subsection is not empty. *)
Theorem rule_number_splits (rulesText : jsstring) :
  Forall (fun r => ruleNumber r
                   = firstn 3 (ruleNumber r) ++ lit "." ++ subsection r
                   /\ forallb is_digit (firstn 3 (ruleNumber r)) = true
                   /\ subsection r <> [])
    (parseComprehensiveRules rulesText).
Proof.
  apply parse_records. intros num body c x Hn _ _ _ _ _.
  destruct (subsection_of_number num body c x Hn) as (Hs & Hsplit & Hd & Hne).
  rewrite Hs. rewrite createRuleEntry_number. auto.
Qed.

(** X4.  Apart from the rule number and the subsection, no field of a
    parsed record holds a decimal digit: neither the text, nor an example,
    nor a keyword, nor the chapter, nor the section.  (A rule body ends at
    the first digit.) *)
Theorem records_hold_no_digits (rulesText : jsstring) :
  Forall (fun r => forallb non_digit (text r) = true
                   /\ Forall (fun e => forallb non_digit e = true) (examples r)
                   /\ Forall (fun k => forallb non_digit k = true) (keywords r)
                   /\ forallb non_digit (chapter r) = true
                   /\ forallb non_digit (section r) = true)
    (parseComprehensiveRules rulesText).
Proof.
  apply parse_records. intros num body c x _ Hb _ Hc _ Hx.
  unfold createRuleEntry; simpl. repeat split; try assumption.
  - apply forallb_trim. unfold removeExamples. now apply forallb_removeAll.
  - apply (findExamples_shape _ non_digit); [exact Hb|].
    intros y _ _ Hy. rewrite forallb_app, Hy. reflexivity.
  - eapply Forall_impl; [apply keywords_shape|].
    intros k [Hk _]. revert Hk. apply forallb_weaken, keyword_no_digit.
Qed.

(** X5.  Every record the parser produces has a chapter that is not empty:
    the title of a matched chapter heading, or the default
    "Game Concepts". *)
Theorem chapter_never_empty (rulesText : jsstring) :
  Forall (fun r => chapter r <> []) (parseComprehensiveRules rulesText).
Proof.
  apply parse_records. intros num body c x _ _ _ _ Hc _. exact Hc.
Qed.

(** X6.  The parser invents no rule: every record it produces stems from
    an entry of the text that lies at or after the first occurrence of the
    anchor, made of a rule number, a dot, white space and a digit-free body
    of more than 10 characters once trimmed, followed by the next rule
    number or the end of the text; the record carries that number and the
    trimmed body with its examples cut out. *)
Theorem records_stem_from_entries (rulesText : jsstring) :
  Forall (fun r => exists before mid num sp body tail,
            rulesText = before ++ mid ++ num ++ lit "." ++ sp ++ body ++ tail
            /\ indexOf anchor rulesText = Some (length before)
            /\ isRuleNumber num = true
            /\ sp <> [] /\ forallb is_space sp = true
            /\ forallb non_digit body = true
            /\ 10 < length (trim body)
            /\ ruleAhead tail = true
            /\ ruleNumber r = num
            /\ text r = trim (removeExamples (trim body)))
    (parseComprehensiveRules rulesText).
Proof.
  apply List.Forall_forall. intros r. unfold parseComprehensiveRules.
  destruct (indexOf anchor rulesText) as [i|] eqn:Ei; [|intros []].
  destruct (indexOf_found _ _ _ Ei) as (a & b & Hs & Ha).
  intros Hin. apply collectRules_In_inv in Hin
    as (num & body & c & x & Hm & Hlen & ->).
  apply execAll_In in Hm as (mid & suf & q & n & Hsplit & Hm).
  apply ruleAt_entry_inv in Hm as (sp & tail & -> & Hnum & Hsp & Hspace & Hb & Ht).
  exists a, mid, num, sp, body, tail. subst i.
  split; [|repeat split; assumption].
  rewrite <- Hsplit. unfold substring. rewrite Hs at 1.
  now rewrite Hs, drop_app_length.
Qed.

(** X7.  Whatever precedes the first occurrence of the anchor
    "1. Game Concepts" is ignored: parsing a text gives the same records as
    parsing it from that occurrence on. *)
Theorem text_before_anchor_ignored (rulesText : jsstring) (i : nat) :
  indexOf anchor rulesText = Some i ->
  parseComprehensiveRules rulesText
  = parseComprehensiveRules (substring i rulesText).
Proof.
  intros Hi. destruct (indexOf_found _ _ _ Hi) as (a & b & Hs & Ha).
  unfold parseComprehensiveRules at 1. rewrite Hi.
  assert (Hc : substring i rulesText = anchor ++ b).
  { unfold substring. subst i. now rewrite Hs, drop_app_length. }
  rewrite Hc. unfold parseComprehensiveRules.
  rewrite indexOf_start by apply startsWith_app.
  reflexivity.
Qed.

Lemma text_before_anchor_ignored_witness :
  parseComprehensiveRules (lit "Contents 100.1. " ++ Samples.rulebook)
  = parseComprehensiveRules
      (substring 20 (lit "Contents 100.1. " ++ Samples.rulebook)).
Proof.
  apply (text_before_anchor_ignored
           (lit "Contents 100.1. " ++ Samples.rulebook) 20).
  vm_compute. reflexivity.
Defined.

(** ** The rules table after an update *)

Section ReplaceFacts.

Local Open Scope host_scope.

(** [updateRulesDatabase] when the file is read, the delete succeeds and the
    text holds a rule: the first insert ends it. *)
Lemma updateRulesDatabase_rejects env w filePath rulesText :
  files w !! filePath = Some rulesText ->
  fault env (length (performed w)) = None ->
  fault env (S (length (performed w))) = None ->
  parseComprehensiveRules rulesText <> [] ->
  Updater.updateRulesDatabase filePath env w
  = (Thrown match fault env (S (S (length (performed w)))) with
            | Some e => e
            | None => notNullViolation
            end,
     record (InsertRules (firstn 100 (parseComprehensiveRules rulesText)))
       (setRules [] (record DeleteRules (record (ReadFile filePath) w)))).
Proof.
  intros Hfile Hread Hdelete Hparsed. unfold Updater.updateRulesDatabase.
  rewrite run_tryCatch, run_bind.
  rewrite (readFileSync_ok _ _ _ _ Hread Hfile).
  rewrite run_bind, deleteRules_ok by exact Hdelete.
  rewrite insertBatches_run.
  - reflexivity.
  - destruct (parseComprehensiveRules rulesText); [contradiction | simpl; lia].
  - lia.
Qed.

(** A read ends with the text of the file or with an error, and a delete
    with the table empty or with an error. *)
Lemma readFileSync_cases env w path :
  (exists t, readFileSync path env w = (Returned t, record (ReadFile path) w))
  \/ (exists e, readFileSync path env w = (Thrown e, record (ReadFile path) w)).
Proof.
  destruct (fault env (length (performed w))) as [e|] eqn:Hf.
  - right. exists e. unfold readFileSync. rewrite run_bind. unfold attempt.
    now rewrite Hf.
  - destruct (files w !! path) as [t|] eqn:Hfile.
    + left. exists t. now apply readFileSync_ok.
    + right. exists ENOENT. unfold readFileSync.
      rewrite run_bind, attempt_ok by exact Hf.
      rewrite run_bind. unfold get at 1.
      change (files (record (ReadFile path) w)) with (files w).
      now rewrite Hfile.
Qed.

Lemma deleteRules_cases env w :
  deleteRules env w = (Returned tt, setRules [] (record DeleteRules w))
  \/ (exists e, deleteRules env w = (Thrown e, record DeleteRules w)).
Proof.
  destruct (fault env (length (performed w))) as [e|] eqn:Hf.
  - right. exists e. unfold deleteRules. rewrite run_bind. unfold attempt.
    now rewrite Hf.
  - left. now apply deleteRules_ok.
Qed.

End ReplaceFacts.

(** X8.  When the file cannot be read (it does not exist, or the read
    fails), [updateRulesDatabase] rejects before it touches the database:
    the read is the only operation attempted and the rules table is as
    before. *)
Theorem unreadable_file_keeps_rules (env : Env) (w : World) (filePath : string) :
  files w !! filePath = None \/ fault env (length (performed w)) <> None ->
  exists e w',
    Updater.updateRulesDatabase filePath env w = (Thrown e, w')
    /\ rulesTable w' = rulesTable w
    /\ performed w' = ReadFile filePath :: performed w.
Proof.
  intros Hunreadable. unfold Updater.updateRulesDatabase.
  rewrite run_tryCatch, run_bind. unfold readFileSync.
  rewrite run_bind. unfold attempt.
  destruct (fault env (length (performed w))) as [e|].
  - exists e, (record (ReadFile filePath) w). auto.
  - destruct Hunreadable as [Hfile|Hfault]; [|congruence].
    rewrite run_bind. unfold get at 1.
    change (files (record (ReadFile filePath) w)) with (files w).
    rewrite Hfile. exists ENOENT, (record (ReadFile filePath) w). auto.
Qed.

Lemma unreadable_file_keeps_rules_witness :
  exists e w',
    Updater.updateRulesDatabase Updater.localRulesFile
      (Samples.failingAt 0 (Response 404 [] None)) (Samples.rulebookWorld 3)
    = (Thrown e, w')
    /\ rulesTable w' = rulesTable (Samples.rulebookWorld 3)
    /\ performed w'
       = ReadFile Updater.localRulesFile :: performed (Samples.rulebookWorld 3).
Proof.
  apply (unreadable_file_keeps_rules
           (Samples.failingAt 0 (Response 404 [] None))
           (Samples.rulebookWorld 3) Updater.localRulesFile).
  right. simpl. discriminate.
Defined.

(** X9.  [updateRulesDatabase] loses the rules it replaces.  When the file
    is read, the delete succeeds and the text holds at least one rule, the
    call issues one insert, of the first batch, and rejects: the database
    refuses the records (or the insert fails otherwise).  The rules table is
    left empty: the rules it held before are gone and no new one is
    stored. *)
Theorem first_insert_loses_rules (env : Env) (w : World) (filePath : string)
    (rulesText : jsstring) :
  files w !! filePath = Some rulesText ->
  fault env (length (performed w)) = None ->
  fault env (S (length (performed w))) = None ->
  parseComprehensiveRules rulesText <> [] ->
  exists e w',
    Updater.updateRulesDatabase filePath env w = (Thrown e, w')
    /\ rulesTable w' = []
    /\ insertsOf (performed w')
       = insertsOf (performed w)
         ++ [firstn 100 (parseComprehensiveRules rulesText)].
Proof.
  intros Hfile Hread Hdelete Hparsed.
  rewrite (updateRulesDatabase_rejects env w filePath rulesText)
    by assumption.
  eexists _, _. split; [reflexivity|]. split; reflexivity.
Qed.

Lemma first_insert_loses_rules_witness :
  exists e w',
    Updater.updateRulesDatabase Updater.localRulesFile Samples.notFoundEnv
      (Samples.rulebookWorld 3) = (Thrown e, w')
    /\ rulesTable w' = []
    /\ insertsOf (performed w')
       = insertsOf (performed (Samples.rulebookWorld 3))
         ++ [firstn 100 (parseComprehensiveRules (Samples.longRulebook 3))].
Proof.
  apply (first_insert_loses_rules Samples.notFoundEnv (Samples.rulebookWorld 3)
           Updater.localRulesFile (Samples.longRulebook 3)).
  - vm_compute. reflexivity.
  - reflexivity.
  - reflexivity.
  - vm_compute. discriminate.
Defined.

(** X10.  [updateRulesDatabase] never adds a rule: after any call, however
    it ends, the rules table is as it was before or it is empty. *)
Theorem rules_never_added (env : Env) (w : World) (filePath : string) :
  rulesTable (snd (Updater.updateRulesDatabase filePath env w)) = rulesTable w
  \/ rulesTable (snd (Updater.updateRulesDatabase filePath env w)) = [].
Proof.
  unfold Updater.updateRulesDatabase. rewrite run_tryCatch, run_bind.
  destruct (readFileSync_cases env w filePath) as [[rulesText ->]|[e ->]];
    [|now left].
  rewrite run_bind.
  destruct (deleteRules_cases env (record (ReadFile filePath) w))
    as [->|[e ->]]; [|now left].
  right.
  set (w2 := setRules [] (record DeleteRules (record (ReadFile filePath) w))).
  pose proof (insertBatches_table env (parseComprehensiveRules rulesText)
                (length (parseComprehensiveRules rulesText)) 0 w2) as Ht.
  destruct (Updater.insertBatches _ _ 0 env w2) as [[[]|e|e|] w3];
    exact Ht.
Qed.

(** ** The download and the fall-back *)

Section DownloadFacts.

Local Open Scope host_scope.

Lemma attemptDownload_query_fails env w e :
  fault env (length (performed w)) = Some e ->
  Updater.attemptDownload env w = (Thrown e, record SelectRules w).
Proof.
  intros H. unfold Updater.attemptDownload, selectRulesLimit1.
  rewrite !run_bind. unfold attempt. now rewrite H.
Qed.

(** The [try] block up to [return new Promise(...)], when the query is
    answered and the age check does not stop it. *)
Lemma attemptDownload_proceeds env w :
  fault env (length (performed w)) = None ->
  fault env (S (length (performed w))) = None ->
  checkedAge (now env) (rulesTable w) = None ->
  exists w1 evs,
    Updater.attemptDownload env w
    = (Returned (Updater.Promise Updater.download), w1)
    /\ rulesTable w1 = rulesTable w
    /\ files w1 = files w
    /\ metadata w1 = metadata w
    /\ performed w1 = evs ++ SelectRules :: performed w
    /\ (evs = [] \/ evs = [Mkdir Updater.tempDir]).
Proof.
  intros Hok Hok' Hage. unfold Updater.attemptDownload.
  rewrite run_bind, selectRules_ok by exact Hok.
  rewrite run_bind. unfold ask at 1.
  assert (Hrecent :
    match firstn 1 (rulesTable w) with
    | row :: _ => Updater.updatedWithinWeek (now env) (createdAt row)
    | [] => None
    end = None).
  { destruct (rulesTable w) as [|row rest]; [reflexivity | exact Hage]. }
  rewrite Hrecent.
  rewrite run_bind. unfold existsSync at 1. rewrite run_bind. unfold get at 1.
  unfold ret at 1. rewrite run_bind.
  destruct (bool_decide (is_Some (files (record SelectRules w) !! Updater.tempDir))
            || bool_decide (Updater.tempDir ∈ directories (record SelectRules w))).
  - simpl. eexists _, []. repeat split; auto.
  - change (negb false) with true. cbv iota. unfold mkdirSync.
    rewrite run_bind, attempt_ok by exact Hok'.
    eexists _, [Mkdir Updater.tempDir]. repeat split; auto.
Qed.

(** The executor up to the callback of [https.get]. *)
Lemma download_starts env w :
  Updater.download env w
  = match httpReply env with
    | NetworkError err =>
        (Thrown {| errorMessage :=
                     lit "Network error downloading rules: " ++ errorMessage err |},
         record (HttpGet Updater.rulesUrl)
           (setFiles (<[Updater.tempFilePath := []]> (files w))
              (record (CreateWriteStream Updater.tempFilePath) w)))
    | Response statusCode body streamError =>
        (if (statusCode =? 200)%Z then
           match streamError with
           | None =>
               piped Updater.tempFilePath body ;;
               tryCatch
                 (Updater.updateRulesDatabase Updater.tempFilePath ;;
                  unlinkSync Updater.tempFilePath ;;
                  ret {| success := true;
                         message := lit "Comprehensive rules updated successfully from official source" |})
                 (fun updateError =>
                    throw {| errorMessage :=
                               lit "Failed to process downloaded rules: "
                               ++ errorMessage updateError |})
           | Some err =>
               inListener (unlinkSync Updater.tempFilePath) ;;
               throw {| errorMessage :=
                          lit "Failed to save rules file: " ++ errorMessage err |}
           end
         else
           throw {| errorMessage :=
                      lit "Failed to download rules. HTTP status: "
                      ++ showZ statusCode |})
          env
          (record (HttpGet Updater.rulesUrl)
             (setFiles (<[Updater.tempFilePath := []]> (files w))
                (record (CreateWriteStream Updater.tempFilePath) w)))
    end.
Proof.
  unfold Updater.download. rewrite run_bind. unfold createWriteStream at 1.
  rewrite run_bind. unfold note at 1. unfold modify at 1.
  rewrite run_bind. unfold note at 1. rewrite run_bind. unfold ask at 1.
  destruct (httpReply env); reflexivity.
Qed.

(** The [catch] block never rejects. *)
Lemma fallback_settles e env w :
  match fst (Updater.fallback e env w) with
  | Thrown _ => False
  | _ => True
  end.
Proof.
  unfold Updater.fallback. rewrite run_tryCatch, run_bind.
  destruct (Updater.updateRulesFromFile env w) as [[[]|e'|e'|] w']; exact I.
Qed.

Lemma guarded_download_settles env w :
  match fst (tryCatch Updater.attemptDownload Updater.fallback env w) with
  | Thrown _ => False
  | _ => True
  end.
Proof.
  rewrite run_tryCatch.
  destruct (Updater.attemptDownload env w) as [[r|e|e|] w'] eqn:E; try exact I.
  apply fallback_settles.
Qed.

End DownloadFacts.

(** X11.  When the query for an existing rule fails, nothing is downloaded
    and the bundled rulebook is loaded instead.  With that file in place and
    holding at least one rule, the load deletes the rule records and is then
    refused at its first insert, so [updateRulesFromWotc] returns
    [success: false] with a message that names both failures, and the rules
    table is left empty. *)
Theorem rules_query_failure_falls_back (env : Env) (w : World) (e : Error)
    (rulesText : jsstring) :
  fault env (length (performed w)) = Some e ->
  fault env (S (length (performed w))) = None ->
  fault env (S (S (length (performed w)))) = None ->
  files w !! Updater.localRulesFile = Some rulesText ->
  parseComprehensiveRules rulesText <> [] ->
  exists cause w',
    Updater.updateRulesFromWotc env w
    = (Returned {| success := false;
                   message := lit "Failed to update rules: " ++ errorMessage e
                              ++ lit ". Fallback also failed: "
                              ++ errorMessage cause |},
       w')
    /\ rulesTable w' = []
    /\ existsb isNetworkCall (performed w') = existsb isNetworkCall (performed w).
Proof.
  intros Hfail Hread Hdelete Hfile Hparsed. unfold Updater.updateRulesFromWotc.
  rewrite run_bind, run_tryCatch.
  rewrite (attemptDownload_query_fails _ _ _ Hfail).
  unfold Updater.fallback. rewrite run_tryCatch, run_bind.
  unfold Updater.updateRulesFromFile. rewrite run_bind.
  unfold existsSync at 1. rewrite run_bind. unfold get at 1. unfold ret at 1.
  change (files (record SelectRules w)) with (files w). rewrite Hfile.
  rewrite bool_decide_eq_true_2 by eauto. rewrite orb_true_l.
  change (negb true) with false. cbv iota.
  rewrite (updateRulesDatabase_rejects env (record SelectRules w)
             Updater.localRulesFile rulesText Hfile Hread Hdelete Hparsed).
  eexists _, _. split; [reflexivity|]. split; reflexivity.
Qed.

Lemma rules_query_failure_falls_back_witness :
  exists cause w',
    Updater.updateRulesFromWotc
      (Samples.failingAt 0 (Response 200 Samples.twoLetterRulebook None))
      (Samples.rulebookWorld 3)
    = (Returned {| success := false;
                   message := lit "Failed to update rules: "
                              ++ errorMessage Samples.connectionLost
                              ++ lit ". Fallback also failed: "
                              ++ errorMessage cause |},
       w')
    /\ rulesTable w' = []
    /\ existsb isNetworkCall (performed w')
       = existsb isNetworkCall (performed (Samples.rulebookWorld 3)).
Proof.
  apply (rules_query_failure_falls_back
           (Samples.failingAt 0 (Response 200 Samples.twoLetterRulebook None))
           (Samples.rulebookWorld 3) Samples.connectionLost
           (Samples.longRulebook 3)).
  - reflexivity.
  - reflexivity.
  - reflexivity.
  - vm_compute. reflexivity.
  - vm_compute. discriminate.
Defined.

(** X12.  When the query for an existing rule fails and the bundled
    rulebook is missing too, [updateRulesFromWotc] still does not reject: it
    returns [success: false] with a message that names both failures, and
    the query is the only operation it has attempted. *)
Theorem fallback_failure_reported (env : Env) (w : World) (e : Error) :
  fault env (length (performed w)) = Some e ->
  files w !! Updater.localRulesFile = None ->
  Updater.localRulesFile ∉ directories w ->
  Updater.updateRulesFromWotc env w
  = (Returned {| success := false;
                 message := lit "Failed to update rules: " ++ errorMessage e
                            ++ lit ". Fallback also failed: "
                            ++ lit "Comprehensive rules file not found" |},
     record SelectRules w).
Proof.
  intros Hfail Hfile Hdir. unfold Updater.updateRulesFromWotc.
  rewrite run_bind, run_tryCatch.
  rewrite (attemptDownload_query_fails _ _ _ Hfail).
  unfold Updater.fallback. rewrite run_tryCatch, run_bind.
  unfold Updater.updateRulesFromFile. rewrite run_bind.
  unfold existsSync at 1. rewrite run_bind. unfold get at 1. unfold ret at 1.
  change (files (record SelectRules w)) with (files w).
  change (directories (record SelectRules w)) with (directories w).
  rewrite Hfile.
  rewrite bool_decide_eq_false_2 by (intros [x Hx]; discriminate).
  rewrite bool_decide_eq_false_2 by exact Hdir.
  reflexivity.
Qed.

Lemma fallback_failure_reported_witness :
  Updater.updateRulesFromWotc
    (Samples.failingAt 0 (Response 200 Samples.rulebook None))
    Samples.freshRulesWorld
  = (Returned {| success := false;
                 message := lit "Failed to update rules: connection lost. Fallback also failed: Comprehensive rules file not found" |},
     record SelectRules Samples.freshRulesWorld).
Proof.
  apply (fallback_failure_reported
           (Samples.failingAt 0 (Response 200 Samples.rulebook None))
           Samples.freshRulesWorld Samples.connectionLost).
  - reflexivity.
  - vm_compute. reflexivity.
  - vm_compute. intros H. discriminate H.
Defined.

(** X13.  A download that goes through does not update the rules.  When
    the age check does not stop it, the download is answered with status
    200, the stream finishes, the body holds at least one rule and no
    database or file-system operation fails for a reason of its own,
    [updateRulesFromWotc] rejects with
    "Failed to process downloaded rules: ...": the rule records are deleted
    and the database refuses the first insert.  The rules table is left
    empty and the temporary file stays in place. *)
Theorem downloaded_rules_are_refused (env : Env) (w : World)
    (body : jsstring) :
  (forall k, fault env k = None) ->
  checkedAge (now env) (rulesTable w) = None ->
  httpReply env = Response 200 body None ->
  parseComprehensiveRules body <> [] ->
  exists w',
    Updater.updateRulesFromWotc env w
    = (Thrown {| errorMessage := lit "Failed to process downloaded rules: "
                                 ++ errorMessage notNullViolation |},
       w')
    /\ rulesTable w' = []
    /\ files w' !! Updater.tempFilePath = Some body.
Proof.
  intros Hok Hage Hreply Hparsed. unfold Updater.updateRulesFromWotc.
  rewrite run_bind, run_tryCatch.
  destruct (attemptDownload_proceeds env w (Hok _) (Hok _) Hage)
    as (w1 & evs & -> & _ & Hf1 & _).
  rewrite download_starts, Hreply.
  change (200 =? 200)%Z with true. cbv iota.
  rewrite run_bind. unfold piped at 1, modify at 1.
  set (w2 := setFiles _ _).
  assert (Hfile : files w2 !! Updater.tempFilePath = Some body).
  { unfold w2. simpl. apply lookup_insert_eq. }
  rewrite run_tryCatch, run_bind.
  rewrite (updateRulesDatabase_rejects env w2 Updater.tempFilePath body Hfile
             (Hok _) (Hok _) Hparsed).
  rewrite Hok. eexists. split; [reflexivity|]. split; [reflexivity|].
  exact Hfile.
Qed.

Lemma downloaded_rules_are_refused_witness :
  exists w',
    Updater.updateRulesFromWotc Samples.staleHeadEnv Samples.staleHeadWorld
    = (Thrown {| errorMessage := lit "Failed to process downloaded rules: "
                                 ++ errorMessage notNullViolation |},
       w')
    /\ rulesTable w' = []
    /\ files w' !! Updater.tempFilePath = Some Samples.rulebook.
Proof.
  apply (downloaded_rules_are_refused Samples.staleHeadEnv
           Samples.staleHeadWorld Samples.rulebook).
  - intros k. reflexivity.
  - vm_compute. reflexivity.
  - reflexivity.
  - vm_compute. discriminate.
Defined.

(** X14.  A failed download is never made up for.  When no rule is younger
    than 7 days by the age check and the download meets a network error or a
    status other than 200, [updateRulesFromWotc] rejects with the message of
    that failure; the fall-back to the bundled rulebook does not run: no
    file is read and the rules table is as before. *)
Theorem download_failure_bypasses_fallback (env : Env) (w : World) :
  fault env (length (performed w)) = None ->
  fault env (S (length (performed w))) = None ->
  checkedAge (now env) (rulesTable w) = None ->
  match httpReply env with
  | NetworkError _ => True
  | Response statusCode _ _ => statusCode <> 200%Z
  end ->
  exists w',
    Updater.updateRulesFromWotc env w
    = (Thrown {| errorMessage :=
                   match httpReply env with
                   | NetworkError err =>
                       lit "Network error downloading rules: " ++ errorMessage err
                   | Response statusCode _ _ =>
                       lit "Failed to download rules. HTTP status: "
                       ++ showZ statusCode
                   end |},
       w')
    /\ rulesTable w' = rulesTable w
    /\ existsb isFileRead (performed w') = existsb isFileRead (performed w).
Proof.
  intros Hok Hok' Hage Hreply. unfold Updater.updateRulesFromWotc.
  rewrite run_bind, run_tryCatch.
  destruct (attemptDownload_proceeds env w Hok Hok' Hage)
    as (w1 & evs & -> & Ht & _ & _ & Hp & Hevs).
  rewrite download_starts.
  assert (Hread : existsb isFileRead (performed w1)
                  = existsb isFileRead (performed w)).
  { rewrite Hp. now destruct Hevs as [-> | ->]. }
  destruct (httpReply env) as [err|statusCode body streamError].
  - eexists. split; [reflexivity|]. simpl. auto.
  - destruct (Z.eqb_spec statusCode 200); [contradiction|].
    eexists. split; [reflexivity|]. simpl. auto.
Qed.

Lemma download_failure_bypasses_fallback_witness :
  exists w',
    Updater.updateRulesFromWotc Samples.notFoundEnv Samples.bundledWorld
    = (Thrown {| errorMessage :=
                   match httpReply Samples.notFoundEnv with
                   | NetworkError err =>
                       lit "Network error downloading rules: " ++ errorMessage err
                   | Response statusCode _ _ =>
                       lit "Failed to download rules. HTTP status: "
                       ++ showZ statusCode
                   end |},
       w')
    /\ rulesTable w' = rulesTable Samples.bundledWorld
    /\ existsb isFileRead (performed w')
       = existsb isFileRead (performed Samples.bundledWorld).
Proof.
  apply (download_failure_bypasses_fallback Samples.notFoundEnv
           Samples.bundledWorld).
  - reflexivity.
  - reflexivity.
  - reflexivity.
  - simpl. lia.
Defined.

(** ** What leaves the files alone *)

Section FileFacts.

Local Open Scope host_scope.

Lemma keepsFiles_ret {A} (a : A) : keepsFiles (ret a).
Proof. intros env w. reflexivity. Qed.

Lemma keepsFiles_throw {A} e : keepsFiles (@throw A e).
Proof. intros env w. reflexivity. Qed.

Lemma keepsFiles_bind {A B} (c : M A) (k : A -> M B) :
  keepsFiles c -> (forall a, keepsFiles (k a)) -> keepsFiles (bind c k).
Proof.
  intros Hc Hk env w. rewrite run_bind. specialize (Hc env w).
  destruct (c env w) as [[a|e|e|] w1]; simpl in *; try exact Hc.
  now rewrite (Hk a env w1).
Qed.

Lemma keepsFiles_tryCatch {A} (body : M A) handler :
  keepsFiles body -> (forall e, keepsFiles (handler e)) ->
  keepsFiles (tryCatch body handler).
Proof.
  intros Hb Hh env w. rewrite run_tryCatch. specialize (Hb env w).
  destruct (body env w) as [[a|e|e|] w1]; simpl in *; try exact Hb.
  now rewrite (Hh e env w1).
Qed.

Lemma keepsFiles_attempt ev : keepsFiles (attempt ev).
Proof.
  intros env w. unfold attempt.
  now destruct (fault env (length (performed w))).
Qed.

Lemma keepsFiles_insertRules batch : keepsFiles (insertRules batch).
Proof.
  unfold insertRules. destruct batch as [|r batch]; [apply keepsFiles_throw|].
  apply keepsFiles_bind; [apply keepsFiles_attempt|].
  intros _ env w. reflexivity.
Qed.

Lemma keepsFiles_insertBatches parsedRules :
  forall fuel i, keepsFiles (Updater.insertBatches fuel parsedRules i).
Proof.
  induction fuel as [|fuel IH]; intros i; simpl;
    destruct (i <? length parsedRules); try apply keepsFiles_ret.
  - intros env w. reflexivity.
  - apply keepsFiles_bind; [apply keepsFiles_insertRules | intros _; apply IH].
Qed.

Lemma keepsFiles_updateRulesDatabase path :
  keepsFiles (Updater.updateRulesDatabase path).
Proof.
  unfold Updater.updateRulesDatabase.
  apply keepsFiles_tryCatch; [|intros e; apply keepsFiles_throw].
  apply keepsFiles_bind.
  - unfold readFileSync. apply keepsFiles_bind; [apply keepsFiles_attempt|].
    intros _ env w. unfold bind, get.
    destruct (files w !! path); reflexivity.
  - intros rulesText. apply keepsFiles_bind.
    + unfold deleteRules. apply keepsFiles_bind; [apply keepsFiles_attempt|].
      intros _ env w. reflexivity.
    + intros _. apply keepsFiles_insertBatches.
Qed.

End FileFacts.

(** X16.  A download that cannot be processed leaves its file behind.  When
    the download is answered with status 200 and the stream finishes, the
    only way [updateRulesFromWotc] rejects is with
    "Failed to process downloaded rules: ..." (the database update or the
    removal of the temporary file failed), and then the temporary file is
    still there, holding the downloaded body. *)
Theorem failed_processing_leaves_temp_file (env : Env) (w w' : World)
    (body : jsstring) (e : Error) :
  httpReply env = Response 200 body None ->
  Updater.updateRulesFromWotc env w = (Thrown e, w') ->
  (exists cause,
     errorMessage e = lit "Failed to process downloaded rules: " ++ cause)
  /\ files w' !! Updater.tempFilePath = Some body.
Proof.
  intros Hreply. unfold Updater.updateRulesFromWotc. rewrite run_bind.
  pose proof (guarded_download_settles env w) as Hs.
  pose proof (yields_tryCatch promisesDownload _ _ yields_attemptDownload
                yields_fallback env w) as Hy.
  destruct (tryCatch Updater.attemptDownload Updater.fallback env w)
    as [[[v|p]|e'|e'|] w1]; simpl in Hs, Hy; try discriminate;
    [|contradiction].
  rewrite (Hy _ eq_refl), download_starts, Hreply.
  change (200 =? 200)%Z with true. cbv iota.
  rewrite run_bind. unfold piped at 1, modify at 1.
  set (w2 := setFiles _ _).
  assert (Hfile : files w2 !! Updater.tempFilePath = Some body).
  { unfold w2. simpl. apply lookup_insert_eq. }
  rewrite run_tryCatch, run_bind.
  pose proof (keepsFiles_updateRulesDatabase Updater.tempFilePath env w2) as Hk.
  destruct (Updater.updateRulesDatabase Updater.tempFilePath env w2)
    as [[[]|e0|e0|] w3]; cbn [snd] in Hk; try discriminate.
  - rewrite run_bind. unfold unlinkSync at 1. rewrite run_bind.
    unfold attempt at 1.
    destruct (fault env (length (performed w3))) as [e1|].
    + unfold throw. intros [= <- <-].
      change (files (record (Unlink Updater.tempFilePath) w3)) with (files w3).
      rewrite Hk. eauto.
    + rewrite run_bind. unfold get at 1.
      change (files (record (Unlink Updater.tempFilePath) w3)) with (files w3).
      rewrite Hk, Hfile. discriminate.
  - unfold throw. intros [= <- <-]. rewrite Hk. eauto.
Qed.

Lemma failed_processing_leaves_temp_file_witness :
  (exists cause,
     lit "Failed to process downloaded rules: connection lost"
     = lit "Failed to process downloaded rules: " ++ cause)
  /\ files (snd (Updater.updateRulesFromWotc
                   (Samples.failingAt 5 (Response 200 Samples.rulebook None))
                   Samples.bundledWorld))
     !! Updater.tempFilePath = Some Samples.rulebook.
Proof.
  apply (failed_processing_leaves_temp_file
           (Samples.failingAt 5 (Response 200 Samples.rulebook None))
           Samples.bundledWorld
           (snd (Updater.updateRulesFromWotc
                   (Samples.failingAt 5 (Response 200 Samples.rulebook None))
                   Samples.bundledWorld))
           Samples.rulebook
           {| errorMessage :=
                lit "Failed to process downloaded rules: connection lost" |}).
  - reflexivity.
  - vm_compute. reflexivity.
Defined.

(** ** The scheduled refresh, run by run *)

Section CronRunFacts.

Local Open Scope host_scope.

(** [getCardCount] always returns, and counts one query. *)
Lemma getCardCount_run env w :
  Cron.getCardCount env w
  = (Returned (cardCount env (length (performed w))), record CountCards w).
Proof.
  unfold Cron.getCardCount, countCards, cardCount.
  rewrite run_tryCatch, !run_bind. unfold attempt.
  now destruct (fault env (length (performed w))).
Qed.

(** The metadata row is fresh by the 24-hour check right after it was
    stamped. *)
Lemma upToDate_now nowMs n d :
  Cron.upToDate nowMs
    (Some {| Host.last_updated := Some nowMs; total_cards := n;
             description := d |})
  <> None.
Proof.
  unfold Cron.upToDate. simpl. rewrite Z.sub_diag.
  change (0 <? 24 * Cron.msPerHour)%Z with true. discriminate.
Qed.

(** The row [updateCardDatabase] writes in world [w]: the inserted values
    when there is no row yet, the updated ones otherwise. *)
Lemma stamp_run env w d :
  let row :=
    {| Host.last_updated := Some (now env);
       total_cards :=
         cardCount env (match metadata w with
                        | Some _ => S (length (performed w))
                        | None => length (performed w)
                        end);
       description := d |} in
  (inserted <- Cron.getCardCount ;;
   updated <- Cron.getCardCount ;;
   upsertMetadata
     {| Host.last_updated := Some (now env); total_cards := inserted;
        description := d |}
     {| Host.last_updated := Some (now env); total_cards := updated;
        description := d |}) env w
  = match fault env (S (S (length (performed w)))) with
    | Some e =>
        (Thrown e,
         record (UpsertMetadata row) (record CountCards (record CountCards w)))
    | None =>
        (Returned tt,
         setMetadata (Some row)
           (record (UpsertMetadata row)
              (record CountCards (record CountCards w))))
    end.
Proof.
  intros row. unfold row.
  rewrite run_bind, getCardCount_run, run_bind, getCardCount_run.
  unfold upsertMetadata.
  rewrite run_bind. unfold get at 1. rewrite run_bind. unfold attempt.
  change (metadata (record CountCards (record CountCards w)))
    with (metadata w).
  change (length (performed (record CountCards (record CountCards w))))
    with (S (S (length (performed w)))).
  change (length (performed (record CountCards w)))
    with (S (length (performed w))).
  destruct (fault env (S (S (length (performed w))))) as [e|];
    destruct (metadata w); reflexivity.
Qed.

End CronRunFacts.

Section CronStampFacts.

Local Open Scope host_scope.

(** A refresh whose card step reports success and whose metadata query
    and upsert go through. *)
Lemma updateCardDatabase_stamps env w r :
  fault env (length (performed w)) = None ->
  noStreamError env ->
  Cron.upToDate (now env) (metadata w) = None ->
  cardRefresh env = Fulfilled r ->
  success r = true ->
  fault env (S (S (length (performed (rulesDone env w))))) = None ->
  exists s w' rr,
    Cron.updateCardDatabase env w = (Returned s, w')
    /\ Cron.cardResult s = Some r
    /\ Cron.rulesResult s = Some rr
    /\ Cron.success s = success rr
    /\ metadata w'
       = Some {| Host.last_updated := Some (now env);
                 total_cards :=
                   cardCount env
                     (match metadata w with
                      | Some _ => S (length (performed (rulesDone env w)))
                      | None => length (performed (rulesDone env w))
                      end);
                 description := message r ++ lit ". " ++ message rr |}.
Proof.
  intros Hok Hcalm Hstale Hcard Hsucc. unfold rulesDone.
  unfold Cron.updateCardDatabase.
  rewrite run_tryCatch, run_bind, selectMetadata_ok by apply Hok.
  rewrite run_bind. unfold ask at 1.
  change (metadata (record SelectMetadata w)) with (metadata w).
  rewrite Hstale.
  rewrite run_bind. unfold Cron.completeCardDatabaseUpdate at 1.
  rewrite run_bind. unfold note at 1. rewrite run_bind. unfold ask at 1.
  rewrite Hcard. unfold ret at 1.
  set (w2 := record RefreshCards (record SelectMetadata w)).
  rewrite run_bind, run_tryCatch.
  assert (Hok' : forall ev, isUpsert ev = false -> isCardRefresh ev = false ->
                            notUpsert ev = true).
  { intros ev H _. unfold notUpsert. now rewrite H. }
  destruct (updateRulesFromWotc_frame notUpsert Hok' env w2) as [Hm _].
  pose proof (fuelled_updateRulesFromWotc env w2) as Hfuel.
  pose proof (caughtAt_updateRulesFromWotc env Hcalm w2) as Hcaught.
  assert (Htail : forall (rr : Result) w3, metadata w3 = metadata w ->
    fault env (S (S (length (performed w3)))) = None ->
    exists s w',
      (((if success r
         then
           inserted <- Cron.getCardCount ;;
           updated <- Cron.getCardCount ;;
           upsertMetadata
             {| Host.last_updated := Some (now env); total_cards := inserted;
                description := message r ++ lit ". " ++ message rr |}
             {| Host.last_updated := Some (now env); total_cards := updated;
                description := message r ++ lit ". " ++ message rr |}
         else ret tt) ;;
        ret {| Cron.success := success r && success rr;
               Cron.message := lit "Cards: " ++ message r
                               ++ lit ". Rules: " ++ message rr;
               Cron.last_updated := None;
               Cron.cardResult := Some r;
               Cron.rulesResult := Some rr |}) env w3)
      = (Returned s, w')
      /\ Cron.cardResult s = Some r
      /\ Cron.rulesResult s = Some rr
      /\ Cron.success s = success rr
      /\ metadata w'
         = Some {| Host.last_updated := Some (now env);
                   total_cards :=
                     cardCount env
                       (match metadata w with
                        | Some _ => S (length (performed w3))
                        | None => length (performed w3)
                        end);
                   description := message r ++ lit ". " ++ message rr |}).
  { intros rr w3 Hm3 Hupsert. rewrite Hsucc. rewrite run_bind.
    rewrite (stamp_run env w3 (message r ++ lit ". " ++ message rr)).
    rewrite Hupsert, Hm3. unfold ret.
    eexists _, _. split; [reflexivity|]. simpl. repeat split. }
  destruct (Updater.updateRulesFromWotc env w2) as [[rr|e|e|] w3];
    simpl in Hm, Hfuel, Hcaught; simpl snd; intros Hupsert.
  - destruct (Htail rr w3 Hm Hupsert) as (s & w' & -> & H).
    exists s, w', rr. split; [reflexivity | exact H].
  - unfold ret at 1.
    destruct (Htail {| success := false;
                       message := lit "Rules update failed: " ++ errorMessage e |}
                w3 Hm Hupsert) as (s & w' & -> & H).
    eexists s, w', _. split; [reflexivity | exact H].
  - now contradiction (Hcaught e).
  - contradiction.
Qed.

(** A run that finds the metadata row younger than 24 hours. *)
Lemma updateCardDatabase_skips env w row t :
  fault env (length (performed w)) = None ->
  metadata w = Some row ->
  Host.last_updated row = Some t ->
  (now env - t < 24 * Cron.msPerHour)%Z ->
  Cron.updateCardDatabase env w
  = (Returned {| Cron.success := true;
                 Cron.message := lit "Database is up to date";
                 Cron.last_updated := Some (Some t);
                 Cron.cardResult := None;
                 Cron.rulesResult := None |},
     record SelectMetadata w).
Proof.
  intros Hok Hm Ht Hlt.
  unfold Cron.updateCardDatabase.
  rewrite run_tryCatch, run_bind, selectMetadata_ok by exact Hok.
  rewrite run_bind. unfold ask at 1.
  change (metadata (record SelectMetadata w)) with (metadata w).
  rewrite Hm, (upToDate_recent _ _ _ Ht Hlt). reflexivity.
Qed.

End CronStampFacts.



(** X18.  The scheduled refresh throttles itself.  After a run that
    refreshed the cards and stamped the metadata row, a further run less
    than 24 hours later refreshes nothing: it returns "Database is up to
    date" with the time of the first run, and the metadata query is the
    only operation it attempts. *)
Theorem second_run_within_day_skips (env1 env2 : Env) (w : World) (r : Result) :
  (forall k, fault env1 k = None) ->
  noStreamError env1 ->
  Cron.upToDate (now env1) (metadata w) = None ->
  cardRefresh env1 = Fulfilled r ->
  success r = true ->
  (forall k, fault env2 k = None) ->
  (now env2 - now env1 < 24 * Cron.msPerHour)%Z ->
  Cron.updateCardDatabase env2 (snd (Cron.updateCardDatabase env1 w))
  = (Returned {| Cron.success := true;
                 Cron.message := lit "Database is up to date";
                 Cron.last_updated := Some (Some (now env1));
                 Cron.cardResult := None;
                 Cron.rulesResult := None |},
     record SelectMetadata (snd (Cron.updateCardDatabase env1 w))).
Proof.
  intros Hok1 Hcalm Hstale Hcard Hsucc Hok2 Hlt.
  destruct (updateCardDatabase_stamps env1 w r (Hok1 _) Hcalm Hstale Hcard Hsucc
              (Hok1 _))
    as (s & w1 & rr & -> & _ & _ & _ & Hm).
  simpl snd.
  eapply updateCardDatabase_skips; [apply Hok2 | exact Hm | reflexivity | exact Hlt].
Qed.

Lemma second_run_within_day_skips_witness :
  Cron.updateCardDatabase Samples.hourLaterEnv
    (snd (Cron.updateCardDatabase Samples.downloadEnv Samples.emptyWorld))
  = (Returned {| Cron.success := true;
                 Cron.message := lit "Database is up to date";
                 Cron.last_updated := Some (Some (now Samples.downloadEnv));
                 Cron.cardResult := None;
                 Cron.rulesResult := None |},
     record SelectMetadata
       (snd (Cron.updateCardDatabase Samples.downloadEnv Samples.emptyWorld))).
Proof.
  apply (second_run_within_day_skips Samples.downloadEnv Samples.hourLaterEnv
           Samples.emptyWorld
           {| success := true; message := lit "Cards updated" |}).
  - intros k. reflexivity.
  - exact I.
  - reflexivity.
  - reflexivity.
  - reflexivity.
  - intros k. reflexivity.
  - vm_compute. reflexivity.
Defined.

(** X19.  A summary with [success: true] can be trusted: whenever
    [updateCardDatabase] returns one, the metadata row afterwards is fresh
    by the 24-hour check of the next run, whatever failed on the way. *)
Theorem reported_success_means_fresh (env : Env) (w w' : World)
    (s : Cron.Summary) :
  Cron.updateCardDatabase env w = (Returned s, w') ->
  Cron.success s = true ->
  Cron.upToDate (now env) (metadata w') <> None.
Proof.
  unfold Cron.updateCardDatabase.
  rewrite run_tryCatch, run_bind. unfold selectMetadata.
  rewrite run_bind. unfold attempt.
  destruct (fault env (length (performed w))) as [e|].
  { unfold ret. intros [= <- <-]. discriminate. }
  rewrite run_bind. unfold get at 1. unfold ret at 1.
  rewrite run_bind. unfold ask at 1.
  change (metadata (record SelectMetadata w)) with (metadata w).
  destruct (Cron.upToDate (now env) (metadata w)) as [stamp|] eqn:Hstale.
  { unfold ret. intros [= <- <-] _. simpl. now rewrite Hstale. }
  rewrite run_bind. unfold Cron.completeCardDatabaseUpdate at 1.
  rewrite run_bind. unfold note at 1. rewrite run_bind. unfold ask at 1.
  destruct (cardRefresh env) as [r|e].
  2:{ unfold throw, ret. intros [= <- <-]. discriminate. }
  unfold ret at 1.
  set (w2 := record RefreshCards (record SelectMetadata w)).
  rewrite run_bind, run_tryCatch.
  assert (Htail : forall (rr : Result) w3,
    (let (o, w'0) :=
       ((if success r
         then
           inserted <- Cron.getCardCount ;;
           updated <- Cron.getCardCount ;;
           upsertMetadata
             {| Host.last_updated := Some (now env); total_cards := inserted;
                description := message r ++ lit ". " ++ message rr |}
             {| Host.last_updated := Some (now env); total_cards := updated;
                description := message r ++ lit ". " ++ message rr |}
         else ret tt) ;;
        ret {| Cron.success := success r && success rr;
               Cron.message := lit "Cards: " ++ message r
                               ++ lit ". Rules: " ++ message rr;
               Cron.last_updated := None;
               Cron.cardResult := Some r;
               Cron.rulesResult := Some rr |})%host env w3 in
     match o with
     | Returned a => (Returned a, w'0)
     | Thrown e =>
         ret {| Cron.success := false;
                Cron.message := lit "Error updating database: " ++ errorMessage e;
                Cron.last_updated := None;
                Cron.cardResult := None;
                Cron.rulesResult := None |} env w'0
     | Uncaught e => (Uncaught e, w'0)
     | OutOfFuel => (OutOfFuel, w'0)
     end) = (Returned s, w') ->
    Cron.success s = true ->
    Cron.upToDate (now env) (metadata w') <> None).
  { intros rr w3. destruct (success r).
    - rewrite run_bind.
      rewrite (stamp_run env w3 (message r ++ lit ". " ++ message rr)).
      destruct (fault env (S (S (length (performed w3))))) as [e|].
      + unfold ret. intros [= <- <-]. discriminate.
      + unfold ret. intros [= <- <-] _. simpl metadata. apply upToDate_now.
    - unfold bind, ret. intros [= <- <-]. discriminate. }
  destruct (Updater.updateRulesFromWotc env w2) as [[rr|e|e|] w3].
  - apply Htail.
  - unfold ret at 1. apply Htail.
  - discriminate.
  - discriminate.
Qed.

Lemma reported_success_means_fresh_witness :
  Cron.upToDate (now Samples.downloadEnv)
    (metadata (snd (Cron.updateCardDatabase Samples.downloadEnv
                      Samples.freshRulesWorld)))
  <> None.
Proof.
  apply (reported_success_means_fresh Samples.downloadEnv
           Samples.freshRulesWorld
           (snd (Cron.updateCardDatabase Samples.downloadEnv
                   Samples.freshRulesWorld))
           {| Cron.success := true;
              Cron.message :=
                lit "Cards: Cards updated. Rules: Rules were updated 0 days ago. Skipping update.";
              Cron.last_updated := None;
              Cron.cardResult :=
                Some {| success := true; message := lit "Cards updated" |};
              Cron.rulesResult :=
                Some {| success := true;
                        message := lit "Rules were updated 0 days ago. Skipping update." |} |}).
  - vm_compute. reflexivity.
  - reflexivity.
Defined.

(** X20.  When the card refresh rejects, [updateCardDatabase] stops there:
    it returns [success: false] with the message "Error updating database:
    <reason>", and neither the rules refresh nor the metadata write is
    attempted. *)
Theorem card_refresh_rejection_reported (env : Env) (w : World) (e : Error) :
  fault env (length (performed w)) = None ->
  Cron.upToDate (now env) (metadata w) = None ->
  cardRefresh env = Rejected e ->
  Cron.updateCardDatabase env w
  = (Returned {| Cron.success := false;
                 Cron.message := lit "Error updating database: " ++ errorMessage e;
                 Cron.last_updated := None;
                 Cron.cardResult := None;
                 Cron.rulesResult := None |},
     record RefreshCards (record SelectMetadata w)).
Proof.
  intros Hok Hstale Hcard. unfold Cron.updateCardDatabase.
  rewrite run_tryCatch, run_bind, selectMetadata_ok by exact Hok.
  rewrite run_bind. unfold ask at 1.
  change (metadata (record SelectMetadata w)) with (metadata w).
  rewrite Hstale.
  rewrite run_bind. unfold Cron.completeCardDatabaseUpdate at 1.
  rewrite run_bind. unfold note at 1. rewrite run_bind. unfold ask at 1.
  rewrite Hcard. reflexivity.
Qed.

(** X21.  [updateCardDatabase] never rejects: whichever database, file or
    network operation fails and however the card refresh settles, no error
    of the run reaches the caller as a rejection. *)
Theorem scheduled_update_never_rejects (env : Env) (w : World) (e : Error) :
  fst (Cron.updateCardDatabase env w) <> Thrown e.
Proof.
  pose proof (updateCardDatabase_never_throws env w) as H. intros Heq.
  now rewrite Heq in H.
Qed.

Lemma card_refresh_rejection_reported_witness :
  Cron.updateCardDatabase Samples.cardsRejectEnv Samples.bundledWorld
  = (Returned {| Cron.success := false;
                 Cron.message := lit "Error updating database: "
                                 ++ lit "MTGJSON unreachable";
                 Cron.last_updated := None;
                 Cron.cardResult := None;
                 Cron.rulesResult := None |},
     record RefreshCards (record SelectMetadata Samples.bundledWorld)).
Proof.
  apply (card_refresh_rejection_reported Samples.cardsRejectEnv
           Samples.bundledWorld {| errorMessage := lit "MTGJSON unreachable" |}).
  - reflexivity.
  - reflexivity.
  - reflexivity.
Defined.

(** ** The conversation over many requests *)

Section HistoryFacts.

Variable Card : Type.
Variable getCard : Routes.Value -> Settled (option Card).
Variable getCardRuling :
  Routes.Value -> option Card -> list Routes.Message -> list Card
  -> Settled jsstring.

(** One request leaves the history as it was, or one message longer (the
    ruling call was rejected), or truncated to 10. *)
Lemma askRuling_history body conversation :
  let after := snd (Routes.askRuling Card getCard getCardRuling body conversation) in
  after = conversation
  \/ (exists q primary history mentioned e,
        getCardRuling q primary history mentioned = Rejected e
        /\ Routes.question body = Some q
        /\ after = conversation
                   ++ [{| Routes.role := lit "user"; Routes.content := q |}])
  \/ length after <= 10.
Proof.
  unfold Routes.askRuling.
  destruct (Routes.question body) as [q|]; [|now left].
  destruct (negb (Routes.truthy q)); [now left|].
  destruct (Routes.lookUpCards Card getCard body) as [[primary mentioned]|e];
    [|now left].
  destruct (getCardRuling _ _ _ _) as [answer|e] eqn:E.
  - right. right. apply limitHistory_length.
  - right. left. simpl. eauto 10.
Qed.

(** When no card lookup fails, the cards of a request are found. *)
Lemma lookUpCards_fulfilled body :
  (forall id, exists c, getCard id = Fulfilled c) ->
  exists found, Routes.lookUpCards Card getCard body = Fulfilled found.
Proof.
  intros Hcards.
  assert (Hall : forall ids,
            exists cs, Routes.getCards Card getCard ids = Fulfilled cs).
  { induction ids as [|id ids [cs IH]]; simpl; [eauto|].
    destruct (Hcards id) as [[c|] ->]; rewrite IH; eauto. }
  unfold Routes.lookUpCards.
  assert (Hp : exists p,
    match Routes.cardId body with
    | Some id => if Routes.truthy id then getCard id else Fulfilled None
    | None => Fulfilled None
    end = Fulfilled p).
  { destruct (Routes.cardId body) as [id|]; [|eauto].
    destruct (Routes.truthy id); [apply Hcards | eauto]. }
  destruct Hp as [p ->].
  destruct (Routes.cardIds body) as [[|id ids]|]; [eauto | | eauto].
  destruct (Hall (id :: ids)) as [cs ->].
  destruct p; [eauto|]. destruct cs; eauto.
Qed.

End HistoryFacts.

(** X22.  As long as the ruling service answers, the conversation history
    stays bounded: starting from at most 10 messages, it holds at most 10
    messages after any sequence of requests to [/api/rulings/ask]. *)
Theorem history_stays_bounded (Card : Type)
    (getCard : Routes.Value -> Settled (option Card))
    (getCardRuling : Routes.Value -> option Card -> list Routes.Message
                     -> list Card -> Settled jsstring)
    (bodies : list Routes.AskBody) (conversation : list Routes.Message) :
  (forall q primary history mentioned e,
     getCardRuling q primary history mentioned <> Rejected e) ->
  length conversation <= 10 ->
  length (Routes.serve Card getCard getCardRuling bodies conversation) <= 10.
Proof.
  intros Hanswers. revert conversation. unfold Routes.serve.
  induction bodies as [|body bodies IH]; intros conversation Hlen;
    [exact Hlen|].
  simpl. apply IH.
  destruct (askRuling_history Card getCard getCardRuling body conversation)
    as [-> | [(q & p & h & m & e & Hr & _) | H]];
    [exact Hlen | now contradiction (Hanswers q p h m e) | exact H].
Qed.

Lemma history_stays_bounded_witness :
  length (Routes.serve unit Samples.noCard Samples.rulingAnswers
            (repeat Samples.plainQuestion 11) []) <= 10.
Proof.
  apply (history_stays_bounded unit Samples.noCard Samples.rulingAnswers
           (repeat Samples.plainQuestion 11) []).
  - intros q primary history mentioned e. discriminate.
  - simpl. lia.
Defined.

(** X23.  While the ruling service is down the history grows without
    bound: when every ruling call is rejected and no card lookup fails, each
    request that carries a question adds exactly one message (the question),
    and nothing ever truncates the history. *)
Theorem failed_rulings_grow_history (Card : Type)
    (getCard : Routes.Value -> Settled (option Card))
    (getCardRuling : Routes.Value -> option Card -> list Routes.Message
                     -> list Card -> Settled jsstring)
    (bodies : list Routes.AskBody) (conversation : list Routes.Message) :
  (forall q primary history mentioned,
     exists e, getCardRuling q primary history mentioned = Rejected e) ->
  (forall id, exists c, getCard id = Fulfilled c) ->
  length (Routes.serve Card getCard getCardRuling bodies conversation)
  = length conversation
    + length (List.filter (fun b => negb (Routes.falsy (Routes.question b)))
                bodies).
Proof.
  intros Hdown Hcards. revert conversation. unfold Routes.serve.
  assert (Hstep : forall body conversation,
    length (snd (Routes.askRuling Card getCard getCardRuling body conversation))
    = length conversation
      + (if negb (Routes.falsy (Routes.question body)) then 1 else 0)).
  { intros body conversation. unfold Routes.askRuling, Routes.falsy.
    destruct (Routes.question body) as [q|]; [|simpl; lia].
    destruct (negb (Routes.truthy q)); [simpl; lia|].
    change (negb false) with true. cbv iota.
    destruct (lookUpCards_fulfilled Card getCard body Hcards)
      as [[primary mentioned] ->].
    destruct (Hdown q primary
                (conversation
                 ++ [{| Routes.role := lit "user"; Routes.content := q |}])
                mentioned) as [e ->].
    simpl. rewrite length_app. simpl. lia. }
  induction bodies as [|body bodies IH]; intros conversation; simpl;
    [lia|].
  rewrite IH, Hstep.
  destruct (negb (Routes.falsy (Routes.question body))); simpl; lia.
Qed.

Lemma failed_rulings_grow_history_witness :
  length (Routes.serve unit Samples.noCard Samples.rulingFails
            (repeat Samples.plainQuestion 25) [])
  = length (@nil Routes.Message)
    + length (List.filter (fun b => negb (Routes.falsy (Routes.question b)))
                (repeat Samples.plainQuestion 25)).
Proof.
  apply (failed_rulings_grow_history unit Samples.noCard Samples.rulingFails
           (repeat Samples.plainQuestion 25) []).
  - intros q primary history mentioned. eexists. reflexivity.
  - intros id. eexists. reflexivity.
Defined.

(** ** Card search *)

Section SearchFacts.

Import Search.

Variable toLowerCase : jsstring -> jsstring.

Implicit Types (m : JsMap Card) (card c : Card) (cards : list Card).

Lemma strictEq_true a b : strictEq a b = true <-> a = b.
Proof. unfold strictEq. apply bool_decide_eq_true. Qed.

Lemma strictEq_refl a : strictEq a a = true.
Proof. now apply strictEq_true. Qed.

Lemma mapGet_In {V} key (m : JsMap V) v :
  mapGet key m = Some v -> In (key, v) m.
Proof.
  induction m as [|[k w] m IH]; simpl; [discriminate|].
  destruct (strictEq k key) eqn:E.
  - apply strictEq_true in E. intros [= ->]. left. now subst.
  - intros H. right. now apply IH.
Qed.

Lemma mapGet_None {V} key (m : JsMap V) :
  mapGet key m = None -> ~ In key (map fst m).
Proof.
  induction m as [|[k w] m IH]; simpl; [tauto|].
  destruct (strictEq k key) eqn:E; [discriminate|].
  intros H [Hk|Hin]; [|now apply IH].
  subst. now rewrite strictEq_refl in E.
Qed.

Lemma mapSet_In {V} key (value : V) (m : JsMap V) k v :
  In (k, v) (mapSet key value m) -> (k = key /\ v = value) \/ In (k, v) m.
Proof.
  induction m as [|[k' w] m IH]; simpl.
  - intros [[= <- <-]|[]]. now left.
  - destruct (strictEq k' key) eqn:E; simpl.
    + apply strictEq_true in E. subst.
      intros [[= <- <-]|H]; [now left | right; now right].
    + intros [H|H]; [right; now left|].
      destruct (IH H) as [?|?]; [now left | right; now right].
Qed.

Lemma mapSet_keys {V} key (value : V) (m : JsMap V) :
  map fst (mapSet key value m)
  = if mapHas key m then map fst m else map fst m ++ [key].
Proof.
  unfold mapHas. induction m as [|[k w] m IH]; simpl; [reflexivity|].
  destruct (strictEq k key) eqn:E; simpl; [reflexivity|].
  rewrite IH. now destruct (mapGet key m).
Qed.

Lemma mapSet_NoDup {V} key (value : V) (m : JsMap V) :
  NoDup (map fst m) -> NoDup (map fst (mapSet key value m)).
Proof.
  intros H. rewrite mapSet_keys. unfold mapHas.
  destruct (mapGet key m) eqn:E; [exact H|].
  apply mapGet_None in E. apply NoDup_app. repeat split.
  - exact H.
  - intros x Hx Hin. apply list_elem_of_In in Hx.
    apply list_elem_of_singleton in Hin. now subst.
  - apply NoDup_singleton.
Qed.

Lemma mapSet_has {V} key (value : V) (m : JsMap V) :
  In key (map fst (mapSet key value m)).
Proof.
  rewrite mapSet_keys. unfold mapHas. destruct (mapGet key m) eqn:E.
  - apply mapGet_In in E. apply (in_map fst) in E. exact E.
  - apply in_or_app. right. now left.
Qed.

Lemma mapSet_keeps {V} key (value : V) (m : JsMap V) k :
  In k (map fst m) -> In k (map fst (mapSet key value m)).
Proof.
  rewrite mapSet_keys. destruct (mapHas key m); [auto|].
  intros H. apply in_or_app. now left.
Qed.

Lemma keepBest_cases m card :
  keepBest toLowerCase m card = m
  \/ keepBest toLowerCase m card = mapSet (toLowerCase (name card)) card m.
Proof.
  unfold keepBest. destruct (isBasicLand toLowerCase card).
  - destruct (negb _); auto.
  - destruct (_ || _); auto.
Qed.

Lemma keepBest_tidy seen m card :
  tidy toLowerCase seen m ->
  tidy toLowerCase (seen ++ [card]) (keepBest toLowerCase m card).
Proof.
  intros [Hnd Hk].
  assert (Hweak : tidy toLowerCase (seen ++ [card]) m).
  { split; [exact Hnd|]. intros k v H. destruct (Hk k v H) as [-> Hin].
    split; [reflexivity | apply in_or_app; now left]. }
  destruct (keepBest_cases m card) as [-> | ->]; [exact Hweak|].
  split; [now apply mapSet_NoDup|].
  intros k v H. apply mapSet_In in H as [[-> ->]|H].
  - split; [reflexivity|]. apply in_or_app. right. now left.
  - now apply Hweak.
Qed.

Lemma keepBest_has m card :
  In (toLowerCase (name card)) (map fst (keepBest toLowerCase m card)).
Proof.
  unfold keepBest.
  assert (Hhas : mapHas (toLowerCase (name card)) m = true ->
                 In (toLowerCase (name card)) (map fst m)).
  { unfold mapHas. destruct (mapGet _ m) eqn:E; [|discriminate].
    intros _. apply mapGet_In in E. now apply (in_map fst) in E. }
  destruct (isBasicLand toLowerCase card).
  - destruct (mapHas _ m) eqn:E; simpl; [auto | apply mapSet_has].
  - destruct (mapHas _ m) eqn:E; simpl; [|apply mapSet_has].
    destruct (isPrioritizedVersion _ _); [apply mapSet_has | auto].
Qed.

Lemma keepBest_keeps m card k :
  In k (map fst m) -> In k (map fst (keepBest toLowerCase m card)).
Proof.
  intros H. destruct (keepBest_cases m card) as [-> | ->];
    [exact H | now apply mapSet_keeps].
Qed.

Lemma fold_keepBest_tidy cards :
  forall seen m, tidy toLowerCase seen m ->
    tidy toLowerCase (seen ++ cards) (fold_left (keepBest toLowerCase) cards m).
Proof.
  induction cards as [|card cards IH]; intros seen m H; simpl.
  - now rewrite app_nil_r.
  - replace (seen ++ card :: cards) with ((seen ++ [card]) ++ cards)
      by now rewrite <- app_assoc.
    apply IH. now apply keepBest_tidy.
Qed.

Lemma fold_keepBest_keeps cards :
  forall m k, In k (map fst m) ->
    In k (map fst (fold_left (keepBest toLowerCase) cards m)).
Proof.
  induction cards as [|card cards IH]; intros m k H; simpl; [exact H|].
  apply IH. now apply keepBest_keeps.
Qed.

Lemma fold_keepBest_has cards :
  forall m card, In card cards ->
    In (toLowerCase (name card))
       (map fst (fold_left (keepBest toLowerCase) cards m)).
Proof.
  induction cards as [|c cards IH]; intros m card; simpl; [intros []|].
  intros [->|H]; [|now apply IH].
  apply fold_keepBest_keeps, keepBest_has.
Qed.

(** The best versions: cards that were found, under distinct lower-cased
    names, one for every name that was found. *)
Lemma best_versions cards :
  let best := mapValues (fold_left (keepBest toLowerCase) cards []) in
  (forall c, In c best -> In c cards)
  /\ NoDup (map (fun c => toLowerCase (name c)) best)
  /\ (forall card, In card cards ->
        exists c, In c best /\ toLowerCase (name c) = toLowerCase (name card)).
Proof.
  assert (Ht : tidy toLowerCase [] (@nil (jsstring * Card))).
  { split; [constructor | intros k v []]. }
  apply (fold_keepBest_tidy cards) in Ht. simpl in Ht.
  destruct Ht as [Hnd Hk]. unfold mapValues.
  set (m := fold_left (keepBest toLowerCase) cards []) in *.
  assert (Hnames : map (fun c => toLowerCase (name c)) (map snd m) = map fst m).
  { rewrite map_map. apply map_ext_in. intros [k v] Hin. simpl.
    now destruct (Hk k v Hin) as [-> _]. }
  repeat split.
  - intros c Hc. apply in_map_iff in Hc as ([k v] & <- & Hin).
    now apply (Hk k v).
  - now rewrite Hnames.
  - intros card Hin.
    pose proof (fold_keepBest_has cards [] card Hin) as Hhas. fold m in Hhas.
    apply in_map_iff in Hhas as ([k v] & Hkv & Hm). simpl in Hkv. subst k.
    exists v. split; [apply in_map_iff; now exists (toLowerCase (name card), v)|].
    now destruct (Hk _ _ Hm) as [<- _].
Qed.

End SearchFacts.

Section PrioritizeFacts.

Import Search.

Variable toLowerCase : jsstring -> jsstring.

Implicit Types (card c : Card) (cards : list Card).

Lemma NoDup_map_inj {A B} (f : A -> B) (l : list A) x y :
  NoDup (map f l) -> In x l -> In y l -> f x = f y -> x = y.
Proof.
  induction l as [|a l IH]; simpl; [intros _ []|].
  intros Hnd Hx Hy Hf. apply NoDup_cons in Hnd as [Hnotin Hnd].
  rewrite list_elem_of_In in Hnotin.
  destruct Hx as [->|Hx], Hy as [->|Hy]; auto.
  - exfalso. apply Hnotin. rewrite Hf. now apply in_map.
  - exfalso. apply Hnotin. rewrite <- Hf. now apply in_map.
Qed.

Lemma NoDup_map_filter {A B} (f : A -> B) (p : A -> bool) (l : list A) :
  NoDup (map f l) -> NoDup (map f (List.filter p l)).
Proof.
  induction l as [|a l IH]; simpl; [auto|].
  intros Hnd. apply NoDup_cons in Hnd as [Hnotin Hnd].
  destruct (p a); simpl; [|auto].
  apply NoDup_cons. split; [|auto].
  rewrite list_elem_of_In in *. intros Hin. apply Hnotin.
  apply in_map_iff in Hin as (x & Hx & Hin). apply filter_In in Hin as [Hin _].
  rewrite <- Hx. now apply in_map.
Qed.

Lemma firstn_incl {A} n (l : list A) x : In x (firstn n l) -> In x l.
Proof.
  revert n. induction l as [|a l IH]; intros [|n]; simpl; try tauto.
  intros [->|H]; [now left | right; eauto].
Qed.

Lemma NoDup_map_firstn {A B} (f : A -> B) n (l : list A) :
  NoDup (map f l) -> NoDup (map f (firstn n l)).
Proof.
  revert n. induction l as [|a l IH]; intros [|n]; simpl; auto using NoDup_nil_2.
  intros Hnd. apply NoDup_cons in Hnd as [Hnotin Hnd].
  apply NoDup_cons. split; [|auto].
  rewrite list_elem_of_In in *. intros Hin. apply Hnotin.
  apply in_map_iff in Hin as (x & Hx & Hin).
  rewrite <- Hx. apply in_map. revert Hin. apply firstn_incl.
Qed.

(** Two selections from a list without duplicates, the second of which
    leaves out what the first took. *)
Lemma NoDup_map_split {A B} (f : A -> B) (p p' : A -> bool) (l : list A) :
  NoDup (map f l) ->
  (forall x, In x l -> p x = true -> p' x = false) ->
  NoDup (map f (List.filter p l ++ List.filter p' l)).
Proof.
  intros Hnd Hp. rewrite map_app. apply NoDup_app. repeat split.
  - now apply NoDup_map_filter.
  - intros b Hb Hb'. rewrite list_elem_of_In in Hb, Hb'.
    apply in_map_iff in Hb as (x & <- & Hx).
    apply in_map_iff in Hb' as (y & Hf & Hy).
    apply filter_In in Hx as [Hx Hpx]. apply filter_In in Hy as [Hy Hpy].
    assert (y = x) as -> by (eapply NoDup_map_inj; eauto).
    rewrite (Hp x Hx Hpx) in Hpy. discriminate.
  - now apply NoDup_map_filter.
Qed.

Lemma prioritize_found all query cards c :
  In c (prioritize toLowerCase all query cards) -> In c cards.
Proof.
  unfold prioritize. destruct all.
  - destruct (List.find (fun card => _ && _) cards) as [b|] eqn:Eb.
    + apply find_some in Eb as [Hb _].
      intros [<-|H]; [exact Hb | now apply filter_In in H].
    + destruct (List.find (sameName toLowerCase query) cards) as [e|] eqn:Ee;
        [|auto].
      apply find_some in Ee as [He _].
      intros [<-|H]; [exact He | now apply filter_In in H].
  - destruct (best_versions toLowerCase cards) as (Hsub & _ & _).
    set (best := mapValues _) in *.
    destruct (0 <? length _).
    + intros H. apply in_app_or in H as [H|H]; apply filter_In in H as [H _];
        now apply Hsub.
    + destruct (List.find (sameName toLowerCase query) best) as [e|] eqn:Ee.
      * apply find_some in Ee as [He _].
        intros [<-|H]; [now apply Hsub|].
        apply filter_In in H as [H _]. apply filter_In in H as [H _].
        now apply Hsub.
      * destruct (0 <? length _); [|apply Hsub].
        intros H. apply filter_In in H as [H _]. now apply Hsub.
Qed.

Lemma prioritize_distinct query cards :
  NoDup (map (fun c => toLowerCase (name c))
           (prioritize toLowerCase false query cards)).
Proof.
  unfold prioritize.
  destruct (best_versions toLowerCase cards) as (_ & Hnd & _).
  set (best := mapValues _) in *.
  destruct (0 <? length _).
  - apply NoDup_map_split; [exact Hnd|].
    intros x Hx Hp. apply negb_false_iff, existsb_exists.
    exists x. split; [now apply filter_In | apply strictEq_refl].
  - destruct (List.find (sameName toLowerCase query) best) as [e|] eqn:Ee.
    + apply find_some in Ee as [He _].
      set (close := List.filter _ best).
      assert (Hc : NoDup (map (fun c => toLowerCase (name c)) close))
        by now apply NoDup_map_filter.
      simpl. apply NoDup_cons. split.
      * rewrite list_elem_of_In. intros Hin.
        apply in_map_iff in Hin as (y & Hf & Hy).
        apply filter_In in Hy as [Hy Hpy]. apply filter_In in Hy as [Hy _].
        assert (y = e) as ->
          by exact (NoDup_map_inj (fun c => toLowerCase (name c)) best y e
                      Hnd Hy He Hf).
        rewrite strictEq_refl in Hpy. discriminate.
      * now apply NoDup_map_filter.
    + destruct (0 <? length _); [now apply NoDup_map_filter | exact Hnd].
Qed.

Lemma prioritize_exact all query cards card :
  In card cards ->
  sameName toLowerCase query card = true ->
  exists c rest,
    prioritize toLowerCase all query cards = c :: rest
    /\ sameName toLowerCase query c = true.
Proof.
  intros Hin Hsame. unfold prioritize. destruct all.
  - destruct (List.find (fun card => _ && _) cards) as [b|] eqn:Eb.
    + apply find_some in Eb as [_ Hb]. apply andb_prop in Hb as [Hb _]. eauto.
    + destruct (List.find (sameName toLowerCase query) cards) as [e|] eqn:Ee.
      * apply find_some in Ee as [_ He]. eauto.
      * apply (find_none _ _ Ee) in Hin. congruence.
  - destruct (best_versions toLowerCase cards) as (_ & _ & Hall).
    set (best := mapValues _) in *.
    destruct (Hall card Hin) as (c & Hc & Hname).
    assert (Hcs : sameName toLowerCase query c = true).
    { unfold sameName in *. now rewrite Hname. }
    destruct (List.filter (fun card => _ && _) best) as [|b lands] eqn:Eb.
    + simpl. destruct (List.find (sameName toLowerCase query) best) as [e|] eqn:Ee.
      * apply find_some in Ee as [_ He]. eauto.
      * apply (find_none _ _ Ee) in Hc. congruence.
    + simpl. exists b. eexists. split; [reflexivity|].
      assert (Hb : In b (List.filter
                           (fun card => isBasicLand toLowerCase card
                                        && sameName toLowerCase query card) best))
        by (rewrite Eb; now left).
      apply filter_In in Hb as [_ Hb]. now apply andb_prop in Hb as [_ Hb].
Qed.

End PrioritizeFacts.

(** X24.  A card search answers with at most 10 cards, and each of them is
    one of the cards the storage found for the query: the handler reorders
    and drops cards, it never makes one up. *)
Theorem search_results_found (toLowerCase : jsstring -> jsstring)
    (findCards : jsstring -> option jsstring -> Settled (list Search.Card))
    (query : Search.SearchQuery) (cards : list Search.Card) :
  Search.searchCards toLowerCase findCards query = Search.Json cards ->
  length cards <= 10
  /\ forall c, In c cards ->
       exists qs filters found,
         Search.q query = Some qs
         /\ findCards qs filters = Fulfilled found
         /\ In c found.
Proof.
  unfold Search.searchCards.
  destruct (Search.q query) as [qs|]; simpl; [|intros [= <-]; simpl; split; [lia | tauto]].
  destruct (is_empty qs || (length qs <? 2));
    [intros [= <-]; simpl; split; [lia | tauto]|].
  set (filters := if Search.include_all_sets query then _ else _).
  destruct (findCards qs filters) as [found|e] eqn:E; [|discriminate].
  intros [= <-]. split.
  - rewrite length_firstn. lia.
  - intros c Hc. exists qs, filters, found. repeat split; [exact E|].
    apply firstn_incl in Hc. revert Hc. apply prioritize_found.
Qed.

Lemma search_results_found_witness :
  length (firstn 10 (Search.prioritize Samples.asciiLower false
                       (lit "lightning bolt") Samples.shelf)) <= 10
  /\ forall c,
       In c (firstn 10 (Search.prioritize Samples.asciiLower false
                          (lit "lightning bolt") Samples.shelf)) ->
       exists qs filters found,
         Search.q Samples.boltQuery = Some qs
         /\ Samples.storage qs filters = Fulfilled found
         /\ In c found.
Proof.
  apply (search_results_found Samples.asciiLower Samples.storage
           Samples.boltQuery).
  reflexivity.
Defined.

(** X25.  Unless all sets are asked for, a card search answers with one
    version per card name: no two cards of the answer have the same name
    up to letter case. *)
Theorem search_names_distinct (toLowerCase : jsstring -> jsstring)
    (findCards : jsstring -> option jsstring -> Settled (list Search.Card))
    (query : Search.SearchQuery) (cards : list Search.Card) :
  Search.include_all_sets query = false ->
  Search.searchCards toLowerCase findCards query = Search.Json cards ->
  NoDup (map (fun c => toLowerCase (Search.name c)) cards).
Proof.
  intros Hall. unfold Search.searchCards. rewrite Hall.
  destruct (is_empty _ || _); [intros [= <-]; constructor|].
  destruct (findCards _ _) as [found|e]; [|discriminate].
  intros [= <-]. apply NoDup_map_firstn, prioritize_distinct.
Qed.

Lemma search_names_distinct_witness :
  NoDup (map (fun c => Samples.asciiLower (Search.name c))
           (firstn 10 (Search.prioritize Samples.asciiLower false
                         (lit "lightning bolt") Samples.shelf))).
Proof.
  apply (search_names_distinct Samples.asciiLower Samples.storage
           Samples.boltQuery).
  - reflexivity.
  - reflexivity.
Defined.

(** X26.  An exact match comes first.  When the query has at least two
    characters and the storage finds a card whose name equals the query up
    to letter case, the first card of the answer has such a name, with or
    without [include_all_sets]. *)
Theorem exact_match_first (toLowerCase : jsstring -> jsstring)
    (findCards : jsstring -> option jsstring -> Settled (list Search.Card))
    (query : Search.SearchQuery) (qs : jsstring)
    (found : list Search.Card) (card : Search.Card) :
  Search.q query = Some qs ->
  2 <= length qs ->
  findCards qs
    (if Search.include_all_sets query then None
     else match Search.setFilter query with
          | Some s => if is_empty s then None else Some s
          | None => None
          end) = Fulfilled found ->
  In card found ->
  Search.sameName toLowerCase qs card = true ->
  exists c rest,
    Search.searchCards toLowerCase findCards query = Search.Json (c :: rest)
    /\ Search.sameName toLowerCase qs c = true.
Proof.
  intros Hq Hlen Hfound Hin Hsame. unfold Search.searchCards. rewrite Hq.
  destruct qs as [|a [|b qs]]; simpl in Hlen; try lia.
  change (is_empty (a :: b :: qs) || (length (a :: b :: qs) <? 2)) with false.
  cbv iota. rewrite Hfound.
  destruct (prioritize_exact toLowerCase (Search.include_all_sets query)
              (a :: b :: qs) found card Hin Hsame) as (c & rest & -> & Hc).
  exists c, (firstn 9 rest). split; [reflexivity | exact Hc].
Qed.

Lemma exact_match_first_witness :
  exists c rest,
    Search.searchCards Samples.asciiLower Samples.storage Samples.boltQuery
    = Search.Json (c :: rest)
    /\ Search.sameName Samples.asciiLower (lit "lightning bolt") c = true.
Proof.
  apply (exact_match_first Samples.asciiLower Samples.storage Samples.boltQuery
           (lit "lightning bolt") Samples.shelf
           (Samples.card "c2" "Lightning Bolt" "Instant" "" "LEA")).
  - reflexivity.
  - vm_compute. lia.
  - reflexivity.
  - right. left. reflexivity.
  - vm_compute. reflexivity.
Defined.

(** X27.  The enhanced search keeps the cards of the database first and in
    order, asks the GraphQL service only when the database found fewer than
    5, and adds from it only cards that are new: no added card has the id
    of a database card or, up to letter case, its name. *)
Theorem enhanced_search_adds_only_new (toLowerCase : jsstring -> jsstring)
    (findCards : jsstring -> option jsstring -> Settled (list Search.Card))
    (searchCardsWithGraphQL : jsstring -> Settled (list Search.Card))
    (query : option jsstring) (cards : list Search.Card) :
  Search.enhancedSearch toLowerCase findCards searchCardsWithGraphQL query
    = Search.Found cards ->
  exists qs db extra,
    query = Some qs
    /\ findCards qs None = Fulfilled db
    /\ cards = db ++ extra
    /\ (5 <= length db -> extra = [])
    /\ forall c, In c extra ->
         (exists added, searchCardsWithGraphQL qs = Fulfilled added
                        /\ In c added)
         /\ forall d, In d db ->
              Search.id d <> Search.id c
              /\ toLowerCase (Search.name d) <> toLowerCase (Search.name c).
Proof.
  unfold Search.enhancedSearch.
  destruct query as [qs|]; [|discriminate].
  destruct (is_empty qs || _); [discriminate|].
  destruct (findCards qs None) as [db|e] eqn:Edb; [|discriminate].
  destruct (Nat.ltb_spec (length db) 5) as [Hlt|Hge].
  - destruct (searchCardsWithGraphQL qs) as [added|e] eqn:Eg; [|discriminate].
    intros [= <-]. exists qs, db. eexists.
    split; [reflexivity|]. split; [exact Edb|]. split; [reflexivity|].
    split; [lia|].
    intros c H. apply filter_In in H as [Hc Hp].
    apply andb_prop in Hp as [Hid Hname].
    apply negb_true_iff in Hid, Hname.
    split; [eauto|]. intros d Hd. split; intros Heq.
    + assert (Hex : existsb (fun c0 => Search.strictEq (Search.id c0) (Search.id c)) db
                    = true).
      { apply existsb_exists. exists d. split; [assumption|].
        now apply strictEq_true. }
      congruence.
    + assert (Hex : existsb (fun c0 => Search.strictEq
                                         (toLowerCase (Search.name c0))
                                         (toLowerCase (Search.name c))) db
                    = true).
      { apply existsb_exists. exists d. split; [assumption|].
        now apply strictEq_true. }
      congruence.
  - intros [= <-]. exists qs, db, []. rewrite app_nil_r.
    split; [reflexivity|]. split; [exact Edb|]. split; [reflexivity|].
    split; [reflexivity|]. intros c [].
Qed.

Lemma enhanced_search_adds_only_new_witness :
  exists qs db extra,
    Some (lit "bolt") = Some qs
    /\ Samples.scarceStorage qs None = Fulfilled db
    /\ [ Samples.card "c2" "Lightning Bolt" "Instant" "" "LEA";
         Samples.card "c5" "Shock" "Instant" "https://img/c5" "MOM";
         Samples.card "g2" "Bolt Bend" "Instant" "https://img/g2" "WAR" ]
       = db ++ extra
    /\ (5 <= length db -> extra = [])
    /\ forall c, In c extra ->
         (exists added, Samples.graphql qs = Fulfilled added /\ In c added)
         /\ forall d, In d db ->
              Search.id d <> Search.id c
              /\ Samples.asciiLower (Search.name d)
                 <> Samples.asciiLower (Search.name c).
Proof.
  apply (enhanced_search_adds_only_new Samples.asciiLower Samples.scarceStorage
           Samples.graphql (Some (lit "bolt"))).
  vm_compute. reflexivity.
Defined.

(** ** The deck builder *)

Section DeckFacts.

Import Deck.

Variable MTGCard : Type.
Variable id : MTGCard -> jsstring.
Variable currentFormat : Format.

Implicit Types (dc : DeckCard MTGCard) (deck : list (DeckCard MTGCard))
  (sec : DeckSection).

Lemma sameSection_true a b : sameSection a b = true <-> a = b.
Proof. destruct a, b; simpl; split; congruence. Qed.

Lemma isEntry_key cardId sec dc :
  isEntry MTGCard id cardId sec dc = true <-> entryKey id dc = (cardId, sec).
Proof.
  unfold isEntry, entryKey. rewrite andb_true_iff, strictEq_true,
    sameSection_true. split; [intros [-> ->]; reflexivity | intros [= -> ->]; auto].
Qed.

Lemma addCardToDeck_nil c sec :
  addCardToDeck MTGCard id currentFormat c sec []
  = [{| card := c; quantity := 1; section := sec |}].
Proof. reflexivity. Qed.

Lemma addCardToDeck_cons c sec dc deck :
  addCardToDeck MTGCard id currentFormat c sec (dc :: deck)
  = if isEntry MTGCard id (id c) sec dc then
      if (copyLimit currentFormat sec <=? quantity dc)%Z then dc :: deck
      else {| card := card dc; quantity := quantity dc + 1;
              section := section dc |} :: deck
    else dc :: addCardToDeck MTGCard id currentFormat c sec deck.
Proof.
  unfold addCardToDeck, copyLimit. simpl findIndex.
  destruct (isEntry MTGCard id (id c) sec dc); [reflexivity|].
  destruct (findIndex _ deck) as [i|]; simpl; [|reflexivity].
  destruct (deck !! i) as [x|]; [|reflexivity].
  now destruct (_ <=? _)%Z.
Qed.

Lemma removeCardFromDeck_cons cardId sec dc deck :
  removeCardFromDeck MTGCard id cardId sec (dc :: deck)
  = if isEntry MTGCard id cardId sec dc then
      if (1 <? quantity dc)%Z
      then {| card := card dc; quantity := quantity dc - 1;
              section := section dc |} :: deck
      else deck
    else dc :: removeCardFromDeck MTGCard id cardId sec deck.
Proof.
  unfold removeCardFromDeck. simpl findIndex.
  destruct (isEntry MTGCard id cardId sec dc); [reflexivity|].
  destruct (findIndex _ deck) as [i|]; simpl; [|reflexivity].
  destruct (deck !! i) as [x|]; [|reflexivity].
  now destruct (1 <? _)%Z.
Qed.

Lemma addCardToDeck_keys c sec deck k :
  In k (map (entryKey id) (addCardToDeck MTGCard id currentFormat c sec deck)) ->
  In k (map (entryKey id) deck) \/ k = (id c, sec).
Proof.
  induction deck as [|dc deck IH].
  - rewrite addCardToDeck_nil. simpl. intros [<-|[]]. now right.
  - rewrite addCardToDeck_cons.
    destruct (isEntry MTGCard id (id c) sec dc) eqn:E.
    + destruct (_ <=? _)%Z; simpl; auto.
    + simpl. intros [H|H]; [auto|]. destruct (IH H); auto.
Qed.

Lemma removeCardFromDeck_keys cardId sec deck k :
  In k (map (entryKey id) (removeCardFromDeck MTGCard id cardId sec deck)) ->
  In k (map (entryKey id) deck).
Proof.
  induction deck as [|dc deck IH]; [auto|].
  rewrite removeCardFromDeck_cons.
  destruct (isEntry MTGCard id cardId sec dc).
  - destruct (1 <? _)%Z; simpl; auto.
  - simpl. intros [H|H]; auto.
Qed.

Lemma addCardToDeck_inOrder c sec deck :
  (1 <= maxCopies currentFormat)%Z ->
  inOrder id currentFormat deck ->
  inOrder id currentFormat (addCardToDeck MTGCard id currentFormat c sec deck).
Proof.
  intros Hmax. assert (Hlim : (1 <= copyLimit currentFormat sec)%Z).
  { unfold copyLimit. destruct sec; lia. }
  unfold inOrder. induction deck as [|dc deck IH]; intros [Hnd Hq].
  - rewrite addCardToDeck_nil. split.
    + simpl. apply NoDup_singleton.
    + repeat constructor; simpl; lia.
  - simpl in Hnd. apply NoDup_cons in Hnd as [Hnotin Hnd].
    rewrite list_elem_of_In in Hnotin.
    apply Forall_cons in Hq as [Hdc Hq].
    rewrite addCardToDeck_cons.
    destruct (isEntry MTGCard id (id c) sec dc) eqn:E.
    + apply isEntry_key in E.
      destruct (Z.leb_spec (copyLimit currentFormat sec) (quantity dc)).
      * split; [simpl; apply NoDup_cons; rewrite list_elem_of_In; auto|].
        now apply Forall_cons.
      * split; [simpl; apply NoDup_cons; rewrite list_elem_of_In; auto|].
        apply Forall_cons. split; [|exact Hq]. simpl.
        injection E as _ Hsec. rewrite Hsec. lia.
    + destruct (IH (conj Hnd Hq)) as [Hnd' Hq'].
      split; [|now apply Forall_cons].
      simpl. apply NoDup_cons. split; [|exact Hnd'].
      rewrite list_elem_of_In. intros Hin.
      apply addCardToDeck_keys in Hin as [Hin|Hin]; [auto|].
      apply isEntry_key in Hin. congruence.
Qed.

Lemma removeCardFromDeck_inOrder cardId sec deck :
  inOrder id currentFormat deck ->
  inOrder id currentFormat (removeCardFromDeck MTGCard id cardId sec deck).
Proof.
  unfold inOrder. induction deck as [|dc deck IH]; intros [Hnd Hq];
    [split; assumption|].
  simpl in Hnd. apply NoDup_cons in Hnd as [Hnotin Hnd].
  rewrite list_elem_of_In in Hnotin.
  apply Forall_cons in Hq as [Hdc Hq].
  rewrite removeCardFromDeck_cons.
  destruct (isEntry MTGCard id cardId sec dc).
  - destruct (Z.ltb_spec 1 (quantity dc)); [|split; assumption].
    split; [simpl; apply NoDup_cons; rewrite list_elem_of_In; auto|].
    apply Forall_cons. split; [simpl; lia | exact Hq].
  - destruct (IH (conj Hnd Hq)) as [Hnd' Hq'].
    split; [|now apply Forall_cons].
    simpl. apply NoDup_cons. split; [|exact Hnd'].
    rewrite list_elem_of_In. intros Hin.
    now apply removeCardFromDeck_keys in Hin.
Qed.

End DeckFacts.

(** X28.  Removing undoes adding.  In a deck whose entries all have at least
    one copy, whenever [addCardToDeck] changed the deck (the copy limit was
    not reached), [removeCardFromDeck] of the same card and section gives
    the old deck back. *)
Theorem add_then_remove (MTGCard : Type) (id : MTGCard -> jsstring)
    (currentFormat : Deck.Format) (c : MTGCard) (sec : Deck.DeckSection)
    (deck : list (Deck.DeckCard MTGCard)) :
  Forall (fun dc => (1 <= Deck.quantity dc)%Z) deck ->
  Deck.addCardToDeck MTGCard id currentFormat c sec deck <> deck ->
  Deck.removeCardFromDeck MTGCard id (id c) sec
    (Deck.addCardToDeck MTGCard id currentFormat c sec deck)
  = deck.
Proof.
  induction deck as [|dc deck IH]; intros Hq Hchanged.
  - rewrite addCardToDeck_nil, removeCardFromDeck_cons.
    replace (Deck.isEntry MTGCard id (id c) sec _) with true; [reflexivity|].
    symmetry. now apply isEntry_key.
  - apply Forall_cons in Hq as [Hdc Hq].
    rewrite addCardToDeck_cons in *.
    destruct (Deck.isEntry MTGCard id (id c) sec dc) eqn:E.
    + destruct (_ <=? _)%Z; [congruence|].
      rewrite removeCardFromDeck_cons.
      assert (E' : Deck.isEntry MTGCard id (id c) sec
                     {| Deck.card := Deck.card dc;
                        Deck.quantity := Deck.quantity dc + 1;
                        Deck.section := Deck.section dc |} = true).
      { apply isEntry_key. now apply isEntry_key in E. }
      rewrite E'. simpl Deck.quantity.
      destruct (Z.ltb_spec 1 (Deck.quantity dc + 1)); [|lia].
      simpl. destruct dc as [k n x]. simpl. do 2 f_equal. lia.
    + rewrite removeCardFromDeck_cons, E. f_equal. apply IH; [exact Hq|].
      congruence.
Qed.

Lemma add_then_remove_witness :
  Deck.removeCardFromDeck jsstring (fun c => c) (lit "c2") Deck.maindeck
    (Deck.addCardToDeck jsstring (fun c => c) Samples.standard (lit "c2")
       Deck.maindeck Samples.deckOfTwo)
  = Samples.deckOfTwo.
Proof.
  apply (add_then_remove jsstring (fun c => c) Samples.standard (lit "c2")
           Deck.maindeck Samples.deckOfTwo).
  - repeat constructor; simpl; lia.
  - vm_compute. discriminate.
Defined.

(** X29.  The deck builder keeps a deck in good order: when a deck has one
    entry per card and section, each with at least one copy and no more than
    the copy limit (1 for the commander section, the format's [maxCopies]
    otherwise, with [maxCopies >= 1]), it still has after [addCardToDeck]
    and after [removeCardFromDeck]. *)
Theorem deck_stays_in_order (MTGCard : Type) (id : MTGCard -> jsstring)
    (currentFormat : Deck.Format) (c : MTGCard) (sec : Deck.DeckSection)
    (deck : list (Deck.DeckCard MTGCard)) :
  (1 <= Deck.maxCopies currentFormat)%Z ->
  inOrder id currentFormat deck ->
  inOrder id currentFormat
    (Deck.addCardToDeck MTGCard id currentFormat c sec deck)
  /\ inOrder id currentFormat
       (Deck.removeCardFromDeck MTGCard id (id c) sec deck).
Proof.
  intros Hmax Hdeck. split.
  - now apply addCardToDeck_inOrder.
  - now apply removeCardFromDeck_inOrder.
Qed.

Lemma deck_stays_in_order_witness :
  inOrder (fun c => c) Samples.standard
    (Deck.addCardToDeck jsstring (fun c => c) Samples.standard (lit "c9")
       Deck.commander Samples.deckOfTwo)
  /\ inOrder (fun c => c) Samples.standard
       (Deck.removeCardFromDeck jsstring (fun c => c) (lit "c9")
          Deck.commander Samples.deckOfTwo).
Proof.
  apply (deck_stays_in_order jsstring (fun c => c) Samples.standard (lit "c9")
           Deck.commander Samples.deckOfTwo).
  - simpl. lia.
  - split.
    + simpl. apply NoDup_cons. split; [|apply NoDup_singleton].
      rewrite list_elem_of_In. simpl. intros [H|[]]. discriminate H.
    + repeat constructor; simpl; lia.
Defined.
